(** * LidarDataProcessing: a shallow embedding of the perception pipeline

    The development follows the Python sources module by module:
    [object_features.py] (feature extraction and the rule-based classifier),
    [tracker.py] (the Euclidean-distance tracker), [ground_filter.py],
    [clustering.py] and the processing loop of [main.py].

    Numbers.  Python [int]s are unbounded and are modelled by [Z].  Python
    [float]s are modelled by the rationals [Q]: the sources only add, subtract,
    halve, average and compare them, and all of these are exact on [Q].
    Rounding error of binary floating point, infinities and NaN are outside the
    model.  Two rationals that denote the same number need not be the same
    term ([1#2] and [2#4]), so statements about computed numbers use [==]. *)

From Stdlib Require Import List ZArith QArith Qabs Qround Qminmax String Bool.
From Stdlib Require Import Lia Lqa.
From Stdlib Require Import Sorted Permutation FinFun.
Import ListNotations.

Open Scope Z_scope.
Open Scope Q_scope.

(** ** Comparisons on numbers *)

Module Num.

(** [a < b] on floats, as a boolean. *)
Definition ltb (a b : Q) : bool :=
  (Qnum a * QDen b <? Qnum b * QDen a)%Z.

(** [a > b] is [b < a]. *)
Definition gtb (a b : Q) : bool := ltb b a.

End Num.
Import Num.

(** ** object_features.py: the feature dictionary *)

(** The dictionary built by [extract_features].  The keys ["class"] and
    ["object_id"] are added later by the processing loop; [None] stands for a
    key that is not in the dictionary yet. *)
Module Feature.

Record feature : Type := mk_feature {
  label : Z;
  num_points : Z;
  width : Q;
  length : Q;
  height : Q;
  avg_intensity : Z;
  bbox_min : Q * Q * Q;
  bbox_max : Q * Q * Q;
  class : option string;
  object_id : option Z
}.

End Feature.

(** ** object_features.py: classify_object_advanced *)

Module Classifier.
Import Feature.

(** Python's [sorted] on a list of floats: a stable sort that only uses
    [<].  An element goes behind the elements that are strictly smaller
    than it, so equal elements keep their input order. *)
Fixpoint insert_sorted (x : Q) (l : list Q) : list Q :=
  match l with
  | [] => [x]
  | e :: rest => if ltb e x then e :: insert_sorted x rest else x :: e :: rest
  end.

Fixpoint sorted (l : list Q) : list Q :=
  match l with
  | [] => []
  | x :: rest => insert_sorted x (sorted rest)
  end.

Definition classify_object_advanced (feat : feature) : string :=
  let n_points := num_points feat in
  let dims := sorted [width feat; length feat] in
  let width := nth 0 dims 0 in
  let length := nth 1 dims 0 in
  let height := height feat in
  if (n_points <? 20)%Z
     || (ltb length 0.2 && ltb width 0.2 && ltb height 0.2)
  then "noise"%string
  else if gtb height 1.0 && ltb length 1.5 && ltb width 1.5
  then (if gtb length 1.0 then "cyclist"%string else "pedestrian"%string)
  else if gtb length 1.5 && gtb width 1.0 && gtb height 0.8 && ltb height 3.0
  then "car"%string
  else "unknown"%string.

(** The rule table as the specification words it: the smaller horizontal
    extent is the width, the larger one the length, and the first rule that
    matches decides. *)
Definition smaller_extent (f : feature) : Q := Qmin (width f) (length f).
Definition larger_extent (f : feature) : Q := Qmax (width f) (length f).

Definition noise_rule (f : feature) : Prop :=
  (num_points f < 20)%Z
  \/ (larger_extent f < 0.2 /\ smaller_extent f < 0.2 /\ height f < 0.2).

Definition slim_rule (f : feature) : Prop :=
  height f > 1.0 /\ larger_extent f < 1.5 /\ smaller_extent f < 1.5.

Definition car_rule (f : feature) : Prop :=
  larger_extent f > 1.5 /\ smaller_extent f > 1.0
  /\ 0.8 < height f /\ height f < 3.0.

Inductive verdict (f : feature) : string -> Prop :=
| V_noise : noise_rule f -> verdict f "noise"
| V_cyclist :
    ~ noise_rule f -> slim_rule f -> larger_extent f > 1.0 ->
    verdict f "cyclist"
| V_pedestrian :
    ~ noise_rule f -> slim_rule f -> ~ larger_extent f > 1.0 ->
    verdict f "pedestrian"
| V_car : ~ noise_rule f -> ~ slim_rule f -> car_rule f -> verdict f "car"
| V_unknown :
    ~ noise_rule f -> ~ slim_rule f -> ~ car_rule f -> verdict f "unknown".

Definition labels : list string :=
  ["noise"; "pedestrian"; "cyclist"; "car"; "unknown"]%string.

(** The decision of the classifier once the two extents are ordered. *)
Definition decide (n : Z) (w l h : Q) : string :=
  if (n <? 20)%Z || (ltb l 0.2 && ltb w 0.2 && ltb h 0.2)
  then "noise"%string
  else if gtb h 1.0 && ltb l 1.5 && ltb w 1.5
  then (if gtb l 1.0 then "cyclist"%string else "pedestrian"%string)
  else if gtb l 1.5 && gtb w 1.0 && gtb h 0.8 && ltb h 3.0
  then "car"%string
  else "unknown"%string.

(** The feature with its two horizontal extents exchanged. *)
Definition swap_extents (f : feature) : feature :=
  mk_feature (label f) (num_points f) (length f) (width f) (height f)
             (avg_intensity f) (bbox_min f) (bbox_max f) (class f)
             (object_id f).

End Classifier.

(** ** tracker.py: EuclideanDistTracker *)

Module Tracker.

(** A detection [[x, y, w, h]] and a tracked object [[x, y, w, h, id]]. *)
Definition rect : Type := Q * Q * Q * Q.
Definition tracked_object : Type := Q * Q * Q * Q * Z.

Definition tracked_id (t : tracked_object) : Z := snd t.

(** [self.center_points] is a Python dictionary: its items are kept in
    insertion order, and assigning to a key that is present replaces the
    value in place. *)
Definition dict : Type := list (Z * (Q * Q)).

Fixpoint dict_set (k : Z) (v : Q * Q) (d : dict) : dict :=
  match d with
  | [] => [(k, v)]
  | (k', v') :: rest =>
      if (k' =? k)%Z then (k, v) :: rest else (k', v') :: dict_set k v rest
  end.

Definition dict_keys (d : dict) : list Z := map fst d.

Record tracker : Type := mk_tracker {
  center_points : dict;
  id_count : Z
}.

(** [EuclideanDistTracker()] *)
Definition init : tracker := mk_tracker [] 0.

(** [cx = x + w / 2], [cy = y + h / 2] *)
Definition center (r : rect) : Q * Q :=
  let '(x, y, w, h) := r in (x + w / 2, y + h / 2).

(** Distances.  [math.hypot(dx, dy)] is not a rational; every distance is
    kept as its square, and [dist < min_dist] is decided on the squares.
    The threshold enters as [min_dist = dist_thresh]: a threshold that is
    not positive admits no distance at all, which is what the square [0]
    does. *)
Definition hypot2 (dx dy : Q) : Q := dx * dx + dy * dy.

Definition thresh2 (dist_thresh : Q) : Q :=
  if ltb 0 dist_thresh then dist_thresh * dist_thresh else 0.

(** [list.remove]: drops the first occurrence. *)
Fixpoint list_remove (i : nat) (l : list nat) : list nat :=
  match l with
  | [] => []
  | j :: rest => if Nat.eqb j i then rest else j :: list_remove i rest
  end.

Definition nth_rect (objects_rects : list rect) (i : nat) : rect :=
  nth i objects_rects (0, 0, 0, 0).

(** The inner loop [for i in unmatched_detections], carrying
    [best_match_idx] ([None] for [-1]) and the square of [min_dist]. *)
Fixpoint closest (objects_rects : list rect) (pt : Q * Q)
         (unmatched_detections : list nat)
         (best_match_idx : option nat) (min_dist : Q) : option nat * Q :=
  match unmatched_detections with
  | [] => (best_match_idx, min_dist)
  | i :: rest =>
      let '(cx, cy) := center (nth_rect objects_rects i) in
      let dist := hypot2 (cx - fst pt) (cy - snd pt) in
      if ltb dist min_dist
      then closest objects_rects pt rest (Some i) dist
      else closest objects_rects pt rest best_match_idx min_dist
  end.

(** What the loops of [update] change. *)
Record frame_state : Type := mk_frame_state {
  centers : dict;
  tracked_objects : list tracked_object;
  unmatched_detections : list nat
}.

(** One round of [for obj_id, pt in self.center_points.items()]. *)
Definition match_identity (objects_rects : list rect) (dist_thresh : Q)
           (st : frame_state) (item : Z * (Q * Q)) : frame_state :=
  let '(obj_id, pt) := item in
  match fst (closest objects_rects pt (unmatched_detections st)
                     None (thresh2 dist_thresh)) with
  | Some best_match_idx =>
      let '(x, y, w, h) := nth_rect objects_rects best_match_idx in
      let '(cx, cy) := center (x, y, w, h) in
      mk_frame_state
        (dict_set obj_id (cx, cy) (centers st))
        (tracked_objects st ++ [(x, y, w, h, obj_id)])
        (list_remove best_match_idx (unmatched_detections st))
  | None => st
  end.

(** One round of the second [for i in unmatched_detections], which also
    advances [self.id_count]. *)
Definition spawn_identity (objects_rects : list rect)
           (acc : frame_state * Z) (i : nat) : frame_state * Z :=
  let '(st, id_count) := acc in
  let '(x, y, w, h) := nth_rect objects_rects i in
  let '(cx, cy) := center (x, y, w, h) in
  let id_count := (id_count + 1)%Z in
  (mk_frame_state
     (dict_set id_count (cx, cy) (centers st))
     (tracked_objects st ++ [(x, y, w, h, id_count)])
     (unmatched_detections st),
   id_count).

Definition match_phase (objects_rects : list rect) (dist_thresh : Q)
           (t : tracker) : frame_state :=
  let st := mk_frame_state (center_points t) []
                           (seq 0 (List.length objects_rects)) in
  match center_points t with
  | [] => st
  | items => fold_left (match_identity objects_rects dist_thresh) items st
  end.

Definition spawn_phase (objects_rects : list rect) (t : tracker)
           (st : frame_state) : frame_state * Z :=
  fold_left (spawn_identity objects_rects) (unmatched_detections st)
            (st, id_count t).

(** [update(objects_rects, dist_thresh)]: the tracker after the call and the
    returned list. *)
Definition update (t : tracker) (objects_rects : list rect)
           (dist_thresh : Q) : tracker * list tracked_object :=
  let st := match_phase objects_rects dist_thresh t in
  let '(st, id_count) := spawn_phase objects_rects t st in
  let active_ids := map tracked_id (tracked_objects st) in
  (mk_tracker
     (filter (fun item => existsb (Z.eqb (fst item)) active_ids) (centers st))
     id_count,
   tracked_objects st).

(** The default [dist_thresh=5.0]. *)
Definition default_dist_thresh : Q := 5.0.

(** A run of the tracker: the calls of [update] in order, each with its
    detections and threshold; the result is the final tracker and the list
    returned by each call. *)
Fixpoint run (t : tracker) (calls : list (list rect * Q))
  : tracker * list (list tracked_object) :=
  match calls with
  | [] => (t, [])
  | (objects_rects, dist_thresh) :: rest =>
      let '(t', out) := update t objects_rects dist_thresh in
      let '(t'', outs) := run t' rest in
      (t'', out :: outs)
  end.

(** The objects a call of [update] returns for newly spawned identities:
    what the second loop appends to [tracked_objects]. *)
Definition spawned (t : tracker) (objects_rects : list rect)
           (dist_thresh : Q) : list tracked_object :=
  let st := match_phase objects_rects dist_thresh t in
  skipn (List.length (tracked_objects st))
        (tracked_objects (fst (spawn_phase objects_rects t st))).

(** The ids given to new identities over a run, in the order they are
    given. *)
Fixpoint spawned_ids (t : tracker) (calls : list (list rect * Q)) : list Z :=
  match calls with
  | [] => []
  | (objects_rects, dist_thresh) :: rest =>
      map tracked_id (spawned t objects_rects dist_thresh)
      ++ spawned_ids (fst (update t objects_rects dist_thresh)) rest
  end.

(** The ids [idc + 1, ..., idc + n]. *)
Definition fresh_ids (idc : Z) (n : nat) : list Z :=
  map (fun i => (idc + 1 + Z.of_nat i)%Z) (seq 0 n).

(** Every stored id has been handed out by the counter. *)
Definition bounded (t : tracker) : Prop :=
  forall k, In k (dict_keys (center_points t)) -> (k <= id_count t)%Z.

End Tracker.

(** ** Exceptions and arrays *)

Module Py.

(** The exceptions the modelled code can raise. *)
Inductive exn : Type :=
| AttributeError
| IndexError
| KeyError.

(** A call either returns a value or raises. *)
Inductive result (A : Type) : Type :=
| Ok (a : A)
| Raise (e : exn).
Arguments Ok {A} a.
Arguments Raise {A} e.

Definition bind {A B : Type} (r : result A) (k : A -> result B) : result B :=
  match r with
  | Ok a => k a
  | Raise e => Raise e
  end.

(** A two-dimensional numpy array, row by row: [shape[0]] is the number of
    rows, [shape[1]] is kept with the array because an array without rows
    still has a column count. *)
Record ndarray (row : Type) : Type := mk_ndarray {
  shape1 : nat;
  rows : list row
}.
Arguments mk_ndarray {row} shape1 rows.
Arguments shape1 {row} n.
Arguments rows {row} n.

Definition shape0 {row : Type} (a : ndarray row) : nat := List.length (rows a).

(** [arr[keep]] for a boolean mask [keep]: the rows whose mask entry is
    [True], in order.  numpy raises [IndexError] when the mask and the array
    differ in length. *)
Fixpoint select {row : Type} (keep : list bool) (l : list row) : list row :=
  match keep, l with
  | k :: keep', r :: l' => if k then r :: select keep' l' else select keep' l'
  | _, _ => []
  end.

Definition mask_rows {row : Type} (keep : list bool) (l : list row)
  : result (list row) :=
  if Nat.eqb (List.length keep) (List.length l)
  then Ok (select keep l)
  else Raise IndexError.

End Py.
Import Py.

Notation "x <- r ;; k" := (Py.bind r (fun x => k))
  (at level 61, r at next level, right associativity).

(** ** ground_filter.py *)

Module GroundFilter.

Section Ransac.

(** A row of the [N x features] input; [xyz] is [points[:, :3]] on one
    row. *)
Variable row : Type.
Variable xyz : row -> Q * Q * Q.

(** [pcd.segment_plane] belongs to open3d.  It draws its samples from the
    library's own random generator, whose state [rng] it reads and advances;
    the call returns the indices of the inliers of the winning plane. *)
Variable rng : Type.
Variable segment_plane :
  rng -> list (Q * Q * Q) -> Q -> Z -> Z -> list nat * rng.

(** [keep[i] = False] for an index inside the mask. *)
Fixpoint set_false (i : nat) (keep : list bool) : list bool :=
  match keep, i with
  | [], _ => []
  | _ :: keep', O => false :: keep'
  | k :: keep', S i' => k :: set_false i' keep'
  end.

(** [keep[obj] = False] for a list of indices: numpy raises [IndexError] on
    an index outside the array. *)
Fixpoint clear_mask (keep : list bool) (obj : list nat) : result (list bool) :=
  match obj with
  | [] => Ok keep
  | i :: rest =>
      if (i <? List.length keep)%nat
      then clear_mask (set_false i keep) rest
      else Raise IndexError
  end.

(** [np.delete(arr, obj, axis=0)]: a mask of [True]s, cleared at the
    indices of [obj], selects the rows that stay. *)
Definition np_delete (arr : ndarray row) (obj : list nat)
  : result (ndarray row) :=
  keep <- clear_mask (repeat true (shape0 arr)) obj ;;
  new <- mask_rows keep (rows arr) ;;
  Ok (mk_ndarray (shape1 arr) new).

(** [filter_ground_ransac(points, distance_threshold, ransac_n,
    num_iterations)]; [points] may be [None]. *)
Definition filter_ground_ransac (g : rng) (points : option (ndarray row))
           (distance_threshold : Q) (ransac_n num_iterations : Z)
  : result (ndarray row) * rng :=
  match points with
  | None =>
      (* [points is None] holds, and [points.shape[1]] is evaluated on
         [None] *)
      (Raise AttributeError, g)
  | Some points =>
      if (Z.of_nat (shape0 points) <? ransac_n)%Z
      then (Ok (mk_ndarray (shape1 points) []), g)
      else
        let '(inliers, g') :=
          segment_plane g (map xyz (rows points)) distance_threshold
                        ransac_n num_iterations in
        (np_delete points inliers, g')
  end.

End Ransac.

Arguments np_delete {row} arr obj.
Arguments filter_ground_ransac {row} xyz {rng} segment_plane g points
  distance_threshold ransac_n num_iterations.

(** The non-ground rows as the specification words them: pair every row
    with its position, drop the pairs whose position is an inlier, and keep
    the rows of the others as they are and in their order. *)
Definition non_inlier_rows {row : Type} (l : list row) (inliers : list nat)
  : list row :=
  map snd (filter (fun p => negb (existsb (Nat.eqb (fst p)) inliers))
                  (combine (seq 0 (List.length l)) l)).

End GroundFilter.

(** ** Plane fitting *)

Module RANSAC.

(** The source hands the plane fit to open3d's [segment_plane], which is
    not among the sources.  This module follows the algorithm of section 4.1
    of the specification; it serves to run the loop on concrete frames. *)

(** Difference, inner product and cross product of vectors; [Qred] keeps
    every number in lowest terms. *)
Definition sub3 (p q : Q * Q * Q) : Q * Q * Q :=
  let '(x1, y1, z1) := p in
  let '(x2, y2, z2) := q in
  (Qred (x1 - x2), Qred (y1 - y2), Qred (z1 - z2)).

Definition dot3 (p q : Q * Q * Q) : Q :=
  let '(x1, y1, z1) := p in
  let '(x2, y2, z2) := q in
  Qred (x1 * x2 + y1 * y2 + z1 * z2).

Definition cross3 (p q : Q * Q * Q) : Q * Q * Q :=
  let '(x1, y1, z1) := p in
  let '(x2, y2, z2) := q in
  (Qred (y1 * z2 - z1 * y2), Qred (z1 * x2 - x1 * z2),
   Qred (x1 * y2 - y1 * x2)).

(** The random generator: the samples it deals, over and over, and how
    many it has dealt. *)
Record generator : Type := mk_generator {
  samples : list (nat * nat * nat);
  position : nat
}.

Definition draw (g : generator) : nat * nat * nat * generator :=
  (nth (position g mod List.length (samples g)) (samples g) (0, 1, 2)%nat,
   mk_generator (samples g) (S (position g))).

(** Modelled from the spec: the inliers of open3d's plane fit, which is not
    among the sources.  "Points whose perpendicular distance to the plane is
    <= distance_threshold": with [n] a normal of the plane through [p1], the
    distance of [p] is [|n . (p - p1)| / |n|], compared on squares. *)
Definition inlier (distance_threshold : Q) (p1 n p : Q * Q * Q) : bool :=
  Qle_bool 0 distance_threshold
  && Qle_bool (dot3 n (sub3 p p1) * dot3 n (sub3 p p1))
              (distance_threshold * distance_threshold * dot3 n n).

(** The plane through the three sampled points and its inliers; [None] for
    a sample that spans no plane. *)
Definition fit (X : list (Q * Q * Q)) (distance_threshold : Q)
           (sample : nat * nat * nat) : option (list nat) :=
  let '(a, b, c) := sample in
  match nth_error X a, nth_error X b, nth_error X c with
  | Some p1, Some p2, Some p3 =>
      let n := cross3 (sub3 p2 p1) (sub3 p3 p1) in
      if Qeq_bool (dot3 n n) 0 then None
      else Some (filter (fun i => inlier distance_threshold p1 n
                                         (nth i X (0, 0, 0)))
                        (seq 0 (List.length X)))
  | _, _, _ => None
  end.

(** Modelled from the spec: the iterations of open3d's plane fit, which is
    not among the sources.  "Retain the plane with the largest inlier count
    seen so far (first-found wins ties)"; a sample that spans no plane is
    passed over. *)
Fixpoint iterations (k : nat) (g : generator) (X : list (Q * Q * Q))
         (distance_threshold : Q) (best : list nat) : list nat * generator :=
  match k with
  | O => (best, g)
  | S k' =>
      let '(sample, g') := draw g in
      match fit X distance_threshold sample with
      | Some inliers =>
          if (List.length best <? List.length inliers)%nat
          then iterations k' g' X distance_threshold inliers
          else iterations k' g' X distance_threshold best
      | None => iterations k' g' X distance_threshold best
      end
  end.

(** Modelled from the spec: [pcd.segment_plane(distance_threshold, ransac_n,
    num_iterations)] of open3d, which is not among the sources; the sample
    size is the 3 of section 4.1. *)
Definition segment_plane (g : generator) (X : list (Q * Q * Q))
           (distance_threshold : Q) (ransac_n num_iterations : Z)
  : list nat * generator :=
  iterations (Z.to_nat num_iterations) g X distance_threshold [].

End RANSAC.

(** ** object_features.py: extract_features *)

Module ObjectFeatures.
Import Feature.

(** A row of the [N x 4] array: X, Y, Z, Intensity. *)
Record point : Type := mk_point {
  px : Q;
  py : Q;
  pz : Q;
  intensity : Q
}.

(** [points[:, :3]] on one row. *)
Definition xyz (p : point) : Q * Q * Q := (px p, py p, pz p).

(** [np.unique] on integer labels: the distinct values in increasing
    order. *)
Fixpoint insert_unique (x : Z) (l : list Z) : list Z :=
  match l with
  | [] => [x]
  | y :: rest =>
      if (x <? y)%Z then x :: y :: rest
      else if (x =? y)%Z then y :: rest
      else y :: insert_unique x rest
  end.

Definition np_unique (l : list Z) : list Z := fold_right insert_unique [] l.

(** [round(x, 2)]: Python rounds to the nearest multiple of 0.01 and takes
    the even one of two that are equally near. *)
Definition round_half_even (q : Q) : Z :=
  let f := Qfloor q in
  let r := q - inject_Z f in
  if ltb r (1 # 2) then f
  else if ltb (1 # 2) r then (f + 1)%Z
  else if Z.even f then f else (f + 1)%Z.

Definition py_round2 (q : Q) : Q := inject_Z (round_half_even (q * 100)) / 100.

(** [int(x)] on a float truncates toward zero. *)
Definition py_int (q : Q) : Z := Z.quot (Qnum q) (QDen q).

(** [np.mean], [np.min] and [np.max] of one column.  On an empty column
    numpy has no minimum and its mean is NaN; the model yields [0] there and
    [extract_features] never asks for it. *)
Definition np_sum (l : list Q) : Q := fold_left Qplus l 0.

Definition np_mean (l : list Q) : Q :=
  np_sum l / inject_Z (Z.of_nat (List.length l)).

Definition np_min (l : list Q) : Q :=
  match l with
  | [] => 0
  | x :: rest => fold_left (fun m v => if ltb v m then v else m) rest x
  end.

Definition np_max (l : list Q) : Q :=
  match l with
  | [] => 0
  | x :: rest => fold_left (fun m v => if ltb m v then v else m) rest x
  end.

(** The body of the loop of [extract_features] for one label and its
    [cluster_points]. *)
Definition feature_of (label : Z) (cluster_points : list point) : feature :=
  let avg_intensity := py_int (np_mean (map intensity cluster_points)) in
  let min_bound := (np_min (map px cluster_points),
                    np_min (map py cluster_points),
                    np_min (map pz cluster_points)) in
  let max_bound := (np_max (map px cluster_points),
                    np_max (map py cluster_points),
                    np_max (map pz cluster_points)) in
  let '(min0, min1, min2) := min_bound in
  let '(max0, max1, max2) := max_bound in
  let extent := (max0 - min0, max1 - min1, max2 - min2) in
  let '(extent0, extent1, extent2) := extent in
  mk_feature label
             (Z.of_nat (List.length cluster_points))
             (py_round2 extent0)
             (py_round2 extent1)
             (py_round2 extent2)
             avg_intensity
             (py_round2 min0, py_round2 min1, py_round2 min2)
             (py_round2 max0, py_round2 max1, py_round2 max2)
             None None.

(** [for label in unique_labels]: label [-1] is skipped, and
    [points[labels == label]] raises when [labels] and [points] differ in
    length. *)
Fixpoint features_loop (points : list point) (labels : list Z)
         (unique_labels : list Z) : result (list feature) :=
  match unique_labels with
  | [] => Ok []
  | label :: rest =>
      if (label =? -1)%Z then features_loop points labels rest
      else
        cluster_points <- mask_rows (map (fun l => (l =? label)%Z) labels)
                                    points ;;
        features <- features_loop points labels rest ;;
        Ok (feature_of label cluster_points :: features)
  end.

Definition extract_features (points : ndarray point) (labels : list Z)
  : result (list feature) :=
  features_loop (rows points) labels (np_unique labels).

(** The member points of a cluster, as the specification words them: the
    points whose label is the cluster's. *)
Definition members (points : list point) (labels : list Z) (l : Z)
  : list point :=
  map snd (filter (fun p => (fst p =? l)%Z) (combine labels points)).

(** [m] is the least, respectively greatest, of the numbers [l]. *)
Definition is_minimum (l : list Q) (m : Q) : Prop :=
  In m l /\ forall v, In v l -> m <= v.

Definition is_maximum (l : list Q) (m : Q) : Prop :=
  In m l /\ forall v, In v l -> v <= m.

(** [r] is [q] rounded to two decimal places: a multiple of 0.01 that is
    nearest to [q], and the even multiple when [q] lies halfway between
    two. *)
Definition rounded2 (q r : Q) : Prop :=
  exists k : Z,
    r == inject_Z k / 100
    /\ Qabs (q * 100 - inject_Z k) <= 1 # 2
    /\ (Qabs (q * 100 - inject_Z k) == 1 # 2 -> Z.even k = true).

(** [z] is [q] truncated to an integer: the integer part toward zero. *)
Definition truncated (q : Q) (z : Z) : Prop :=
  Qabs (inject_Z z) <= Qabs q /\ Qabs (q - inject_Z z) < 1.

(** One axis of the bounding box of a cluster: [extent] is the rounded
    difference of the greatest and the least coordinate, [lo] and [hi] are
    the rounded least and greatest coordinate. *)
Definition axis_described (column : list Q) (extent lo hi : Q) : Prop :=
  exists least greatest,
    is_minimum column least /\ is_maximum column greatest
    /\ rounded2 (greatest - least) extent
    /\ rounded2 least lo /\ rounded2 greatest hi.

(** The feature of a cluster with member points [M]. *)
Definition describes (M : list point) (feat : feature) : Prop :=
  num_points feat = Z.of_nat (List.length M)
  /\ axis_described (map px M) (width feat)
                    (fst (fst (bbox_min feat))) (fst (fst (bbox_max feat)))
  /\ axis_described (map py M) (length feat)
                    (snd (fst (bbox_min feat))) (snd (fst (bbox_max feat)))
  /\ axis_described (map pz M) (height feat)
                    (snd (bbox_min feat)) (snd (bbox_max feat))
  /\ truncated (np_mean (map intensity M)) (avg_intensity feat).

End ObjectFeatures.

(** ** clustering.py *)

Module Clustering.
Import ObjectFeatures.

Section Clusterer.

(** [DBSCAN(eps, min_samples).fit(X).labels_] belongs to scikit-learn. *)
Variable DBSCAN_fit : Q -> Z -> list (Q * Q * Q) -> list Z.

(** [set(labels)] *)
Definition distinct (labels : list Z) : list Z := nodup Z.eq_dec labels.

(** [cluster_objects(points, eps, min_samples)] *)
Definition cluster_objects (points : ndarray point) (eps : Q)
           (min_samples : Z) : list Z * Z :=
  if Nat.eqb (shape0 points) 0 then ([], 0%Z)
  else
    let labels := DBSCAN_fit eps min_samples (map xyz (rows points)) in
    let n_clusters :=
      (Z.of_nat (List.length (distinct labels))
       - (if existsb (Z.eqb (-1)) labels then 1 else 0))%Z in
    (labels, n_clusters).

End Clusterer.

End Clustering.

(** ** Density-based clustering *)

Module DBSCAN.

(** The source hands the clustering to scikit-learn's [DBSCAN], which is
    not among the sources.  This module follows the algorithm of section 4.2
    of the specification instead. *)

(** The square of the Euclidean distance of two positions. *)
Definition dist2 (p q : Q * Q * Q) : Q :=
  let '(x1, y1, z1) := p in
  let '(x2, y2, z2) := q in
  (x1 - x2) * (x1 - x2) + (y1 - y2) * (y1 - y2) + (z1 - z2) * (z1 - z2).

(** [q] lies within [eps] of [p]; the Euclidean distance is compared on
    its square, for a radius that is not negative. *)
Definition within (eps : Q) (p q : Q * Q * Q) : bool :=
  Qle_bool (dist2 p q) (eps * eps).

(** Modelled from the spec: the core points of scikit-learn's [DBSCAN],
    which is not among the sources.  "A point is a core point if at least
    minPts points (including itself) lie within eps of it". *)
Definition is_core (eps : Q) (minPts : Z) (X : list (Q * Q * Q))
           (p : Q * Q * Q) : bool :=
  (minPts <=? Z.of_nat (List.length (filter (within eps p) X)))%Z.

(** A point during clustering: its position, whether it is a core point,
    and its label so far ([-1] until a cluster takes it). *)
Record entry : Type := mk_entry {
  pt : Q * Q * Q;
  core : bool;
  lab : Z
}.

(** Some core point of cluster [c] lies within [eps] of [p]. *)
Definition touches (eps : Q) (c : Z) (es : list entry) (p : Q * Q * Q) : bool :=
  existsb (fun e => (lab e =? c)%Z && core e && within eps (pt e) p) es.

(** Modelled from the spec: "any point reachable from some core point joins
    that core point's cluster".  One round gives label [c] to every point
    without a label that a core point of cluster [c] reaches directly; the
    rounds are repeated to follow chains of core points. *)
Definition grow (eps : Q) (c : Z) (es : list entry) : list entry :=
  map (fun e => if (lab e =? -1)%Z && touches eps c es (pt e)
                then mk_entry (pt e) (core e) c
                else e) es.

Fixpoint iterate {A : Type} (n : nat) (f : A -> A) (x : A) : A :=
  match n with
  | O => x
  | S n' => iterate n' f (f x)
  end.

(** The point at position [i] takes label [c]. *)
Fixpoint relabel (i : nat) (c : Z) (es : list entry) : list entry :=
  match es, i with
  | [], _ => []
  | e :: rest, O => mk_entry (pt e) (core e) c :: rest
  | e :: rest, S i' => e :: relabel i' c rest
  end.

(** Modelled from the spec: "label assignment order follows point traversal
    order".  The points are visited in input order; a core point that has no
    label yet starts the next cluster, which then grows as far as it
    reaches.  As many rounds as there are points exhaust every chain. *)
Definition visit (eps : Q) (acc : list entry * Z) (i : nat)
  : list entry * Z :=
  let '(es, label_num) := acc in
  match nth_error es i with
  | Some e =>
      if (lab e =? -1)%Z && core e
      then (iterate (List.length es) (grow eps label_num)
                    (relabel i label_num es),
            (label_num + 1)%Z)
      else acc
  | None => acc
  end.

Definition start (eps : Q) (minPts : Z) (X : list (Q * Q * Q)) : list entry :=
  map (fun p => mk_entry p (is_core eps minPts X p) (-1)) X.

Definition clusters (eps : Q) (minPts : Z) (X : list (Q * Q * Q))
  : list entry * Z :=
  fold_left (visit eps) (seq 0 (List.length X)) (start eps minPts X, 0%Z).

(** Modelled from the spec: [DBSCAN(eps, min_samples).fit(X).labels_] of
    scikit-learn, which is not among the sources.  Every point gets the
    number of its cluster, counted from 0 in the order the clusters are
    found, or [-1] when no cluster took it ("points reachable from no core
    point are labeled noise"). *)
Definition fit_labels (eps : Q) (min_samples : Z) (X : list (Q * Q * Q))
  : list Z :=
  map lab (fst (clusters eps min_samples X)).

(** *** What the clustering maintains *)

Section Invariants.

Variable eps : Q.
Variable minPts : Z.
Variable X : list (Q * Q * Q).

(** The entries are the points of [X] with their core flags, and every
    labelled point is a core point or within [eps] of a core point of its
    cluster. *)
Definition sound (es : list entry) : Prop :=
  map pt es = X
  /\ (forall e, In e es -> core e = is_core eps minPts X (pt e))
  /\ (forall e, In e es -> (0 <= lab e)%Z ->
                core e = true \/ touches eps (lab e) es (pt e) = true).

(** The labels in use are [-1] and the cluster numbers below [c]. *)
Definition ranged (c : Z) (es : list entry) : Prop :=
  forall e, In e es -> lab e = (-1)%Z \/ (0 <= lab e < c)%Z.

(** Every cluster number below [c] labels some core point. *)
Definition populated (c : Z) (es : list entry) : Prop :=
  forall l, (0 <= l < c)%Z -> exists e, In e es /\ lab e = l /\ core e = true.

(** What one step of cluster [c] may do to an entry: leave it, or label an
    unlabelled one that is a core point or touched by cluster [c]. *)
Definition advanced (c : Z) (es0 : list entry) (e e' : entry) : Prop :=
  pt e' = pt e /\ core e' = core e
  /\ (lab e' = lab e
      \/ (lab e = (-1)%Z /\ lab e' = c
          /\ (core e = true \/ touches eps c es0 (pt e) = true))).

Definition advances (c : Z) (es es' : list entry) : Prop :=
  Forall2 (advanced c es) es es'.

(** The state between two visits. *)
Definition invariant (acc : list entry * Z) : Prop :=
  (0 <= snd acc)%Z /\ sound (fst acc)
  /\ ranged (snd acc) (fst acc) /\ populated (snd acc) (fst acc).

(** The number of points without a label. *)
Definition unlabelled (es : list entry) : nat :=
  List.length (filter (fun e => (lab e =? -1)%Z) es).

(** An entry keeps its point and core flag, and keeps its label unless it
    had none and cluster [c] takes it. *)
Definition kept (c : Z) (e e' : entry) : Prop :=
  pt e' = pt e /\ core e' = core e
  /\ (lab e' = lab e \/ (lab e = (-1)%Z /\ lab e' = c)).

Definition extends (c : Z) (es es' : list entry) : Prop :=
  Forall2 (kept c) es es'.

(** Whatever a labelled core point reaches has a label. *)
Definition closed (es : list entry) : Prop :=
  forall e e', In e es -> In e' es -> core e = true -> (0 <= lab e)%Z ->
               within eps (pt e) (pt e') = true -> lab e' <> (-1)%Z.

(** The core points at the positions [done] have a label. *)
Definition visited (done : list nat) (es : list entry) : Prop :=
  forall i e, In i done -> nth_error es i = Some e -> core e = true ->
              lab e <> (-1)%Z.

End Invariants.

(** "At least minPts points (including itself) lie within eps of it." *)
Definition core_point (eps : Q) (minPts : Z) (X : list (Q * Q * Q))
           (p : Q * Q * Q) : Prop :=
  (minPts <= Z.of_nat (List.length
                         (filter (fun q => Qle_bool (dist2 p q) (eps * eps))
                                 X)))%Z.

End DBSCAN.

(** ** main.py: the processing loop *)

Module Main.
Import Feature Classifier Tracker GroundFilter ObjectFeatures Clustering.

Definition RANSAC_DISTANCE_THRESHOLD : Q := 0.2.
Definition DBSCAN_EPS : Q := 1.0.
Definition DBSCAN_MIN_SAMPLES : Z := 20.

(** The defaults of [filter_ground_ransac]. *)
Definition default_ransac_n : Z := 3.
Definition default_num_iterations : Z := 1000.

(** One entry of [output_data]. *)
Record output_record : Type := mk_output_record {
  out_object_id : Z;
  out_cluster_id : Z;
  out_class : string;
  out_num_points : Z;
  out_dimensions_m : Q * Q * Q;
  out_avg_intensity : Z
}.

(** [feat["class"] = ...] and [feat['object_id'] = ...] *)
Definition set_class (feat : feature) (c : string) : feature :=
  mk_feature (label feat) (num_points feat) (width feat) (length feat)
             (height feat) (avg_intensity feat) (bbox_min feat)
             (bbox_max feat) (Some c) (object_id feat).

Definition set_object_id (feat : feature) (i : Z) : feature :=
  mk_feature (label feat) (num_points feat) (width feat) (length feat)
             (height feat) (avg_intensity feat) (bbox_min feat)
             (bbox_max feat) (class feat) (Some i).

(** [feat["class"]]: a [KeyError] when the key is not in the dictionary. *)
Definition get_class (feat : feature) : result string :=
  match class feat with
  | Some c => Ok c
  | None => Raise KeyError
  end.

(** [feat["class"] != 'noise'] *)
Definition not_noise (feat : feature) : result bool :=
  c <- get_class feat ;;
  Ok (negb (String.eqb c "noise")).

(** [[min_x, min_y, w, h]] *)
Definition detection_of (feat : feature) : rect :=
  let '(min_x, min_y, _) := bbox_min feat in
  (min_x, min_y, width feat, length feat).

(** Lines 95 to 104: every feature is classified, and those that are not
    noise add a detection.  The result is the features as the loop leaves
    them and [detections_for_tracker]. *)
Fixpoint classify_features (features : list feature)
  : list feature * list rect :=
  match features with
  | [] => ([], [])
  | feat :: rest =>
      let c := classify_object_advanced feat in
      let feat := set_class feat c in
      let '(rest', detections_for_tracker) := classify_features rest in
      (feat :: rest',
       if negb (String.eqb c "noise")
       then detection_of feat :: detections_for_tracker
       else detections_for_tracker)
  end.

(** [abs(min_x - tx) < 0.1 and abs(min_y - ty) < 0.1] *)
Definition close_to (min_x min_y : Q) (tobj : tracked_object) : bool :=
  let '(tx, ty, _, _, _) := tobj in
  ltb (Qabs (min_x - tx)) 0.1 && ltb (Qabs (min_y - ty)) 0.1.

(** Lines 115 to 120: [for tobj in tracked_objects] with its [break]. *)
Fixpoint scan_tracked (min_x min_y : Q) (tracked_objects : list tracked_object)
         (feat : feature) : feature :=
  match tracked_objects with
  | [] => feat
  | tobj :: rest =>
      if close_to min_x min_y tobj
      then set_object_id feat (tracked_id tobj)
      else scan_tracked min_x min_y rest feat
  end.

(** Lines 111 to 120 for one feature. *)
Definition link_feature (tracked_objects : list tracked_object)
           (feat : feature) : result feature :=
  let feat := set_object_id feat (-1) in
  keep <- not_noise feat ;;
  if keep : bool
  then
    let '(min_x, min_y, _) := bbox_min feat in
    Ok (scan_tracked min_x min_y tracked_objects feat)
  else Ok feat.

(** Lines 110 to 120: [for feat in features]. *)
Fixpoint link_features (tracked_objects : list tracked_object)
         (features : list feature) : result (list feature) :=
  match features with
  | [] => Ok []
  | feat :: rest =>
      feat' <- link_feature tracked_objects feat ;;
      rest' <- link_features tracked_objects rest ;;
      Ok (feat' :: rest')
  end.

(** Lines 149 to 163: the records of the features that are not noise. *)
Definition record_of (feat : feature) (c : string) : output_record :=
  mk_output_record
    (match object_id feat with Some i => i | None => -1 end)
    (label feat)
    c
    (num_points feat)
    (width feat, length feat, height feat)
    (avg_intensity feat).

Fixpoint output_data (features : list feature) : result (list output_record) :=
  match features with
  | [] => Ok []
  | feat :: rest =>
      c <- get_class feat ;;
      records <- output_data rest ;;
      Ok (if negb (String.eqb c "noise")
          then record_of feat c :: records
          else records)
  end.

(** The linkage as the specification words it.  A tracked object is within
    tolerance of a feature when its x and y are both less than 0.1 away from
    the x and y of the feature's [bbox_min]. *)
Definition within_tolerance (feat : feature) (tobj : tracked_object) : Prop :=
  let '(min_x, min_y, _) := bbox_min feat in
  let '(tx, ty, _, _, _) := tobj in
  Qabs (min_x - tx) < 0.1 /\ Qabs (min_y - ty) < 0.1.

Inductive linked (tracked_objects : list tracked_object) (feat : feature)
  : feature -> Prop :=
| linked_noise :
    class feat = Some "noise"%string ->
    linked tracked_objects feat (set_object_id feat (-1))
| linked_first (before after : list tracked_object) (tobj : tracked_object) :
    class feat <> Some "noise"%string ->
    tracked_objects = before ++ tobj :: after ->
    (forall t, In t before -> ~ within_tolerance feat t) ->
    within_tolerance feat tobj ->
    linked tracked_objects feat (set_object_id feat (tracked_id tobj))
| linked_unresolved :
    class feat <> Some "noise"%string ->
    (forall t, In t tracked_objects -> ~ within_tolerance feat t) ->
    linked tracked_objects feat (set_object_id feat (-1)).

(** The outcome of the linkage for one feature: the linked feature, or
    [KeyError] for a feature that was never classified. *)
Definition linked_or_raised (tracked_objects : list tracked_object)
           (feat : feature) (r : result feature) : Prop :=
  match r with
  | Ok feat' => linked tracked_objects feat feat'
  | Raise e => e = KeyError /\ class feat = None
  end.

Section Pipeline.

Variable rng : Type.
Variable segment_plane :
  rng -> list (Q * Q * Q) -> Q -> Z -> Z -> list nat * rng.
Variable DBSCAN_fit : Q -> Z -> list (Q * Q * Q) -> list Z.

(** What the loop carries from frame to frame: the tracker and the state of
    the plane fit's random generator. *)
Definition state : Type := tracker * rng.

(** One round of the processing loop.  [frame] is what [read_lidar_csv]
    returned; the round yields the records it saves, or [None] when it ends
    in [continue] and saves nothing.  An exception ends the run. *)
Definition process_frame (st : state) (frame : option (ndarray point))
  : result (state * option (list output_record)) :=
  let '(tracker, g) := st in
  match frame with
  | None => Ok (st, None)
  | Some points_with_intensity =>
      let '(r, g) :=
        filter_ground_ransac xyz segment_plane g (Some points_with_intensity)
                             RANSAC_DISTANCE_THRESHOLD default_ransac_n
                             default_num_iterations in
      non_ground_points <- r ;;
      if Nat.eqb (shape0 non_ground_points) 0
      then Ok ((tracker, g), None)
      else
        let '(labels, n_clusters) :=
          cluster_objects DBSCAN_fit non_ground_points DBSCAN_EPS
                          DBSCAN_MIN_SAMPLES in
        if (0 <? n_clusters)%Z
        then
          features <- extract_features non_ground_points labels ;;
          let '(features, detections_for_tracker) :=
            classify_features features in
          let '(tracker, tracked_objects) :=
            update tracker detections_for_tracker default_dist_thresh in
          features <- link_features tracked_objects features ;;
          output_data <- output_data features ;;
          Ok ((tracker, g), Some output_data)
        else
          let '(tracker, _) := update tracker [] default_dist_thresh in
          output_data <- output_data [] ;;
          Ok ((tracker, g), Some output_data)
  end.

(** The loop over all frames, from the state [st]: the saved record lists
    with the number of their frame ([i + 1] in the file name). *)
Fixpoint process_frames (i : nat) (st : state)
         (frames : list (option (ndarray point)))
  : result (state * list (nat * list output_record)) :=
  match frames with
  | [] => Ok (st, [])
  | frame :: rest =>
      r <- process_frame st frame ;;
      let '(st', saved) := r in
      r' <- process_frames (S i) st' rest ;;
      let '(st'', outs) := r' in
      Ok (st'', match saved with
                | Some records => (S i, records) :: outs
                | None => outs
                end)
  end.

End Pipeline.

Section TwoRuns.

(** Two runs, each with its plane fit and generator; [related] ties the
    generator states of the two runs together.  The plane fits agree when,
    from related states, they return the same inliers and leave related
    states. *)
Variable rng1 rng2 : Type.
Variable segment_plane1 :
  rng1 -> list (Q * Q * Q) -> Q -> Z -> Z -> list nat * rng1.
Variable segment_plane2 :
  rng2 -> list (Q * Q * Q) -> Q -> Z -> Z -> list nat * rng2.
Variable DBSCAN_fit : Q -> Z -> list (Q * Q * Q) -> list Z.
Variable related : rng1 -> rng2 -> Prop.

Definition fits_agree : Prop :=
  forall g1 g2 X d n k,
    related g1 g2 ->
    fst (segment_plane1 g1 X d n k) = fst (segment_plane2 g2 X d n k)
    /\ related (snd (segment_plane1 g1 X d n k))
               (snd (segment_plane2 g2 X d n k)).

(** The two runs went the same way: the same exception, or the same
    tracker and the same value [a] with related generator states. *)
Definition same_outcome {A : Type}
           (r1 : result (tracker * rng1 * A))
           (r2 : result (tracker * rng2 * A)) : Prop :=
  match r1, r2 with
  | Ok (t1, g1, a1), Ok (t2, g2, a2) => t1 = t2 /\ a1 = a2 /\ related g1 g2
  | Raise e1, Raise e2 => e1 = e2
  | _, _ => False
  end.

End TwoRuns.

Arguments fits_agree {rng1 rng2} segment_plane1 segment_plane2 related.
Arguments same_outcome {rng1 rng2} related {A} r1 r2.

Arguments process_frame {rng} segment_plane DBSCAN_fit st frame.
Arguments process_frames {rng} segment_plane DBSCAN_fit i st frames.

End Main.

(** ** tracker.py: what a call of update keeps *)

Module TrackerView.
Import Tracker.

(** The detection [[x, y, w, h]] inside a tracked object. *)
Definition rect_of (o : tracked_object) : rect := fst o.

(** The square of [dist] in the inner loop: the distance of the centre of a
    detection from a stored centre [pt]. *)
Definition sq_dist (pt : Q * Q) (r : rect) : Q :=
  let '(cx, cy) := center r in hypot2 (cx - fst pt) (cy - snd pt).

(** [d.get(k)]: the value stored under [k], if any. *)
Fixpoint dict_get (k : Z) (d : dict) : option (Q * Q) :=
  match d with
  | [] => None
  | (k', v) :: rest => if (k' =? k)%Z then Some v else dict_get k rest
  end.

(** Every detection is either in the returned list so far or still
    unmatched. *)
Definition covers (rects : list rect) (st : frame_state) : Prop :=
  Permutation (map rect_of (tracked_objects st)
               ++ map (nth_rect rects) (unmatched_detections st))
              rects.

(** The stored ids are positive and were handed out by the counter. *)
Definition positive (t : tracker) : Prop :=
  (0 <= id_count t)%Z
  /\ forall k, In k (dict_keys (center_points t)) -> (1 <= k <= id_count t)%Z.

(** The centre stored under the id of every object returned so far is the
    centre of that object's detection. *)
Definition stored (st : frame_state) : Prop :=
  forall o, In o (tracked_objects st) ->
            dict_get (tracked_id o) (centers st) = Some (center (rect_of o)).

(** The list [update] returns when every detection becomes a new
    identity. *)
Definition all_new (idc : Z) (rects : list rect) : list tracked_object :=
  combine rects (fresh_ids idc (List.length rects)).

End TrackerView.

(** ** tracker.py: a scene that does not move *)

Module Stationary.
Import Tracker TrackerView.

(** Two detections have different centres. *)
Definition apart (r r' : rect) : Prop :=
  0 < sq_dist (center r) r' /\ 0 < sq_dist (center r') r.

(** The detections of a frame have pairwise different centres. *)
Definition distinct_centres (rects : list rect) : Prop :=
  ForallOrdPairs apart rects.

(** The item of an identity and the position of its detection. *)
Definition placed (rects : list rect) (d : dict) (item : Z * (Q * Q))
           (i : nat) : Prop :=
  (i < List.length rects)%nat
  /\ snd item = center (nth_rect rects i)
  /\ dict_get (fst item) d = Some (snd item).

End Stationary.

(** ** object_features.py: what every feature satisfies *)

Module FeatureView.
Import Feature ObjectFeatures.

(** A feature list counts this many points in all. *)
Definition total_points (features : list feature) : Z :=
  fold_right Z.add 0%Z (map num_points features).

(** The points that carry a cluster label. *)
Definition clustered (labels : list Z) : list Z :=
  filter (fun l => negb (l =? -1)%Z) labels.

(** What every extracted feature satisfies: it has a point; its extents
    are not negative; its box is not inverted; and each extent is the
    difference of the box corners up to one hundredth. *)
Definition axis_sane (extent lo hi : Q) : Prop :=
  0 <= extent /\ lo <= hi /\ Qabs (extent - (hi - lo)) <= 1 # 100.

Definition sane (feat : feature) : Prop :=
  (1 <= num_points feat)%Z
  /\ axis_sane (width feat)
               (fst (fst (bbox_min feat))) (fst (fst (bbox_max feat)))
  /\ axis_sane (length feat)
               (snd (fst (bbox_min feat))) (snd (fst (bbox_max feat)))
  /\ axis_sane (height feat) (snd (bbox_min feat)) (snd (bbox_max feat)).

End FeatureView.

(** ** main.py: the saved records *)

Module Records.
Import Feature Classifier Tracker ObjectFeatures Main.

(** The records [output_data] builds from features that all carry a
    class. *)
Definition records_of (features : list feature) : list output_record :=
  flat_map (fun feat =>
              match class feat with
              | Some c => if negb (String.eqb c "noise")
                          then [record_of feat c] else []
              | None => []
              end)
           features.

(** The classes a saved record can carry. *)
Definition saved_classes : list string :=
  ["pedestrian"; "cyclist"; "car"; "unknown"]%string.

(** What every saved record satisfies. *)
Definition well_formed (r : output_record) : Prop :=
  In (out_class r) saved_classes
  /\ (20 <= out_num_points r)%Z
  /\ (let '(w, l, h) := out_dimensions_m r in 0 <= w /\ 0 <= l /\ 0 <= h).

End Records.

(** ** analyze_results.py *)

Module AnalyzeResults.

(** One detection of a result file, as far as the script reads it: the
    keys ['object_id'] and ['class']; [None] stands for a key that the JSON
    object does not have. *)
Record detection : Type := mk_detection {
  det_object_id : option Z;
  det_class : option string
}.

(** [det.get('object_id', -1)] *)
Definition get_object_id (det : detection) : Z :=
  match det_object_id det with
  | Some i => i
  | None => -1
  end.

(** [collections.Counter]: a dictionary from items to counts, its keys in
    the order in which they were first counted. *)
Definition counter (A : Type) : Type := list (A * nat).

Fixpoint counter_add {A : Type} (eqb : A -> A -> bool) (x : A)
         (c : counter A) : counter A :=
  match c with
  | [] => [(x, 1%nat)]
  | (y, n) :: rest =>
      if eqb y x then (y, S n) :: rest else (y, n) :: counter_add eqb x rest
  end.

(** [Counter(l)] *)
Definition Counter {A : Type} (eqb : A -> A -> bool) (l : list A)
  : counter A :=
  fold_left (fun c x => counter_add eqb x c) l [].

(** [c[x]]: the count of [x], 0 for an item never counted. *)
Fixpoint counter_get {A : Type} (eqb : A -> A -> bool) (x : A)
         (c : counter A) : nat :=
  match c with
  | [] => 0%nat
  | (y, n) :: rest => if eqb y x then n else counter_get eqb x rest
  end.

(** [c.most_common(1)[0][0]].  For one item [most_common] takes [max] over
    the items by count, and [max] keeps the first of several greatest
    items; on an empty counter the list is empty and [[0]] raises. *)
Fixpoint first_max {A : Type} (best : A * nat) (items : counter A) : A * nat :=
  match items with
  | [] => best
  | item :: rest =>
      if (snd best <? snd item)%nat then first_max item rest
      else first_max best rest
  end.

Definition most_common_1 {A : Type} (c : counter A) : result A :=
  match c with
  | [] => Raise IndexError
  | item :: rest => Ok (fst (first_max item rest))
  end.

(** [object_id_to_classes]: a dictionary from object ids to the list of
    classes seen for them. *)
Definition classes_dict : Type := list (Z * list string).

(** Lines 36 to 38: [if obj_id not in d: d[obj_id] = []] and
    [d[obj_id].append(c)]. *)
Fixpoint append_class (obj_id : Z) (c : string) (d : classes_dict)
  : classes_dict :=
  match d with
  | [] => [(obj_id, [c])]
  | (k, l) :: rest =>
      if (k =? obj_id)%Z then (k, l ++ [c]) :: rest
      else (k, l) :: append_class obj_id c rest
  end.

(** Lines 33 to 38: the loop over all detections; [det['class']] raises
    [KeyError] when the key is missing. *)
Fixpoint collect_classes (d : classes_dict) (all_detections : list detection)
  : result classes_dict :=
  match all_detections with
  | [] => Ok d
  | det :: rest =>
      let obj_id := get_object_id det in
      if negb (obj_id =? -1)%Z
      then match det_class det with
           | Some c => collect_classes (append_class obj_id c d) rest
           | None => Raise KeyError
           end
      else collect_classes d rest
  end.

Definition object_id_to_classes (all_detections : list detection)
  : result classes_dict :=
  collect_classes [] all_detections.

(** [unique_objects_final_class[obj_id] = most_common_class] *)
Fixpoint final_set (k : Z) (v : string) (d : list (Z * string))
  : list (Z * string) :=
  match d with
  | [] => [(k, v)]
  | (k', v') :: rest =>
      if (k' =? k)%Z then (k, v) :: rest else (k', v') :: final_set k v rest
  end.

(** Lines 40 to 43. *)
Fixpoint final_classes (acc : list (Z * string)) (items : classes_dict)
  : result (list (Z * string)) :=
  match items with
  | [] => Ok acc
  | (obj_id, class_list) :: rest =>
      most_common_class <- most_common_1 (Counter String.eqb class_list) ;;
      final_classes (final_set obj_id most_common_class acc) rest
  end.

Definition unique_objects_final_class (d : classes_dict)
  : result (list (Z * string)) :=
  final_classes [] d.

(** Lines 45 to 50: what the bar chart shows, if it is drawn:
    [labels] and [counts]. *)
Definition bar_chart (final : list (Z * string))
  : option (list string * list nat) :=
  match final with
  | [] => None
  | _ =>
      let final_unique_counts := Counter String.eqb (map snd final) in
      Some (map fst final_unique_counts, map snd final_unique_counts)
  end.

(** Line 66: [valid_ids]. *)
Definition valid_ids (all_detections : list detection) : list Z :=
  map get_object_id
      (filter (fun det => negb (get_object_id det =? -1)%Z) all_detections).

(** Lines 67 to 69: what the histogram shows, if it is drawn:
    [durations]. *)
Definition durations (all_detections : list detection) : option (list nat) :=
  match valid_ids all_detections with
  | [] => None
  | ids => Some (map snd (Counter Z.eqb ids))
  end.

(** The classes seen for object [k], in the order of the detections. *)
Definition classes_of (k : Z) (all_detections : list detection)
  : list string :=
  flat_map (fun det =>
              if (get_object_id det =? k)%Z
              then match det_class det with Some c => [c] | None => [] end
              else [])
           all_detections.

(** A detection the first loop can take: it has no object id, or it has a
    class. *)
Definition readable (det : detection) : Prop :=
  get_object_id det = (-1)%Z \/ det_class det <> None.

Definition total (l : list nat) : nat := fold_right Nat.add 0%nat l.

(** [d.get(k, [])] on the dictionary of class lists. *)
Fixpoint classes_get (k : Z) (d : classes_dict) : list string :=
  match d with
  | [] => []
  | (k', l) :: rest => if (k' =? k)%Z then l else classes_get k rest
  end.

(** How often the class [c] occurs in a list of classes. *)
Definition times (c : string) (l : list string) : nat :=
  List.length (filter (fun x => String.eqb x c) l).

(** The distinct items of a list in the order of their first
    occurrence. *)
Definition first_seen {A : Type} (eqb : A -> A -> bool) (l : list A)
  : list A :=
  fold_left (fun seen x => if existsb (eqb x) seen then seen else seen ++ [x])
            l [].

(** The class chosen for an object with class list [l]: it occurs in [l],
    no class occurs more often, and every class first seen before it occurs
    less often. *)
Definition most_common_in (l : list string) (c : string) : Prop :=
  In c l
  /\ (forall c', (times c' l <= times c l)%nat)
  /\ exists before after,
       first_seen String.eqb l = before ++ c :: after
       /\ forall c', In c' before -> (times c' l < times c l)%nat.

End AnalyzeResults.

(** ** visualization.py: visualize_points *)

Module Visualization.
Import ObjectFeatures.

(** [np.round(x, 5)]: to the nearest multiple of 0.00001, the even one of
    two that are equally near. *)
Definition np_round5 (q : Q) : Q :=
  inject_Z (round_half_even (q * 100000)) / 100000.

(** One row of [np.round(xyz, 5)]. *)
Definition round_row (p : Q * Q * Q) : Q * Q * Q :=
  let '(x, y, z) := p in (np_round5 x, np_round5 y, np_round5 z).

(** Equality of two [tuple(row)]s of floats. *)
Definition row_eqb (p q : Q * Q * Q) : bool :=
  let '(x1, y1, z1) := p in
  let '(x2, y2, z2) := q in
  Qeq_bool x1 x2 && Qeq_bool y1 y2 && Qeq_bool z1 z2.

(** Lines 22 to 23: [non_ground_set] and [ground_mask].  Of the set only
    membership is asked. *)
Definition ground_mask (original_xyz non_ground_xyz : list (Q * Q * Q))
  : list bool :=
  let non_ground_set := map round_row non_ground_xyz in
  map (fun row => negb (existsb (row_eqb (round_row row)) non_ground_set))
      original_xyz.

(** Line 24: [ground_xyz = original_xyz[ground_mask]], the points painted
    gray. *)
Definition ground_xyz (original non_ground : ndarray point)
  : result (list (Q * Q * Q)) :=
  let original_xyz := map xyz (rows original) in
  let non_ground_xyz := map xyz (rows non_ground) in
  mask_rows (ground_mask original_xyz non_ground_xyz) original_xyz.

(** Row [p] is hidden by row [q]: both round to the same position. *)
Definition same_position (p q : point) : Prop :=
  row_eqb (round_row (xyz p)) (round_row (xyz q)) = true.

End Visualization.

(** ** Frames and generator states for concrete runs *)

Module Examples.

(** A frame of two points. *)
Definition sparse_frame : ndarray ObjectFeatures.point :=
  mk_ndarray 4 [ObjectFeatures.mk_point 0 0 0 10;
                ObjectFeatures.mk_point 1 1 1 12].

(** A frame of four points on the floor and one point above it, and a
    generator that deals the first three points. *)
Definition small_frame : ndarray ObjectFeatures.point :=
  mk_ndarray 4 [ObjectFeatures.mk_point 0 0 0 10;
                ObjectFeatures.mk_point 1 0 0 11;
                ObjectFeatures.mk_point 0 1 0 12;
                ObjectFeatures.mk_point 1 1 0 13;
                ObjectFeatures.mk_point 0.5 0.5 2 40].

Definition floor_only : RANSAC.generator :=
  RANSAC.mk_generator [(0, 1, 2)]%nat 0.

(** A frame of two patches of twenty points each, 0.1 apart from point to
    point: a floor patch in the plane z = 0 and a wall patch in the plane
    x = 10.  The floor points come first. *)
Definition tenth (i : nat) : Q := inject_Z (Z.of_nat i) / 10.

Definition floor_patch : list ObjectFeatures.point :=
  flat_map (fun i => map (fun j => ObjectFeatures.mk_point
                                     (tenth i) (tenth j) 0 10)
                         (seq 0 4))
           (seq 0 5).

Definition wall_patch : list ObjectFeatures.point :=
  flat_map (fun i => map (fun j => ObjectFeatures.mk_point
                                     10 (tenth i) (1 + tenth j) 30)
                         (seq 0 4))
           (seq 0 5).

Definition two_planes_frame : ndarray ObjectFeatures.point :=
  mk_ndarray 4 (floor_patch ++ wall_patch).

(** Two states of the generator: both deal a sample of three floor points
    and a sample of three wall points in turn; the first starts with the
    floor, the second with the wall. *)
Definition floor_first : RANSAC.generator :=
  RANSAC.mk_generator [(0, 1, 4); (20, 21, 24)]%nat 0.

Definition wall_first : RANSAC.generator :=
  RANSAC.mk_generator [(20, 21, 24); (0, 1, 4)]%nat 0.

End Examples.

(** * Theorems *)

(** ** Comparisons *)

Lemma ltb_lt (a b : Q) : ltb a b = true <-> a < b.
Proof. unfold ltb, Qlt. apply Z.ltb_lt. Qed.

Lemma ltb_ge (a b : Q) : ltb a b = false <-> b <= a.
Proof. unfold ltb, Qle. apply Z.ltb_ge. Qed.

Lemma ltb_spec (a b : Q) : reflect (a < b) (ltb a b).
Proof. apply iff_reflect. symmetry. apply ltb_lt. Qed.

#[export] Instance ltb_comp : Proper (Qeq ==> Qeq ==> eq) ltb.
Proof.
  intros a a' Ha b b' Hb.
  destruct (ltb a b) eqn:E, (ltb a' b') eqn:E'; try reflexivity.
  - apply ltb_lt in E. apply ltb_ge in E'. rewrite Ha, Hb in E. lra.
  - apply ltb_ge in E. apply ltb_lt in E'. rewrite Ha, Hb in E. lra.
Qed.

#[export] Instance gtb_comp : Proper (Qeq ==> Qeq ==> eq) gtb.
Proof. intros a a' Ha b b' Hb. unfold gtb. now rewrite Ha, Hb. Qed.

(** ** The classifier *)

Section ClassifierFacts.
Import Feature Classifier.

Lemma sorted_pair (a b : Q) :
  sorted [a; b] = if ltb b a then [b; a] else [a; b].
Proof. reflexivity. Qed.

Lemma sorted_pair_min (a b : Q) : nth 0 (sorted [a; b]) 0 == Qmin a b.
Proof.
  rewrite sorted_pair. destruct (ltb_spec b a) as [H|H]; simpl.
  - symmetry. apply Q.min_r. lra.
  - symmetry. apply Q.min_l. lra.
Qed.

Lemma sorted_pair_max (a b : Q) : nth 1 (sorted [a; b]) 0 == Qmax a b.
Proof.
  rewrite sorted_pair. destruct (ltb_spec b a) as [H|H]; simpl.
  - symmetry. apply Q.max_l. lra.
  - symmetry. apply Q.max_r. lra.
Qed.

#[local] Instance decide_comp :
  Proper (eq ==> Qeq ==> Qeq ==> Qeq ==> eq) decide.
Proof.
  intros n n' <- w w' Hw l l' Hl h h' Hh. unfold decide, gtb.
  assert (Lw : forall c, ltb w c = ltb w' c) by (intro c; now rewrite Hw).
  assert (Gw : forall c, ltb c w = ltb c w') by (intro c; now rewrite Hw).
  assert (Ll : forall c, ltb l c = ltb l' c) by (intro c; now rewrite Hl).
  assert (Gl : forall c, ltb c l = ltb c l') by (intro c; now rewrite Hl).
  assert (Lh : forall c, ltb h c = ltb h' c) by (intro c; now rewrite Hh).
  assert (Gh : forall c, ltb c h = ltb c h') by (intro c; now rewrite Hh).
  now rewrite !Lw, !Gw, !Ll, !Gl, !Lh, !Gh.
Qed.

Lemma classify_decide (f : feature) :
  classify_object_advanced f =
  decide (num_points f) (smaller_extent f) (larger_extent f) (height f).
Proof.
  unfold classify_object_advanced, smaller_extent, larger_extent.
  change (decide (num_points f) (nth 0 (sorted [width f; length f]) 0)
                 (nth 1 (sorted [width f; length f]) 0) (height f) =
          decide (num_points f) (Qmin (width f) (length f))
                 (Qmax (width f) (length f)) (height f)).
  now rewrite sorted_pair_min, sorted_pair_max.
Qed.

Lemma noise_rule_iff (f : feature) :
  noise_rule f <->
  (num_points f <? 20)%Z
  || (ltb (larger_extent f) 0.2 && ltb (smaller_extent f) 0.2
      && ltb (height f) 0.2) = true.
Proof.
  unfold noise_rule.
  rewrite orb_true_iff, !andb_true_iff, Z.ltb_lt, !ltb_lt. tauto.
Qed.

Lemma slim_rule_iff (f : feature) :
  slim_rule f <->
  gtb (height f) 1.0 && ltb (larger_extent f) 1.5
  && ltb (smaller_extent f) 1.5 = true.
Proof.
  unfold slim_rule, gtb. rewrite !andb_true_iff, !ltb_lt. tauto.
Qed.

Lemma car_rule_iff (f : feature) :
  car_rule f <->
  gtb (larger_extent f) 1.5 && gtb (smaller_extent f) 1.0
  && gtb (height f) 0.8 && ltb (height f) 3.0 = true.
Proof.
  unfold car_rule, gtb. rewrite !andb_true_iff, !ltb_lt. tauto.
Qed.

Lemma verdict_classify (f : feature) : verdict f (classify_object_advanced f).
Proof.
  rewrite classify_decide. unfold decide.
  destruct (_ || _) eqn:N.
  { apply V_noise, noise_rule_iff, N. }
  assert (HN : ~ noise_rule f) by (rewrite noise_rule_iff, N; discriminate).
  destruct (gtb (height f) 1.0 && _ && _) eqn:S.
  { apply slim_rule_iff in S.
    destruct (gtb (larger_extent f) 1.0) eqn:L.
    - apply V_cyclist; auto. now apply ltb_lt in L.
    - apply V_pedestrian; auto. apply ltb_ge in L. lra. }
  assert (HS : ~ slim_rule f) by (rewrite slim_rule_iff, S; discriminate).
  destruct (gtb (larger_extent f) 1.5 && _ && _ && _) eqn:C.
  - apply V_car; auto. now apply car_rule_iff.
  - apply V_unknown; auto. rewrite car_rule_iff, C. discriminate.
Qed.

Lemma verdict_functional (f : feature) (s t : string) :
  verdict f s -> verdict f t -> s = t.
Proof. intros Hs Ht. destruct Hs; destruct Ht; tauto. Qed.

Lemma decide_labels n w l h : In (decide n w l h) labels.
Proof.
  unfold decide, labels.
  repeat match goal with |- context [if ?b then _ else _] => destruct b end;
    simpl; tauto.
Qed.

(** C1.  [classify_object_advanced] first orders the two horizontal
    extents (the smaller one is the width, the larger one the length) and
    then returns the label of the first matching rule of the table noise,
    cyclist/pedestrian, car, unknown.  That label is the only one the table
    allows, it is one of the five labels, and it does not change when the
    width and length inputs are exchanged. *)
Theorem classify_object_advanced_first_match (f : feature) :
  let dims := sorted [width f; length f] in
  nth 0 dims 0 == Qmin (width f) (length f)
  /\ nth 1 dims 0 == Qmax (width f) (length f)
  /\ verdict f (classify_object_advanced f)
  /\ (forall s, verdict f s -> s = classify_object_advanced f)
  /\ In (classify_object_advanced f) labels
  /\ classify_object_advanced (swap_extents f) = classify_object_advanced f.
Proof.
  cbv zeta. split; [apply sorted_pair_min|].
  split; [apply sorted_pair_max|].
  split; [apply verdict_classify|].
  split; [intros s Hs; exact (verdict_functional f _ _ Hs (verdict_classify f))|].
  split; [rewrite classify_decide; apply decide_labels|].
  rewrite !classify_decide. unfold smaller_extent, larger_extent. simpl.
  now rewrite (Q.min_comm (length f)), (Q.max_comm (length f)).
Qed.

(** The five sample classifications of the specification. *)
Example classify_samples :
  map classify_object_advanced
      [mk_feature 0 5 0.1 0.1 0.1 0 (0, 0, 0) (0, 0, 0) None None;
       mk_feature 0 50 0.5 0.6 1.7 0 (0, 0, 0) (0, 0, 0) None None;
       mk_feature 0 50 0.5 1.3 1.8 0 (0, 0, 0) (0, 0, 0) None None;
       mk_feature 0 100 1.8 4.0 1.5 0 (0, 0, 0) (0, 0, 0) None None;
       mk_feature 0 80 0.05 3.0 0.05 0 (0, 0, 0) (0, 0, 0) None None]
  = ["noise"; "pedestrian"; "cyclist"; "car"; "unknown"]%string.
Proof. reflexivity. Qed.

End ClassifierFacts.

(** ** The tracker *)

Section TrackerFacts.
Import Tracker.

(** *** Dictionaries *)

Lemma dict_keys_set (k : Z) (v : Q * Q) (d : dict) (k' : Z) :
  In k' (dict_keys (dict_set k v d)) <-> k' = k \/ In k' (dict_keys d).
Proof.
  induction d as [|[k0 v0] d IH]; simpl.
  - intuition congruence.
  - destruct (Z.eqb_spec k0 k) as [->|Hne]; simpl.
    + intuition congruence.
    + unfold dict_keys in IH. rewrite IH. intuition congruence.
Qed.

Lemma dict_set_present (k : Z) (v : Q * Q) (d : dict) :
  In k (dict_keys d) -> dict_keys (dict_set k v d) = dict_keys d.
Proof.
  induction d as [|[k0 v0] d IH]; simpl; [tauto|].
  intros H. destruct (Z.eqb_spec k0 k) as [->|Hne]; simpl; [reflexivity|].
  f_equal. apply IH. destruct H; congruence.
Qed.

Lemma dict_set_absent (k : Z) (v : Q * Q) (d : dict) :
  ~ In k (dict_keys d) -> dict_set k v d = d ++ [(k, v)].
Proof.
  induction d as [|[k0 v0] d IH]; simpl; [reflexivity|].
  intros H. destruct (Z.eqb_spec k0 k) as [->|Hne]; [tauto|].
  f_equal. apply IH. tauto.
Qed.

Lemma dict_keys_filter (p : Z -> bool) (d : dict) (k : Z) :
  In k (dict_keys (filter (fun item => p (fst item)) d)) <->
  In k (dict_keys d) /\ p k = true.
Proof.
  unfold dict_keys. rewrite !in_map_iff. split.
  - intros [[k0 v] [<- H]]. apply filter_In in H. simpl in *.
    split; [exists (k0, v)|]; tauto.
  - intros [[[k0 v] [<- H]] Hp]. exists (k0, v). simpl in *.
    rewrite filter_In. tauto.
Qed.

Lemma existsb_eqb (k : Z) (l : list Z) :
  existsb (Z.eqb k) l = true <-> In k l.
Proof.
  rewrite existsb_exists. split.
  - intros [x [H E]]. apply Z.eqb_eq in E. now subst.
  - intros H. exists k. split; [assumption|apply Z.eqb_refl].
Qed.

(** *** The two loops of [update] *)

Lemma match_phase_fold (rects : list rect) (thr : Q) (t : tracker) :
  match_phase rects thr t =
  fold_left (match_identity rects thr) (center_points t)
            (mk_frame_state (center_points t) []
                            (seq 0 (List.length rects))).
Proof. unfold match_phase. now destruct (center_points t). Qed.

Lemma match_identity_spec (rects : list rect) (thr : Q) (st : frame_state)
      (item : Z * (Q * Q)) :
  In (fst item) (dict_keys (centers st)) ->
  let st' := match_identity rects thr st item in
  dict_keys (centers st') = dict_keys (centers st)
  /\ exists T, tracked_objects st' = tracked_objects st ++ T
               /\ forall o, In o T -> tracked_id o = fst item.
Proof.
  destruct item as [obj_id pt]. simpl. intros Hin.
  unfold match_identity.
  destruct (fst (closest rects pt (unmatched_detections st) None
                         (thresh2 thr))) as [best|].
  - destruct (nth_rect rects best) as [[[x y] w] h]. simpl. split.
    + now apply dict_set_present.
    + eexists. split; [reflexivity|].
      intros o [<-|[]]. reflexivity.
  - split; [reflexivity|]. exists []. rewrite app_nil_r. split; [reflexivity|].
    intros o [].
Qed.

Lemma match_fold_spec (rects : list rect) (thr : Q) (items : dict) :
  forall st : frame_state,
    (forall k, In k (dict_keys items) -> In k (dict_keys (centers st))) ->
    let st' := fold_left (match_identity rects thr) items st in
    dict_keys (centers st') = dict_keys (centers st)
    /\ exists T, tracked_objects st' = tracked_objects st ++ T
                 /\ forall o, In o T -> In (tracked_id o) (dict_keys items).
Proof.
  induction items as [|item items IH]; intros st Hk; simpl.
  - split; [reflexivity|]. exists []. rewrite app_nil_r.
    split; [reflexivity|]. intros o [].
  - destruct (match_identity_spec rects thr st item) as [K [T1 [E1 H1]]].
    { apply Hk. now left. }
    destruct (IH (match_identity rects thr st item)) as [K' [T2 [E2 H2]]].
    { intros k Hin. rewrite K. apply Hk. now right. }
    split; [congruence|].
    exists (T1 ++ T2). rewrite E2, E1, app_assoc. split; [reflexivity|].
    intros o Ho. apply in_app_or in Ho as [Ho|Ho]; [left|right]; auto.
    symmetry. auto.
Qed.

Lemma fresh_ids_S (idc : Z) (n : nat) :
  fresh_ids idc (S n) = (idc + 1)%Z :: fresh_ids (idc + 1) n.
Proof.
  unfold fresh_ids. simpl. f_equal; [lia|].
  rewrite <- seq_shift, map_map. apply map_ext. intros i. lia.
Qed.

Lemma fresh_ids_app (idc : Z) (n m : nat) :
  fresh_ids idc (n + m) =
  fresh_ids idc n ++ fresh_ids (idc + Z.of_nat n) m.
Proof.
  revert idc. induction n as [|n IH]; intros idc.
  - simpl. now rewrite Z.add_0_r.
  - change (S n + m)%nat with (S (n + m)). rewrite !fresh_ids_S, IH. simpl.
    do 3 f_equal. lia.
Qed.

Lemma fresh_ids_bounds (idc : Z) (n : nat) (k : Z) :
  In k (fresh_ids idc n) <-> (idc < k <= idc + Z.of_nat n)%Z.
Proof.
  unfold fresh_ids. rewrite in_map_iff. split.
  - intros [i [<- Hi]]. apply in_seq in Hi. lia.
  - intros H. exists (Z.to_nat (k - idc - 1)). rewrite in_seq. lia.
Qed.

Lemma fresh_ids_sorted (idc : Z) (n : nat) :
  StronglySorted Z.lt (fresh_ids idc n).
Proof.
  revert idc. induction n as [|n IH]; intros idc.
  - constructor.
  - rewrite fresh_ids_S. constructor; [apply IH|].
    apply Forall_forall. intros k Hk. apply fresh_ids_bounds in Hk. lia.
Qed.

Lemma spawn_fold_spec (rects : list rect) (u : list nat) :
  forall (st : frame_state) (idc : Z),
    let r := fold_left (spawn_identity rects) u (st, idc) in
    snd r = (idc + Z.of_nat (List.length u))%Z
    /\ exists T, tracked_objects (fst r) = tracked_objects st ++ T
                 /\ map tracked_id T = fresh_ids idc (List.length u)
                 /\ forall k, In k (dict_keys (centers (fst r))) <->
                              In k (dict_keys (centers st))
                              \/ In k (map tracked_id T).
Proof.
  induction u as [|i u IH]; intros st idc; simpl.
  - split; [lia|]. exists []. rewrite app_nil_r. simpl. tauto.
  - destruct (nth_rect rects i) as [[[x y] w] h] eqn:E.
    destruct (IH (mk_frame_state
                    (dict_set (idc + 1) (x + w / 2, y + h / 2) (centers st))
                    (tracked_objects st ++ [(x, y, w, h, (idc + 1)%Z)])
                    (unmatched_detections st)) (idc + 1)%Z)
      as [Hc [T [ET [HT HK]]]].
    simpl in Hc, ET, HK.
    split; [rewrite Hc; lia|].
    exists ((x, y, w, h, (idc + 1)%Z) :: T).
    rewrite ET. simpl. rewrite <- app_assoc. split; [reflexivity|].
    split.
    + rewrite fresh_ids_S. simpl. now rewrite HT.
    + intros k. rewrite HK, dict_keys_set.
      unfold tracked_id at 2. simpl. intuition congruence.
Qed.

(** *** One call of [update] *)

(** The returned list is the matched objects followed by the spawned ones;
    matched ids are ids of the state before the call, spawned ids are the
    next values of the counter, and the state after the call holds exactly
    the returned ids. *)
Lemma update_spec (t : tracker) (rects : list rect) (thr : Q) :
  exists M : list tracked_object,
    snd (update t rects thr) = M ++ spawned t rects thr
    /\ (forall o, In o M ->
                  In (tracked_id o) (dict_keys (center_points t)))
    /\ map tracked_id (spawned t rects thr) =
       fresh_ids (id_count t) (List.length (spawned t rects thr))
    /\ id_count (fst (update t rects thr)) =
       (id_count t + Z.of_nat (List.length (spawned t rects thr)))%Z
    /\ forall k, In k (dict_keys (center_points (fst (update t rects thr))))
                 <-> In k (map tracked_id (snd (update t rects thr))).
Proof.
  unfold update, spawned, spawn_phase.
  rewrite match_phase_fold.
  set (st0 := mk_frame_state (center_points t) [] _).
  destruct (match_fold_spec rects thr (center_points t) st0)
    as [K [M [EM HM]]]; [tauto|].
  set (st1 := fold_left (match_identity rects thr) (center_points t) st0) in *.
  destruct (spawn_fold_spec rects (unmatched_detections st1) st1 (id_count t))
    as [Hc [S [ES [HS HK]]]].
  destruct (fold_left (spawn_identity rects) (unmatched_detections st1)
                      (st1, id_count t)) as [st2 idc] eqn:E2.
  simpl in *. subst idc.
  assert (EL : List.length S = List.length (unmatched_detections st1)).
  { rewrite <- (length_map tracked_id S), HS. unfold fresh_ids.
    now rewrite length_map, length_seq. }
  assert (ES' : skipn (List.length (tracked_objects st1)) (tracked_objects st2)
                = S).
  { rewrite ES, skipn_app, skipn_all, Nat.sub_diag. reflexivity. }
  rewrite ES'. exists M. rewrite ES, EM. simpl.
  split; [reflexivity|]. split; [exact HM|].
  split; [now rewrite EL|]. split; [now rewrite EL|].
  intros k.
  rewrite (dict_keys_filter
             (fun k => existsb (Z.eqb k) (map tracked_id (M ++ S)))).
  rewrite existsb_eqb, HK, K. subst st0. simpl.
  rewrite map_app, in_app_iff. split; [tauto|].
  intros [H|H]; [|tauto]. apply in_map_iff in H as [o [<- Ho]].
  split; [left; auto|left]. now apply in_map.
Qed.

(** *** Runs *)

Lemma bounded_init : bounded init.
Proof. intros k []. Qed.

Lemma update_ids_bounded (t : tracker) (rects : list rect) (thr : Q) :
  bounded t ->
  forall o, In o (snd (update t rects thr)) ->
            (tracked_id o <= id_count (fst (update t rects thr)))%Z.
Proof.
  intros B o Ho.
  destruct (update_spec t rects thr) as [M [E [HM [HS [Hc _]]]]].
  rewrite E in Ho. rewrite Hc. apply in_app_or in Ho as [Ho|Ho].
  - apply HM, B in Ho. lia.
  - apply (in_map tracked_id) in Ho. rewrite HS in Ho.
    apply fresh_ids_bounds in Ho. lia.
Qed.

Lemma update_bounded (t : tracker) (rects : list rect) (thr : Q) :
  bounded t -> bounded (fst (update t rects thr)).
Proof.
  intros B k Hk.
  destruct (update_spec t rects thr) as [M [E [HM [HS [Hc HK]]]]].
  apply HK, in_map_iff in Hk as [o [<- Ho]].
  now apply update_ids_bounded.
Qed.

Lemma update_count_mono (t : tracker) (rects : list rect) (thr : Q) :
  (id_count t <= id_count (fst (update t rects thr)))%Z.
Proof.
  destruct (update_spec t rects thr) as [M [E [HM [HS [Hc HK]]]]]. lia.
Qed.

Lemma run_cons (t : tracker) (rects : list rect) (thr : Q)
      (calls : list (list rect * Q)) :
  run t ((rects, thr) :: calls) =
  (fst (run (fst (update t rects thr)) calls),
   snd (update t rects thr) :: snd (run (fst (update t rects thr)) calls)).
Proof.
  simpl. destruct (update t rects thr) as [t' out]. simpl.
  now destruct (run t' calls).
Qed.

Lemma run_bounded (calls : list (list rect * Q)) :
  forall t : tracker,
    bounded t ->
    bounded (fst (run t calls))
    /\ (id_count t <= id_count (fst (run t calls)))%Z
    /\ forall out o, In out (snd (run t calls)) -> In o out ->
                     (tracked_id o <= id_count (fst (run t calls)))%Z.
Proof.
  induction calls as [|[rects thr] calls IH]; intros t B.
  - simpl. split; [assumption|]. split; [lia|]. intros out o [].
  - rewrite run_cons. simpl.
    destruct (IH _ (update_bounded t rects thr B)) as [B' [Hc Ho]].
    pose proof (update_count_mono t rects thr).
    split; [assumption|]. split; [lia|].
    intros out o [<-|Hin] Hino.
    + pose proof (update_ids_bounded t rects thr B o Hino). lia.
    + eauto.
Qed.

Lemma spawned_ids_fresh (calls : list (list rect * Q)) :
  forall t : tracker,
    exists n : nat,
      spawned_ids t calls = fresh_ids (id_count t) n
      /\ id_count (fst (run t calls)) = (id_count t + Z.of_nat n)%Z.
Proof.
  induction calls as [|[rects thr] calls IH]; intros t.
  - exists 0%nat. simpl. split; [reflexivity|lia].
  - destruct (update_spec t rects thr) as [M [E [HM [HS [Hc HK]]]]].
    destruct (IH (fst (update t rects thr))) as [n [En Hn]].
    exists (List.length (spawned t rects thr) + n)%nat.
    rewrite run_cons. simpl. rewrite En, HS, Hc, Hn, fresh_ids_app.
    split; [reflexivity|lia].
Qed.

Lemma run_fresh_ids (t : tracker) (calls : list (list rect * Q)) :
  bounded t ->
  forall out o, In out (snd (run t calls)) -> In o out ->
                In (tracked_id o) (dict_keys (center_points t))
                \/ (id_count t < tracked_id o)%Z.
Proof.
  revert t. induction calls as [|[rects thr] calls IH]; intros t B out o.
  - intros [].
  - rewrite run_cons. simpl.
    destruct (update_spec t rects thr) as [M [E [HM [HS [Hc HK]]]]].
    intros [<-|Hin] Ho.
    + rewrite E in Ho. apply in_app_or in Ho as [Ho|Ho]; [left; auto|right].
      apply (in_map tracked_id) in Ho. rewrite HS in Ho.
      apply fresh_ids_bounds in Ho. lia.
    + destruct (IH _ (update_bounded t rects thr B) out o Hin Ho) as [H|H].
      * apply HK, in_map_iff in H as [o' [Eo Ho']]. rewrite <- Eo.
        rewrite E in Ho'. apply in_app_or in Ho' as [Ho'|Ho']; [left; auto|].
        right. apply (in_map tracked_id) in Ho'. rewrite HS in Ho'.
        apply fresh_ids_bounds in Ho'. lia.
      * right. pose proof (update_count_mono t rects thr). lia.
Qed.

(** *** The dictionary keeps one entry per id *)

Lemma spawn_fold_keys (rects : list rect) (u : list nat) :
  forall (st : frame_state) (idc : Z),
    (forall k, In k (dict_keys (centers st)) -> (k <= idc)%Z) ->
    dict_keys (centers (fst (fold_left (spawn_identity rects) u (st, idc))))
    = dict_keys (centers st) ++ fresh_ids idc (List.length u).
Proof.
  induction u as [|i u IH]; intros st idc B.
  - simpl. now rewrite app_nil_r.
  - cbn [fold_left List.length]. unfold spawn_identity at 2.
    destruct (nth_rect rects i) as [[[x y] w] h]. cbn [center].
    rewrite IH; cbn [centers].
    + rewrite dict_set_absent by (intros Hin; apply B in Hin; lia).
      unfold dict_keys. rewrite map_app, <- app_assoc, fresh_ids_S.
      reflexivity.
    + intros k Hk. apply dict_keys_set in Hk as [->|Hk]; [lia|].
      apply B in Hk. lia.
Qed.

Lemma dict_keys_filter_eq (p : Z -> bool) (d : dict) :
  dict_keys (filter (fun item => p (fst item)) d) = filter p (dict_keys d).
Proof.
  induction d as [|[k v] d IH]; simpl; [reflexivity|].
  destruct (p k); simpl; now rewrite IH.
Qed.

Lemma update_NoDup (t : tracker) (rects : list rect) (thr : Q) :
  bounded t -> NoDup (dict_keys (center_points t)) ->
  NoDup (dict_keys (center_points (fst (update t rects thr)))).
Proof.
  intros B N. unfold update, spawn_phase. rewrite match_phase_fold.
  set (st0 := mk_frame_state (center_points t) [] _).
  destruct (match_fold_spec rects thr (center_points t) st0)
    as [K _]; [tauto|].
  set (st1 := fold_left (match_identity rects thr) (center_points t) st0) in *.
  pose proof (spawn_fold_keys rects (unmatched_detections st1) st1
                              (id_count t)) as HK.
  destruct (fold_left (spawn_identity rects) (unmatched_detections st1)
                      (st1, id_count t)) as [st2 idc].
  cbn [fst center_points] in *.
  rewrite (dict_keys_filter_eq
             (fun k => existsb (Z.eqb k)
                               (map tracked_id (tracked_objects st2)))).
  apply NoDup_filter. rewrite HK by (rewrite K; exact B). rewrite K.
  apply NoDup_app; [exact N| |].
  - unfold fresh_ids. apply Injective_map_NoDup; [|apply seq_NoDup].
    intros a b Hab. lia.
  - intros k Hk Hf. apply B in Hk. apply fresh_ids_bounds in Hf. lia.
Qed.

Lemma run_NoDup (calls : list (list rect * Q)) :
  forall t : tracker,
    bounded t -> NoDup (dict_keys (center_points t)) ->
    NoDup (dict_keys (center_points (fst (run t calls)))).
Proof.
  induction calls as [|[rects thr] calls IH]; intros t B N; [exact N|].
  rewrite run_cons. simpl.
  apply IH; [now apply update_bounded|now apply update_NoDup].
Qed.

(** C2.  On a fresh tracker, [update([[0,0,2,2]])] returns [[[0,0,2,2,1]]]
    and stores the centroid (1,1) under id 1.  Then
    [update([[0.2,0.1,2,2]])] returns [[[0.2,0.1,2,2,1]]] and moves the
    centroid of id 1 to (1.2,1.1): the centroid distance, between 0.22 and
    0.23, is strictly below the default threshold 5.0.  Then [update([])]
    returns the empty list and leaves the centroid map empty; whatever
    calls follow, no returned object carries id 1 again. *)
Theorem update_three_frames :
  let r1 := update init [(0, 0, 2, 2)] default_dist_thresh in
  let r2 := update (fst r1) [(0.2, 0.1, 2, 2)] default_dist_thresh in
  let r3 := update (fst r2) [] default_dist_thresh in
  snd r1 = [(0, 0, 2, 2, 1%Z)]
  /\ (exists cx cy, center_points (fst r1) = [(1%Z, (cx, cy))]
                    /\ cx == 1 /\ cy == 1)
  /\ snd r2 = [(0.2, 0.1, 2, 2, 1%Z)]
  /\ (exists cx cy, center_points (fst r2) = [(1%Z, (cx, cy))]
                    /\ cx == 1.2 /\ cy == 1.1)
  /\ (let d2 := hypot2 (1.2 - 1) (1.1 - 1) in
      0.22 * 0.22 < d2 /\ d2 < 0.23 * 0.23
      /\ ltb d2 (thresh2 default_dist_thresh) = true)
  /\ snd r3 = []
  /\ center_points (fst r3) = []
  /\ forall calls out o,
       In out (snd (run (fst r3) calls)) -> In o out -> tracked_id o <> 1%Z.
Proof.
  cbv zeta.
  split; [reflexivity|].
  split; [eexists; eexists; split; [reflexivity|split; reflexivity]|].
  split; [reflexivity|].
  split; [eexists; eexists; split; [reflexivity|split; reflexivity]|].
  split; [repeat split|].
  split; [reflexivity|].
  split; [reflexivity|].
  intros calls out o Hout Ho.
  set (t3 := fst (update _ [] default_dist_thresh)) in *.
  assert (B : bounded t3) by (intros k []).
  destruct (run_fresh_ids t3 calls B out o Hout Ho) as [[]|H].
  change (id_count t3) with 1%Z in H. lia.
Qed.

(** C3.  Take any sequence of [update] calls on a fresh tracker, followed
    by one more call.  (i) The ids given to new identities over the whole
    run are strictly increasing; an identity spawned by the last call gets an
    id larger than every id returned by the earlier calls, and every object
    the last call returns is either such a new identity or carries an id
    that was stored in the tracker when the call began, so an id that was
    dropped is never given out again.  (ii) When the call returns, the ids
    stored in the centroid map are exactly the ids of the returned list, each
    stored once. *)
Theorem update_ids_invariant (calls : list (list rect * Q))
        (rects : list rect) (thr : Q) :
  let t := fst (run init calls) in
  let outs := snd (run init calls) in
  let t' := fst (update t rects thr) in
  let out := snd (update t rects thr) in
  StronglySorted Z.lt (spawned_ids init (calls ++ [(rects, thr)]))
  /\ (forall o, In o (spawned t rects thr) ->
                forall out0 o0, In out0 outs -> In o0 out0 ->
                                (tracked_id o0 < tracked_id o)%Z)
  /\ (forall o, In o out ->
                In o (spawned t rects thr)
                \/ In (tracked_id o) (dict_keys (center_points t)))
  /\ (forall k, In k (dict_keys (center_points t')) <->
                In k (map tracked_id out))
  /\ NoDup (dict_keys (center_points t')).
Proof.
  cbv zeta.
  destruct (update_spec (fst (run init calls)) rects thr)
    as [M [E [HM [HS [Hc HK]]]]].
  destruct (run_bounded calls init bounded_init) as [B [_ Hb]].
  split.
  { destruct (spawned_ids_fresh (calls ++ [(rects, thr)]) init) as [n [-> _]].
    apply fresh_ids_sorted. }
  split.
  { intros o Ho out0 o0 Hout0 Ho0.
    apply (in_map tracked_id) in Ho. rewrite HS in Ho.
    apply fresh_ids_bounds in Ho. specialize (Hb out0 o0 Hout0 Ho0). lia. }
  split.
  { intros o Ho. rewrite E in Ho. apply in_app_or in Ho as [Ho|Ho]; auto. }
  split; [exact HK|].
  apply update_NoDup; [exact B|].
  apply run_NoDup; [apply bounded_init|constructor].
Qed.

End TrackerFacts.

(** ** The ground filter *)

Section GroundFilterFacts.
Import GroundFilter.

Variable row : Type.
Variable xyz : row -> Q * Q * Q.
Variable rng : Type.
Variable segment_plane :
  rng -> list (Q * Q * Q) -> Q -> Z -> Z -> list nat * rng.

Lemma length_set_false (i : nat) (keep : list bool) :
  List.length (set_false i keep) = List.length keep.
Proof.
  revert i. induction keep as [|k keep IH]; intros [|i]; simpl; auto.
Qed.

Lemma nth_set_false (i j : nat) (keep : list bool) :
  nth j (set_false i keep) false =
  nth j keep false && negb (Nat.eqb j i).
Proof.
  revert i j. induction keep as [|k keep IH]; intros [|i] [|j]; simpl;
    rewrite ?andb_true_r, ?andb_false_r; auto.
Qed.

Lemma clear_mask_spec (obj : list nat) :
  forall keep : list bool,
    Forall (fun i => (i < List.length keep)%nat) obj ->
    exists keep',
      clear_mask keep obj = Ok keep'
      /\ List.length keep' = List.length keep
      /\ forall j, nth j keep' false =
                   nth j keep false && negb (existsb (Nat.eqb j) obj).
Proof.
  induction obj as [|i obj IH]; intros keep H.
  - exists keep. simpl. split; [reflexivity|]. split; [reflexivity|].
    intros j. now rewrite andb_true_r.
  - inversion H as [|? ? Hi Hrest]; subst. simpl.
    apply Nat.ltb_lt in Hi. rewrite Hi.
    destruct (IH (set_false i keep)) as [keep' [E [L N]]].
    { now rewrite length_set_false. }
    exists keep'. split; [assumption|].
    split; [now rewrite L, length_set_false|].
    intros j. rewrite N, nth_set_false, negb_orb. now rewrite andb_assoc.
Qed.

Lemma clear_mask_out_of_range (obj : list nat) :
  forall keep : list bool,
    ~ Forall (fun i => (i < List.length keep)%nat) obj ->
    clear_mask keep obj = Raise IndexError.
Proof.
  induction obj as [|i obj IH]; intros keep H.
  - exfalso. apply H. constructor.
  - simpl. destruct (i <? List.length keep)%nat eqn:Hi; [|reflexivity].
    apply IH. rewrite length_set_false. intros Hrest. apply H.
    constructor; [now apply Nat.ltb_lt|assumption].
Qed.

Lemma select_spec (keep : list bool) :
  forall (l : list row) (s : nat),
    List.length keep = List.length l ->
    select keep l =
    map snd (filter (fun p => nth (fst p - s) keep false)
                    (combine (seq s (List.length l)) l)).
Proof.
  induction keep as [|k keep IH]; intros [|r l] s H;
    try discriminate H; [reflexivity|].
  injection H as H.
  assert (E : filter (fun p => nth (fst p - s) (k :: keep) false)
                     (combine (seq (S s) (List.length l)) l) =
              filter (fun p => nth (fst p - S s) keep false)
                     (combine (seq (S s) (List.length l)) l)).
  { apply filter_ext_in. intros [i r'] Hin.
    apply in_combine_l, in_seq in Hin. cbn [fst].
    replace (i - s)%nat with (S (i - S s)) by lia. reflexivity. }
  set (P := fun p : nat * row => nth (fst p - s) (k :: keep) false) in *.
  assert (HP : P (s, r) = k) by (unfold P; simpl; now rewrite Nat.sub_diag).
  cbn [select List.length seq combine filter].
  rewrite HP, E. clear HP E P.
  destruct k; cbn [map snd]; now rewrite <- (IH l (S s) H).
Qed.

Lemma np_delete_spec (arr : ndarray row) (obj : list nat) :
  Forall (fun i => (i < shape0 arr)%nat) obj ->
  np_delete arr obj =
  Ok (mk_ndarray (shape1 arr) (non_inlier_rows (rows arr) obj)).
Proof.
  intros H. unfold np_delete.
  destruct (clear_mask_spec obj (repeat true (shape0 arr))) as [keep [E [L N]]].
  { now rewrite repeat_length. }
  rewrite E. simpl. rewrite repeat_length in L. unfold mask_rows, shape0 in *.
  rewrite L, Nat.eqb_refl. simpl. do 2 f_equal.
  rewrite (select_spec keep (rows arr) 0 L). unfold non_inlier_rows.
  f_equal. apply filter_ext_in. intros [i r] Hin. simpl.
  apply in_combine_l, in_seq in Hin. rewrite Nat.sub_0_r, N.
  rewrite nth_repeat_lt by lia. reflexivity.
Qed.

(** C7.  On an array with at least [ransac_n] rows, whose plane fit
    returns inlier indices inside the array, [filter_ground_ransac] returns
    the input's column count and exactly the rows that are not inliers, each
    row as it came and in the input order; on an array with fewer than
    [ransac_n] rows it returns no rows and the input's column count. *)
Theorem filter_ground_ransac_non_ground (g : rng) (points : ndarray row)
        (distance_threshold : Q) (ransac_n num_iterations : Z) :
  let inliers :=
    fst (segment_plane g (map xyz (rows points)) distance_threshold
                       ransac_n num_iterations) in
  Forall (fun i => (i < shape0 points)%nat) inliers ->
  fst (filter_ground_ransac xyz segment_plane g (Some points)
                            distance_threshold ransac_n num_iterations) =
  if (Z.of_nat (shape0 points) <? ransac_n)%Z
  then Ok (mk_ndarray (shape1 points) [])
  else Ok (mk_ndarray (shape1 points)
                      (non_inlier_rows (rows points) inliers)).
Proof.
  cbv zeta. intros H. unfold filter_ground_ransac.
  destruct (Z.of_nat (shape0 points) <? ransac_n)%Z; [reflexivity|].
  destruct (segment_plane g (map xyz (rows points)) distance_threshold
                          ransac_n num_iterations) as [inliers g'].
  simpl in *. now apply np_delete_spec.
Qed.

(** C10.  With [points = None] the call raises ([points.shape[1]] is
    evaluated on [None]) instead of returning an empty array; the early exit
    returns its empty array exactly for an array with fewer than [ransac_n]
    rows, and [AttributeError] is raised for no other input. *)
Theorem filter_ground_ransac_none (g : rng) (distance_threshold : Q)
        (ransac_n num_iterations : Z) :
  filter_ground_ransac xyz segment_plane g None distance_threshold
                       ransac_n num_iterations = (Raise AttributeError, g)
  /\ (forall points : ndarray row,
        (Z.of_nat (shape0 points) < ransac_n)%Z ->
        filter_ground_ransac xyz segment_plane g (Some points)
                             distance_threshold ransac_n num_iterations =
        (Ok (mk_ndarray (shape1 points) []), g))
  /\ (forall points : option (ndarray row),
        fst (filter_ground_ransac xyz segment_plane g points
                                  distance_threshold ransac_n num_iterations)
        = Raise AttributeError <-> points = None).
Proof.
  split; [reflexivity|]. split.
  - intros points H. unfold filter_ground_ransac.
    apply Z.ltb_lt in H. now rewrite H.
  - intros [points|]; simpl; [|tauto].
    split; [|discriminate]. intros H. exfalso.
    destruct (Z.of_nat (shape0 points) <? ransac_n)%Z; [discriminate|].
    destruct (segment_plane g (map xyz (rows points)) distance_threshold
                            ransac_n num_iterations) as [inliers g'].
    simpl in H. unfold np_delete in H.
    destruct (clear_mask (repeat true (shape0 points)) inliers) as [keep|e] eqn:E;
      simpl in H.
    + unfold mask_rows in H.
      destruct (Nat.eqb _ _); simpl in H; discriminate.
    + destruct (Forall_dec (fun i => (i < shape0 points)%nat)
                           (fun i => lt_dec i (shape0 points)) inliers)
        as [F|F].
      * destruct (clear_mask_spec inliers (repeat true (shape0 points)))
          as [keep [E' _]]; [now rewrite repeat_length|congruence].
      * rewrite clear_mask_out_of_range in E
          by (now rewrite repeat_length).
        congruence.
Qed.

End GroundFilterFacts.


(** ** The processing loop *)

Section LinkageFacts.
Import Feature Classifier Tracker ObjectFeatures Main.

Lemma close_to_iff (feat : feature) (tobj : tracked_object) :
  close_to (fst (fst (bbox_min feat))) (snd (fst (bbox_min feat))) tobj = true
  <-> within_tolerance feat tobj.
Proof.
  unfold close_to, within_tolerance.
  destruct (bbox_min feat) as [[min_x min_y] min_z].
  destruct tobj as [[[[tx ty] w] h] i]. simpl.
  now rewrite andb_true_iff, !ltb_lt.
Qed.

Lemma scan_tracked_spec (feat0 feat : feature)
      (tracked_objects : list tracked_object) :
  bbox_min feat0 = bbox_min feat ->
  (exists before tobj after,
      tracked_objects = before ++ tobj :: after
      /\ (forall t, In t before -> ~ within_tolerance feat0 t)
      /\ within_tolerance feat0 tobj
      /\ scan_tracked (fst (fst (bbox_min feat0))) (snd (fst (bbox_min feat0)))
                      tracked_objects feat
         = set_object_id feat (tracked_id tobj))
  \/ ((forall t, In t tracked_objects -> ~ within_tolerance feat0 t)
      /\ scan_tracked (fst (fst (bbox_min feat0))) (snd (fst (bbox_min feat0)))
                      tracked_objects feat = feat).
Proof.
  intros _. induction tracked_objects as [|tobj rest IH].
  - right. split; [intros t []|reflexivity].
  - simpl.
    destruct (close_to _ _ tobj) eqn:C.
    + left. exists [], tobj, rest. apply close_to_iff in C.
      split; [reflexivity|]. split; [intros t []|]. split; [assumption|].
      reflexivity.
    + assert (NC : ~ within_tolerance feat0 tobj).
      { rewrite <- close_to_iff, C. discriminate. }
      destruct IH as [[before [t [after [E [Hb [Ht Hs]]]]]]|[Hall Hs]].
      * left. exists (tobj :: before), t, after. split; [now rewrite E|].
        split; [|tauto]. intros t' [<-|Hin]; auto.
      * right. split; [|assumption]. intros t' [<-|Hin]; auto.
Qed.

Lemma link_feature_linked (tracked_objects : list tracked_object)
      (feat : feature) :
  linked_or_raised tracked_objects feat (link_feature tracked_objects feat).
Proof.
  unfold link_feature, not_noise, get_class, linked_or_raised.
  change (class (set_object_id feat (-1))) with (class feat).
  destruct (class feat) as [c|] eqn:C; simpl; [|auto].
  destruct (String.eqb_spec c "noise") as [->|Hne]; simpl.
  - now apply linked_noise.
  - assert (Hc : class feat <> Some "noise"%string) by congruence.
    pose proof (scan_tracked_spec feat (set_object_id feat (-1))
                                  tracked_objects eq_refl) as H.
    change (bbox_min (set_object_id feat (-1))) with (bbox_min feat).
    destruct (bbox_min feat) as [[min_x min_y] min_z] eqn:B. simpl in H.
    destruct H as [[before [t [after [E [Hb [Ht Hs]]]]]]|[Hall Hs]]; rewrite Hs.
    + change (set_object_id (set_object_id feat (-1)) (tracked_id t))
        with (set_object_id feat (tracked_id t)).
      now apply (linked_first _ _ before after t).
    + now apply linked_unresolved.
Qed.

(** C4 (amended).  Every feature gets its id from the tracker's list alone:
    a noise feature gets -1; any other feature gets the id of the first
    tracked object, in the returned order, whose x and y are both less than
    0.1 away from the feature's bounding-box minimum, and -1 when there is
    none.  What another feature was given plays no part.  The linkage only
    fails, with [KeyError], on a feature that was never classified. *)
Theorem link_features_first_match (tracked_objects : list tracked_object)
        (features : list feature) :
  match link_features tracked_objects features with
  | Ok features' => Forall2 (linked tracked_objects) features features'
  | Raise e => e = KeyError /\ Exists (fun feat => class feat = None) features
  end.
Proof.
  induction features as [|feat features IH]; simpl; [constructor|].
  pose proof (link_feature_linked tracked_objects feat) as H.
  destruct (link_feature tracked_objects feat) as [feat'|e]; simpl in *.
  - destruct (link_features tracked_objects features) as [features'|e];
      simpl.
    + now constructor.
    + destruct IH as [-> IH]. split; [reflexivity|]. now apply Exists_cons_tl.
  - destruct H as [-> H]. split; [reflexivity|]. now apply Exists_cons_hd.
Qed.

(** C4 as stated fails.  Two cars whose bounding boxes start 0.05 apart are
    both within tolerance of the first tracked object; both are given its
    id 1, and the second tracked object's id 2 is given to neither. *)
Lemma link_features_shared_object :
  let car1 := mk_feature 0 100 1.8 4.0 1.5 7 (0, 0, 0) (1.8, 4.0, 1.5)
                         None None in
  let car2 := mk_feature 1 100 1.8 4.0 1.5 7 (0.05, 0, 3) (1.85, 4.0, 4.5)
                         None None in
  let features := fst (classify_features [car1; car2]) in
  let detections_for_tracker := snd (classify_features [car1; car2]) in
  let tracked_objects :=
    snd (update init detections_for_tracker default_dist_thresh) in
  map class features = [Some "car"%string; Some "car"%string]
  /\ tracked_objects = [(0, 0, 1.8, 4.0, 1%Z); (0.05, 0, 1.8, 4.0, 2%Z)]
  /\ Forall (fun feat => within_tolerance feat (0, 0, 1.8, 4.0, 1%Z)) features
  /\ exists features',
       link_features tracked_objects features = Ok features'
       /\ map object_id features' = [Some 1%Z; Some 1%Z].
Proof.
  cbv zeta. split; [reflexivity|]. split; [reflexivity|].
  split; [repeat constructor|].
  eexists. split; reflexivity.
Qed.

End LinkageFacts.

Section PipelineFacts.
Import Feature Classifier Tracker GroundFilter ObjectFeatures Clustering Main.

Variable rng : Type.
Variable segment_plane :
  rng -> list (Q * Q * Q) -> Q -> Z -> Z -> list nat * rng.
Variable DBSCAN_fit : Q -> Z -> list (Q * Q * Q) -> list Z.

Lemma match_identity_none_left (rects : list rect) (thr : Q)
      (st : frame_state) (item : Z * (Q * Q)) :
  unmatched_detections st = [] -> match_identity rects thr st item = st.
Proof.
  intros H. destruct item as [obj_id pt]. unfold match_identity.
  now rewrite H.
Qed.

Lemma update_no_detections (t : tracker) (dist_thresh : Q) :
  update t [] dist_thresh = (mk_tracker [] (id_count t), []).
Proof.
  unfold update, spawn_phase. rewrite match_phase_fold.
  assert (H : forall items st,
             unmatched_detections st = [] ->
             fold_left (match_identity [] dist_thresh) items st = st).
  { induction items as [|item items IH]; intros st Hst; [reflexivity|].
    simpl. rewrite match_identity_none_left by assumption. now apply IH. }
  rewrite H by reflexivity. simpl.
  f_equal. f_equal. induction (center_points t); auto.
Qed.

(** *** Rounds that find no object

    When ground filtering leaves no point, the round ends at the skip of
    lines 78 to 80: nothing is clustered, extracted or classified, nothing
    is saved, and the tracker is not called, so it keeps every identity it
    holds.  A frame with fewer than three points is such a frame.  When
    points remain but form no cluster, the branch of lines 129 to 132 calls
    [update] with an empty detection list, which empties the tracker. *)
Theorem process_frame_empty_non_ground (t : tracker) (g : rng)
        (points_with_intensity : ndarray point) :
  let r := filter_ground_ransac xyz segment_plane g
             (Some points_with_intensity) RANSAC_DISTANCE_THRESHOLD
             default_ransac_n default_num_iterations in
  (forall non_ground_points,
      fst r = Ok non_ground_points ->
      shape0 non_ground_points = 0%nat ->
      process_frame segment_plane DBSCAN_fit (t, g)
                    (Some points_with_intensity)
      = Ok ((t, snd r), None))
  /\ ((shape0 points_with_intensity < 3)%nat ->
      process_frame segment_plane DBSCAN_fit (t, g)
                    (Some points_with_intensity)
      = Ok ((t, g), None))
  /\ (forall non_ground_points,
        fst r = Ok non_ground_points ->
        shape0 non_ground_points <> 0%nat ->
        (snd (cluster_objects DBSCAN_fit non_ground_points DBSCAN_EPS
                              DBSCAN_MIN_SAMPLES) <= 0)%Z ->
        process_frame segment_plane DBSCAN_fit (t, g)
                      (Some points_with_intensity)
        = Ok ((mk_tracker [] (id_count t), snd r), Some [])).
Proof.
  cbv zeta. unfold process_frame.
  split; [|split].
  - intros ng E Hz.
    destruct (filter_ground_ransac _ _ _ _ _ _ _) as [r g']. simpl in *.
    subst r. simpl. now rewrite Hz.
  - intros Hlt. unfold filter_ground_ransac, default_ransac_n.
    replace (Z.of_nat (shape0 points_with_intensity) <? 3)%Z with true
      by (symmetry; apply Z.ltb_lt; lia).
    reflexivity.
  - intros ng E Hnz Hc.
    destruct (filter_ground_ransac _ _ _ _ _ _ _) as [r g']. simpl in *.
    subst r. simpl. apply Nat.eqb_neq in Hnz. rewrite Hnz.
    destruct (cluster_objects _ _ _ _) as [labels n_clusters]. simpl in Hc.
    replace (0 <? n_clusters)%Z with false by (symmetry; apply Z.ltb_ge; lia).
    now rewrite update_no_detections.
Qed.

Lemma classify_features_all_noise (features : list feature) :
  Forall (fun feat => classify_object_advanced feat = "noise"%string)
         features ->
  snd (classify_features features) = []
  /\ forall tracked_objects,
       exists features',
         link_features tracked_objects (fst (classify_features features))
         = Ok features'
         /\ output_data features' = Ok [].
Proof.
  induction 1 as [|feat features Hn F [IH1 IH2]]; simpl.
  - split; [reflexivity|]. intros _. now exists [].
  - destruct (classify_features features) as [rest' dets] eqn:E.
    simpl in *. rewrite Hn. simpl. split; [exact IH1|].
    intros tracked_objects. destruct (IH2 tracked_objects) as [fs [L O]].
    unfold link_feature, not_noise. simpl. rewrite L. simpl.
    eexists. split; [reflexivity|]. simpl. now rewrite O.
Qed.

(** When every cluster is classified as noise, [detections_for_tracker]
    stays empty and line 107 calls [update] with it: the tracker is emptied
    here too, and the frame is saved without a record. *)
Lemma process_frame_all_noise (t : tracker) (g : rng)
      (points_with_intensity : ndarray point) :
  let r := filter_ground_ransac xyz segment_plane g
             (Some points_with_intensity) RANSAC_DISTANCE_THRESHOLD
             default_ransac_n default_num_iterations in
  forall non_ground_points features,
    fst r = Ok non_ground_points ->
    shape0 non_ground_points <> 0%nat ->
    let c := cluster_objects DBSCAN_fit non_ground_points DBSCAN_EPS
                             DBSCAN_MIN_SAMPLES in
    (0 < snd c)%Z ->
    extract_features non_ground_points (fst c) = Ok features ->
    Forall (fun feat => classify_object_advanced feat = "noise"%string)
           features ->
    process_frame segment_plane DBSCAN_fit (t, g)
                  (Some points_with_intensity)
    = Ok ((mk_tracker [] (id_count t), snd r), Some []).
Proof.
  cbv zeta. intros ng features E Hnz Hc Hf Hn. unfold process_frame.
  destruct (filter_ground_ransac _ _ _ _ _ _ _) as [r g']. simpl in *.
  subst r. simpl. apply Nat.eqb_neq in Hnz. rewrite Hnz.
  destruct (cluster_objects _ _ _ _) as [labels n_clusters]. simpl in *.
  replace (0 <? n_clusters)%Z with true by (symmetry; apply Z.ltb_lt; lia).
  rewrite Hf. simpl.
  destruct (classify_features_all_noise features Hn) as [D L].
  destruct (classify_features features) as [fs dets]. simpl in *. subst dets.
  rewrite update_no_detections.
  destruct (L []) as [fs' [L1 L2]]. rewrite L1. simpl. now rewrite L2.
Qed.

End PipelineFacts.


(** ** Feature extraction *)

Section ObjectFeaturesFacts.
Import Feature ObjectFeatures.

(** *** Rounding and truncation *)

Lemma Qabs_cases (x : Q) :
  (0 <= x /\ Qabs x == x) \/ (x <= 0 /\ Qabs x == - x).
Proof.
  destruct (Qlt_le_dec x 0) as [H|H].
  - right. split; [lra|]. apply Qabs_neg. lra.
  - left. split; [assumption|]. now apply Qabs_pos.
Qed.

Lemma round_half_even_spec (q : Q) :
  Qabs (q - inject_Z (round_half_even q)) <= 1 # 2
  /\ (Qabs (q - inject_Z (round_half_even q)) == 1 # 2 ->
      Z.even (round_half_even q) = true).
Proof.
  unfold round_half_even.
  pose proof (Qfloor_le q) as Hlo. pose proof (Qlt_floor q) as Hhi.
  rewrite inject_Z_plus in Hhi. change (inject_Z 1) with 1 in Hhi.
  set (f := Qfloor q) in *.
  destruct (ltb_spec (q - inject_Z f) (1 # 2)) as [H1|H1].
  { split.
    - apply Qabs_Qle_condition. lra.
    - intros E. destruct (Qabs_cases (q - inject_Z f)) as [[? A]|[? A]];
        rewrite A in E; lra. }
  destruct (ltb_spec (1 # 2) (q - inject_Z f)) as [H2|H2].
  { rewrite inject_Z_plus. change (inject_Z 1) with 1. split.
    - apply Qabs_Qle_condition. lra.
    - intros E.
      destruct (Qabs_cases (q - (inject_Z f + 1))) as [[? A]|[? A]];
        rewrite A in E; lra. }
  destruct (Z.even f) eqn:Ev.
  - split; [apply Qabs_Qle_condition; lra|auto].
  - rewrite inject_Z_plus. change (inject_Z 1) with 1. split.
    + apply Qabs_Qle_condition. lra.
    + intros _. rewrite Z.even_add, Ev. reflexivity.
Qed.

Lemma py_round2_rounded2 (q : Q) : rounded2 q (py_round2 q).
Proof.
  exists (round_half_even (q * 100)). split; [reflexivity|].
  apply round_half_even_spec.
Qed.

Lemma py_int_truncated (q : Q) : truncated q (py_int q).
Proof.
  destruct q as [a b]. unfold truncated, py_int. simpl.
  pose proof (Z.quot_rem' a (Z.pos b)) as E.
  set (z := Z.quot a (Z.pos b)) in *. set (r := Z.rem a (Z.pos b)) in *.
  destruct (Z.le_gt_cases 0 a) as [Ha|Ha].
  - pose proof (Z.rem_bound_pos a (Z.pos b) Ha (Pos2Z.is_pos b)) as Hr.
    fold r in Hr.
    assert (Hz : (0 <= z)%Z) by (apply Z.quot_pos; lia).
    assert (H0 : 0 <= inject_Z z) by (unfold Qle; simpl; lia).
    assert (H1 : inject_Z z <= a # b) by (unfold Qle; simpl; nia).
    assert (H2 : (a # b) - inject_Z z < 1).
    { unfold Qlt, Qminus, Qplus, Qopp. simpl. nia. }
    split.
    + destruct (Qabs_cases (inject_Z z)) as [[? A]|[? A]];
        destruct (Qabs_cases (a # b)) as [[? B]|[? B]]; rewrite A, B; lra.
    + destruct (Qabs_cases ((a # b) - inject_Z z)) as [[? A]|[? A]];
        rewrite A; lra.
  - pose proof (Z.rem_bound_pos (- a) (Z.pos b) ltac:(lia) (Pos2Z.is_pos b))
      as Hr.
    rewrite Z.rem_opp_l in Hr by lia. fold r in Hr.
    assert (Hz : (z <= 0)%Z).
    { unfold z. rewrite <- (Z.opp_involutive a), Z.quot_opp_l by lia.
      pose proof (Z.quot_pos (- a) (Z.pos b)). lia. }
    assert (H0 : inject_Z z <= 0) by (unfold Qle; simpl; lia).
    assert (H1 : a # b <= inject_Z z) by (unfold Qle; simpl; nia).
    assert (H2 : - 1 < (a # b) - inject_Z z).
    { unfold Qlt, Qminus, Qplus, Qopp. simpl. nia. }
    split.
    + destruct (Qabs_cases (inject_Z z)) as [[? A]|[? A]];
        destruct (Qabs_cases (a # b)) as [[? B]|[? B]]; rewrite A, B; lra.
    + destruct (Qabs_cases ((a # b) - inject_Z z)) as [[? A]|[? A]];
        rewrite A; lra.
Qed.

(** *** Minimum and maximum of a column *)

Lemma np_min_is_minimum (l : list Q) : l <> [] -> is_minimum l (np_min l).
Proof.
  destruct l as [|x rest]; [congruence|]. intros _. unfold np_min.
  revert x. induction rest as [|a rest IH]; intros x.
  - simpl. split; [now left|]. intros v [<-|[]]. lra.
  - simpl. destruct (IH (if ltb a x then a else x)) as [Hin Hle].
    split.
    + destruct Hin as [Hin|Hin]; [|now right; right].
      rewrite <- Hin. destruct (ltb a x); [right; now left|now left].
    + intros v Hv.
      assert (Hm : (if ltb a x then a else x) <= x
                   /\ (if ltb a x then a else x) <= a).
      { destruct (ltb_spec a x); lra. }
      pose proof (Hle _ (or_introl eq_refl)) as H0.
      destruct Hv as [<-|[<-|Hv]]; [lra|lra|]. apply Hle. now right.
Qed.

Lemma np_max_is_maximum (l : list Q) : l <> [] -> is_maximum l (np_max l).
Proof.
  destruct l as [|x rest]; [congruence|]. intros _. unfold np_max.
  revert x. induction rest as [|a rest IH]; intros x.
  - simpl. split; [now left|]. intros v [<-|[]]. lra.
  - simpl. destruct (IH (if ltb x a then a else x)) as [Hin Hle].
    split.
    + destruct Hin as [Hin|Hin]; [|now right; right].
      rewrite <- Hin. destruct (ltb x a); [right; now left|now left].
    + intros v Hv.
      assert (Hm : x <= (if ltb x a then a else x)
                   /\ a <= (if ltb x a then a else x)).
      { destruct (ltb_spec x a); lra. }
      pose proof (Hle _ (or_introl eq_refl)) as H0.
      destruct Hv as [<-|[<-|Hv]]; [lra|lra|]. apply Hle. now right.
Qed.

(** *** The distinct labels *)

Lemma insert_unique_In (x y : Z) (l : list Z) :
  In y (insert_unique x l) <-> y = x \/ In y l.
Proof.
  induction l as [|z l IH]; simpl.
  - intuition congruence.
  - destruct (Z.ltb_spec x z); [simpl; intuition congruence|].
    destruct (Z.eqb_spec x z); simpl; [intuition congruence|].
    rewrite IH. intuition congruence.
Qed.

Lemma insert_unique_sorted (x : Z) (l : list Z) :
  StronglySorted Z.lt l -> StronglySorted Z.lt (insert_unique x l).
Proof.
  induction l as [|z l IH]; intros S; simpl.
  - repeat constructor.
  - inversion S as [|? ? S' F]; subst.
    destruct (Z.ltb_spec x z) as [Hlt|Hge].
    { constructor; [assumption|]. constructor; [assumption|].
      eapply Forall_impl; [|exact F]. simpl. intros; lia. }
    destruct (Z.eqb_spec x z) as [->|Hne]; [assumption|].
    constructor; [auto|]. apply Forall_forall. intros y Hy.
    apply insert_unique_In in Hy as [->|Hy]; [lia|].
    rewrite Forall_forall in F. auto.
Qed.

Lemma np_unique_In (l : list Z) (y : Z) : In y (np_unique l) <-> In y l.
Proof.
  induction l as [|x l IH]; simpl; [tauto|].
  rewrite insert_unique_In, IH. intuition congruence.
Qed.

Lemma np_unique_sorted (l : list Z) : StronglySorted Z.lt (np_unique l).
Proof.
  induction l as [|x l IH]; simpl; [constructor|].
  now apply insert_unique_sorted.
Qed.

Lemma filter_sorted (p : Z -> bool) (l : list Z) :
  StronglySorted Z.lt l -> StronglySorted Z.lt (filter p l).
Proof.
  induction 1 as [|x l S IH F]; simpl; [constructor|].
  destruct (p x); [|exact IH].
  constructor; [exact IH|]. apply Forall_forall. intros y Hy.
  apply filter_In in Hy as [Hy _]. rewrite Forall_forall in F. auto.
Qed.

(** *** The loop over the labels *)

Lemma select_members (label : Z) (labels : list Z) :
  forall points : list point,
    List.length labels = List.length points ->
    select (map (fun l => (l =? label)%Z) labels) points =
    members points labels label.
Proof.
  unfold members.
  induction labels as [|l labels IH]; intros [|p points] H;
    try discriminate H; [reflexivity|].
  injection H as H. simpl. rewrite (IH points H).
  now destruct (l =? label)%Z.
Qed.

Lemma members_nonempty (label : Z) (labels : list Z) :
  forall points : list point,
    List.length labels = List.length points ->
    In label labels -> members points labels label <> [].
Proof.
  unfold members.
  induction labels as [|l labels IH]; intros [|p points] H Hin;
    try discriminate H; [destruct Hin|].
  injection H as H. simpl.
  destruct (Z.eqb_spec l label) as [->|Hne]; [discriminate|].
  apply IH; [assumption|]. destruct Hin; congruence.
Qed.

Lemma features_loop_spec (points : list point) (labels : list Z)
      (unique_labels : list Z) :
  List.length labels = List.length points ->
  features_loop points labels unique_labels =
  Ok (map (fun l => feature_of l (members points labels l))
          (filter (fun l => negb (l =? -1)%Z) unique_labels)).
Proof.
  intros H. induction unique_labels as [|l rest IH]; [reflexivity|].
  simpl. destruct (l =? -1)%Z; [exact IH|]. simpl.
  unfold mask_rows. rewrite length_map, H, Nat.eqb_refl. simpl.
  rewrite IH. simpl. now rewrite select_members.
Qed.

Lemma feature_of_describes (l : Z) (M : list point) :
  M <> [] -> describes M (feature_of l M).
Proof.
  intros HM.
  assert (Hx : map px M <> []) by (destruct M; [congruence|discriminate]).
  assert (Hy : map py M <> []) by (destruct M; [congruence|discriminate]).
  assert (Hz : map pz M <> []) by (destruct M; [congruence|discriminate]).
  unfold describes, feature_of. simpl.
  split; [reflexivity|].
  split; [|split; [|split]].
  - exists (np_min (map px M)), (np_max (map px M)).
    auto using np_min_is_minimum, np_max_is_maximum, py_round2_rounded2.
  - exists (np_min (map py M)), (np_max (map py M)).
    auto using np_min_is_minimum, np_max_is_maximum, py_round2_rounded2.
  - exists (np_min (map pz M)), (np_max (map pz M)).
    auto using np_min_is_minimum, np_max_is_maximum, py_round2_rounded2.
  - apply py_int_truncated.
Qed.

(** C9 (amended).  For points and labels of the same length,
    [extract_features] returns one feature for every distinct label other
    than -1, by increasing label and none for -1.  The feature of a label
    counts its member points; its width, length and height are the
    differences of the greatest and least x, y and z of the members, rounded
    to two decimal places; its [bbox_min] and [bbox_max] are the least and
    greatest coordinates, each rounded to two decimal places as well; its
    [avg_intensity] is the mean member intensity truncated to an integer. *)
Theorem extract_features_describes (points : ndarray point)
        (labels : list Z) :
  List.length labels = shape0 points ->
  exists features,
    extract_features points labels = Ok features
    /\ StronglySorted Z.lt (map label features)
    /\ (forall l, In l (map label features) <-> In l labels /\ l <> (-1)%Z)
    /\ Forall (fun feat =>
                 describes (members (rows points) labels (label feat)) feat)
              features.
Proof.
  intros H. unfold extract_features. rewrite features_loop_spec by exact H.
  eexists. split; [reflexivity|].
  set (kept := filter (fun l => negb (l =? -1)%Z) (np_unique labels)).
  assert (E : map label
                  (map (fun l => feature_of l (members (rows points) labels l))
                       kept) = kept).
  { rewrite map_map. simpl. apply map_id. }
  assert (K : forall l, In l kept <-> In l labels /\ l <> (-1)%Z).
  { intros l. unfold kept. rewrite filter_In, np_unique_In, negb_true_iff.
    now rewrite Z.eqb_neq. }
  rewrite E. split; [|split; [exact K|]].
  - apply filter_sorted, np_unique_sorted.
  - apply Forall_forall. intros feat Hin.
    apply in_map_iff in Hin as [l [<- Hl]]. simpl.
    apply feature_of_describes, members_nonempty; [exact H|].
    now apply K.
Qed.

End ObjectFeaturesFacts.

(** ** Clustering *)

Section DBSCANFacts.
Import DBSCAN.

Variable eps : Q.
Variable minPts : Z.
Variable X : list (Q * Q * Q).

Lemma touches_iff (c : Z) (es : list entry) (p : Q * Q * Q) :
  touches eps c es p = true <->
  exists e, In e es /\ lab e = c /\ core e = true
            /\ within eps (pt e) p = true.
Proof.
  unfold touches. rewrite existsb_exists. split.
  - intros [e [Hin H]]. apply andb_true_iff in H as [H Hw].
    apply andb_true_iff in H as [Hl Hc]. apply Z.eqb_eq in Hl. eauto.
  - intros [e [Hin [Hl [Hc Hw]]]]. exists e. split; [assumption|].
    rewrite Hc, Hw. apply Z.eqb_eq in Hl. now rewrite Hl.
Qed.

Lemma Forall2_In_l {A B : Type} (R : A -> B -> Prop) (l : list A)
      (l' : list B) (a : A) :
  Forall2 R l l' -> In a l -> exists b, In b l' /\ R a b.
Proof.
  induction 1 as [|x y l l' Hxy F IH]; intros Hin; [destruct Hin|].
  destruct Hin as [<-|Hin].
  - exists y. split; [now left|assumption].
  - destruct (IH Hin) as [b [Hb R']]. exists b. split; [now right|assumption].
Qed.

Lemma Forall2_In_r {A B : Type} (R : A -> B -> Prop) (l : list A)
      (l' : list B) (b : B) :
  Forall2 R l l' -> In b l' -> exists a, In a l /\ R a b.
Proof.
  induction 1 as [|x y l l' Hxy F IH]; intros Hin; [destruct Hin|].
  destruct Hin as [<-|Hin].
  - exists x. split; [now left|assumption].
  - destruct (IH Hin) as [a [Ha R']]. exists a. split; [now right|assumption].
Qed.

Lemma Forall2_map_r {A B : Type} (R : A -> B -> Prop) (f : A -> B)
      (l : list A) :
  (forall a, In a l -> R a (f a)) -> Forall2 R l (map f l).
Proof.
  induction l as [|a l IH]; intros H; simpl; constructor.
  - apply H. now left.
  - apply IH. intros b Hb. apply H. now right.
Qed.

Lemma advances_pt (c : Z) (es es' : list entry) :
  advances eps c es es' -> map pt es' = map pt es.
Proof.
  unfold advances. generalize es at 1. intros es0.
  induction 1 as [|e e' l l' [Hp _] F IH]; simpl; [reflexivity|].
  now rewrite Hp, IH.
Qed.

Lemma advances_touches (c l : Z) (es es' : list entry) (p : Q * Q * Q) :
  advances eps c es es' -> (0 <= l)%Z ->
  touches eps l es p = true -> touches eps l es' p = true.
Proof.
  intros A Hl H. apply touches_iff in H as [e [Hin [El [Hc Hw]]]].
  destruct (Forall2_In_l _ _ _ _ A Hin) as [e' [Hin' [Hp [Hc' Hlab]]]].
  apply touches_iff. exists e'. split; [assumption|].
  rewrite Hp, Hc'. split; [|now split].
  destruct Hlab as [->|[Hneg _]]; [assumption|lia].
Qed.

Lemma advances_sound (c : Z) (es es' : list entry) :
  (0 <= c)%Z -> sound eps minPts X es -> advances eps c es es' -> sound eps minPts X es'.
Proof.
  intros Hc [HX [Hcore Hj]] A. split; [|split].
  - now rewrite (advances_pt c es es' A).
  - intros e' Hin'.
    destruct (Forall2_In_r _ _ _ _ A Hin') as [e [Hin [Hp [Hc' _]]]].
    rewrite Hc', Hp. now apply Hcore.
  - intros e' Hin' Hl.
    destruct (Forall2_In_r _ _ _ _ A Hin') as [e [Hin [Hp [Hc' Hlab]]]].
    rewrite Hc', Hp.
    destruct Hlab as [E|[Hneg [E [Hk|Ht]]]]; rewrite E in *.
    + destruct (Hj e Hin Hl) as [Hk|Ht]; [now left|right].
      now apply (advances_touches c (lab e) es es').
    + now left.
    + right. now apply (advances_touches c c es es').
Qed.

Lemma advances_ranged (c c' : Z) (es es' : list entry) :
  (c' <= c + 1)%Z -> (0 <= c)%Z ->
  ranged c' es -> advances eps c es es' -> ranged (c + 1) es'.
Proof.
  intros Hcc Hc R A e' Hin'.
  destruct (Forall2_In_r _ _ _ _ A Hin') as [e [Hin [_ [_ Hlab]]]].
  destruct Hlab as [E|[_ [E _]]]; rewrite E; [|lia].
  destruct (R e Hin); [now left|right; lia].
Qed.

Lemma advances_populated (c c' : Z) (es es' : list entry) :
  populated c' es -> advances eps c es es' -> populated c' es'.
Proof.
  intros P A l Hl. destruct (P l Hl) as [e [Hin [El Hk]]].
  destruct (Forall2_In_l _ _ _ _ A Hin) as [e' [Hin' [_ [Hc' Hlab]]]].
  exists e'. split; [assumption|]. rewrite Hc'. split; [|assumption].
  destruct Hlab as [->|[Hneg _]]; [assumption|lia].
Qed.

Lemma grow_advances (c : Z) (es : list entry) : advances eps c es (grow eps c es).
Proof.
  apply Forall2_map_r. intros e _. unfold advanced.
  destruct (lab e =? -1)%Z eqn:El; simpl; [|tauto].
  destruct (touches eps c es (pt e)) eqn:Ht; simpl; [|tauto].
  apply Z.eqb_eq in El. tauto.
Qed.

Lemma relabel_advances (c : Z) (es0 : list entry) :
  forall (es : list entry) (i : nat) (e : entry),
    nth_error es i = Some e -> lab e = (-1)%Z -> core e = true ->
    Forall2 (advanced eps c es0) es (relabel i c es)
    /\ In (mk_entry (pt e) (core e) c) (relabel i c es).
Proof.
  assert (Same : forall l, Forall2 (advanced eps c es0) l l).
  { induction l; constructor; [unfold advanced; tauto|assumption]. }
  induction es as [|e0 es IH]; intros [|i] e H Hl Hk; simpl in *;
    try discriminate.
  - injection H as ->. split; [|now left].
    constructor; [|apply Same]. unfold advanced. simpl. tauto.
  - destruct (IH i e H Hl Hk) as [F Hin]. split; [|now right].
    constructor; [unfold advanced; tauto|assumption].
Qed.

Lemma length_grow (c : Z) (es : list entry) :
  List.length (grow eps c es) = List.length es.
Proof. apply length_map. Qed.

Lemma iterate_invariant {A : Type} (P : A -> Prop) (f : A -> A) :
  (forall x, P x -> P (f x)) -> forall n x, P x -> P (iterate n f x).
Proof.
  intros Hf. induction n as [|n IH]; intros x Hx; simpl; auto.
Qed.

Lemma visit_invariant (acc : list entry * Z) (i : nat) :
  invariant eps minPts X acc -> invariant eps minPts X (visit eps acc i).
Proof.
  destruct acc as [es c]. intros Inv. unfold visit.
  destruct (nth_error es i) as [e|] eqn:E; [|exact Inv].
  destruct ((lab e =? -1)%Z && core e) eqn:B; [|exact Inv].
  apply andb_true_iff in B as [Hl Hk]. apply Z.eqb_eq in Hl.
  destruct Inv as [Hc [Hs [Hr Hp]]]. simpl in *.
  destruct (relabel_advances c es es i e E Hl Hk) as [A Hseed].
  set (P := fun es' => sound eps minPts X es' /\ ranged (c + 1) es'
                       /\ populated (c + 1) es').
  assert (P0 : P (relabel i c es)).
  { split; [now apply (advances_sound c es)|].
    split; [apply (advances_ranged c c es); auto; lia|].
    intros l Hlc. destruct (Z.eq_dec l c) as [->|Hne].
    - eexists. split; [exact Hseed|]. simpl. auto.
    - apply (advances_populated c c es (relabel i c es) Hp A). lia. }
  assert (Pf : forall es', P es' -> P (grow eps c es')).
  { intros es' [Hs' [Hr' Hp']]. pose proof (grow_advances c es') as G.
    split; [now apply (advances_sound c es')|].
    split; [apply (advances_ranged c (c + 1) es'); auto; lia|].
    exact (advances_populated c (c + 1) es' _ Hp' G). }
  pose proof (iterate_invariant P _ Pf (List.length es) _ P0) as [H1 [H2 H3]].
  repeat split; simpl; auto; try lia; apply H1.
Qed.

Lemma start_invariant : invariant eps minPts X (start eps minPts X, 0%Z).
Proof.
  unfold invariant, start. simpl.
  split; [lia|]. split; [|split].
  - split; [|split].
    + rewrite map_map. simpl. apply map_id.
    + intros e Hin. apply in_map_iff in Hin as [p [<- _]]. reflexivity.
    + intros e Hin Hl. apply in_map_iff in Hin as [p [<- _]]. simpl in Hl. lia.
  - intros e Hin. apply in_map_iff in Hin as [p [<- _]]. now left.
  - intros l Hl. lia.
Qed.

Lemma clusters_invariant : invariant eps minPts X (clusters eps minPts X).
Proof.
  unfold clusters.
  assert (Hfold : forall l acc, invariant eps minPts X acc ->
                                invariant eps minPts X (fold_left (visit eps) l acc)).
  { induction l as [|i l IH]; intros acc Inv; simpl; [assumption|].
    apply IH, visit_invariant, Inv. }
  apply Hfold, start_invariant.
Qed.

(** *** The rounds exhaust every chain *)

Lemma grow_step (c : Z) (es0 l : list entry) :
  (0 <= c)%Z ->
  let f := fun e => if (lab e =? -1)%Z && touches eps c es0 (pt e)
                    then mk_entry (pt e) (core e) c else e in
  (map f l = l \/ (unlabelled (map f l) < unlabelled l)%nat)
  /\ (unlabelled (map f l) <= unlabelled l)%nat.
Proof.
  intros Hc f. unfold unlabelled.
  assert (Hf : forall e, f e = e \/ (lab e = (-1)%Z /\ lab (f e) = c)).
  { intros e. unfold f. destruct (lab e =? -1)%Z eqn:El; [|now left].
    destruct (touches eps c es0 (pt e)); [|now left].
    right. apply Z.eqb_eq in El. auto. }
  induction l as [|e l [IH1 IH2]]; simpl; [split; [now left|lia]|].
  destruct (Hf e) as [E|[E1 E2]].
  - rewrite E. destruct (lab e =? -1)%Z; simpl; (split; [|lia]);
      (destruct IH1 as [->|IH1]; [now left|right; lia]).
  - rewrite E1, E2. simpl.
    replace (c =? -1)%Z with false by (symmetry; apply Z.eqb_neq; lia).
    split; [right|]; lia.
Qed.

Lemma iterate_fixed {A : Type} (f : A -> A) (x : A) (n : nat) :
  f x = x -> iterate n f x = x.
Proof. intros H. induction n as [|n IH]; simpl; [reflexivity|]. now rewrite H. Qed.

Lemma iterate_grow_fixpoint (c : Z) :
  (0 <= c)%Z ->
  forall (n : nat) (es : list entry),
    (unlabelled es <= n)%nat ->
    grow eps c (iterate n (grow eps c) es) = iterate n (grow eps c) es.
Proof.
  intros Hc. induction n as [|n IH]; intros es Hn.
  - simpl. destruct (grow_step c es es Hc) as [[E|Hlt] _]; [exact E|lia].
  - simpl. destruct (grow_step c es es Hc) as [[E|Hlt] _].
    + change (grow eps c es = es) in E.
      rewrite E, iterate_fixed by exact E. exact E.
    + apply IH. unfold grow. lia.
Qed.

Lemma unlabelled_le_length (es : list entry) :
  (unlabelled es <= List.length es)%nat.
Proof. apply filter_length_le. Qed.

Lemma length_relabel (i : nat) (c : Z) (es : list entry) :
  List.length (relabel i c es) = List.length es.
Proof.
  revert i. induction es as [|e es IH]; intros [|i]; simpl; auto.
Qed.

Lemma grow_fixpoint_closed (c : Z) (es : list entry) :
  (0 <= c)%Z -> grow eps c es = es ->
  forall e, In e es -> lab e = (-1)%Z -> touches eps c es (pt e) = false.
Proof.
  intros Hc E e Hin Hl. unfold grow in E.
  assert (Hf : forall l : list entry,
             map (fun e => if (lab e =? -1)%Z && touches eps c es (pt e)
                           then mk_entry (pt e) (core e) c else e) l = l ->
             forall e, In e l -> lab e = (-1)%Z ->
                       touches eps c es (pt e) = false).
  { induction l as [|a l IH]; intros El e0 Hin0 Hl0; [destruct Hin0|].
    injection El as Ea El'. destruct Hin0 as [<-|Hin0]; [|now apply IH].
    rewrite Hl0 in Ea. simpl in Ea.
    destruct (touches eps c es (pt a)); [|reflexivity].
    apply (f_equal lab) in Ea. simpl in Ea. lia. }
  now apply (Hf es).
Qed.

Lemma extends_refl (c : Z) (es : list entry) : extends c es es.
Proof. induction es; constructor; [unfold kept; tauto|assumption]. Qed.

Lemma extends_trans (c : Z) (es1 es2 es3 : list entry) :
  extends c es1 es2 -> extends c es2 es3 -> extends c es1 es3.
Proof.
  intros H. revert es3.
  induction H as [|e1 e2 l1 l2 [Hp [Hk Hl]] F IH]; intros es3 H23;
    inversion H23 as [|? e3 ? l3 [Hp' [Hk' Hl']] F']; subst; constructor.
  - unfold kept. rewrite Hp', Hk', Hp, Hk. split; [reflexivity|].
    split; [reflexivity|].
    destruct Hl as [E|[E1 E2]], Hl' as [E'|[E1' E2']]; try (left; congruence);
      right; split; congruence.
  - now apply IH.
Qed.

Lemma advances_extends (c : Z) (es es' : list entry) :
  advances eps c es es' -> extends c es es'.
Proof.
  apply Forall2_impl. intros e e' [Hp [Hk Hl]]. unfold kept.
  split; [assumption|]. split; [assumption|]. tauto.
Qed.

Lemma iterate_extends (c : Z) (n : nat) :
  forall es, extends c es (iterate n (grow eps c) es).
Proof.
  induction n as [|n IH]; intros es; simpl; [apply extends_refl|].
  eapply extends_trans; [apply advances_extends, grow_advances|apply IH].
Qed.

Lemma Forall2_nth_error_r {A B : Type} (R : A -> B -> Prop) (l : list A)
      (l' : list B) :
  Forall2 R l l' ->
  forall i b, nth_error l' i = Some b ->
              exists a, nth_error l i = Some a /\ R a b.
Proof.
  induction 1 as [|x y l l' Hxy F IH]; intros [|i] b H; simpl in *;
    try discriminate.
  - injection H as <-. eauto.
  - now apply IH.
Qed.

Lemma nth_error_relabel (c : Z) (es : list entry) :
  forall (i : nat) (e : entry),
    nth_error es i = Some e ->
    nth_error (relabel i c es) i = Some (mk_entry (pt e) (core e) c).
Proof.
  induction es as [|e0 es IH]; intros [|i] e H; simpl in *; try discriminate.
  - now injection H as ->.
  - now apply IH.
Qed.

Lemma visit_extends (es : list entry) (c : Z) (i : nat) :
  extends c es (fst (visit eps (es, c) i))
  /\ (forall e, nth_error es i = Some e -> lab e = (-1)%Z -> core e = true ->
                fst (visit eps (es, c) i)
                = iterate (List.length es) (grow eps c) (relabel i c es))
  /\ (forall e, nth_error es i = Some e ->
                lab e <> (-1)%Z \/ core e = false ->
                fst (visit eps (es, c) i) = es).
Proof.
  unfold visit. destruct (nth_error es i) as [e|] eqn:E.
  - destruct ((lab e =? -1)%Z && core e) eqn:B; simpl.
    + apply andb_true_iff in B as [Hl Hk]. apply Z.eqb_eq in Hl.
      split; [|split].
      * eapply extends_trans; [|apply iterate_extends].
        apply advances_extends.
        exact (proj1 (relabel_advances c es es i e E Hl Hk)).
      * reflexivity.
      * intros e0 E0 [H|H]; injection E0 as <-; congruence.
    + split; [apply extends_refl|]. split; [|reflexivity].
      intros e0 E0 Hl Hk. injection E0 as <-.
      rewrite Hk in B. apply Z.eqb_eq in Hl. rewrite Hl in B. discriminate.
  - simpl. split; [apply extends_refl|]. split; intros e0 E0; discriminate.
Qed.

Lemma visit_closed (es : list entry) (c : Z) (i : nat) :
  invariant eps minPts X (es, c) -> closed eps es -> closed eps (fst (visit eps (es, c) i)).
Proof.
  intros [Hc _] Hcl. simpl in Hc.
  destruct (visit_extends es c i) as [Ext [Hrun Hskip]].
  destruct (nth_error es i) as [e0|] eqn:E0.
  2:{ unfold visit. rewrite E0. exact Hcl. }
  destruct (Z.eq_dec (lab e0) (-1)) as [Hl0|Hl0];
    [destruct (core e0) eqn:Hk0|];
    try (rewrite (Hskip e0 eq_refl) by auto; exact Hcl).
  rewrite (Hrun e0 eq_refl Hl0 Hk0) in *.
  set (es' := iterate (List.length es) (grow eps c) (relabel i c es)) in *.
  assert (Fix : grow eps c es' = es').
  { apply iterate_grow_fixpoint; [assumption|].
    rewrite <- (length_relabel i c es). apply unlabelled_le_length. }
  intros e e' Hin Hin' Hk Hl Hw Hneg.
  destruct (Z.eq_dec (lab e) c) as [Elc|Nlc].
  - pose proof (grow_fixpoint_closed c es' Hc Fix e' Hin' Hneg) as Ht.
    assert (Ht' : touches eps c es' (pt e') = true).
    { apply touches_iff. exists e. auto. }
    congruence.
  - destruct (Forall2_In_r _ _ _ _ Ext Hin) as [a [Ha [Hp [Hka Hla]]]].
    destruct (Forall2_In_r _ _ _ _ Ext Hin') as [a' [Ha' [Hp' [Hka' Hla']]]].
    assert (Ela : lab e = lab a) by (destruct Hla as [?|[_ ?]]; congruence).
    apply (Hcl a a' Ha Ha'); try congruence.
    destruct Hla' as [?|[? _]]; congruence.
Qed.

Lemma visit_visited (es : list entry) (c : Z) (i : nat) (done : list nat) :
  invariant eps minPts X (es, c) -> visited done es ->
  visited (i :: done) (fst (visit eps (es, c) i)).
Proof.
  intros [Hc _] Hv. simpl in Hc.
  destruct (visit_extends es c i) as [Ext [Hrun Hskip]].
  intros j e' Hj Ej Hk.
  destruct (Forall2_nth_error_r _ _ _ Ext j e' Ej) as [e [Ee [Hp [Hke Hle]]]].
  destruct (Z.eq_dec (lab e) (-1)) as [Hneg|Hpos].
  2:{ destruct Hle as [?|[? _]]; congruence. }
  destruct Hj as [<-|Hj].
  - rewrite (Hrun e Ee Hneg ltac:(congruence)) in Ej.
    pose proof (nth_error_relabel c es i e Ee) as Er.
    destruct (Forall2_nth_error_r _ _ _
                (iterate_extends c (List.length es) (relabel i c es))
                i e' Ej) as [r [Er' [_ [_ Hlr]]]].
    rewrite Er in Er'. injection Er' as <-. simpl in Hlr.
    destruct Hlr as [?|[? ?]]; lia.
  - exfalso. apply (Hv j e Hj Ee); congruence.
Qed.

Lemma clusters_complete :
  let es := fst (clusters eps minPts X) in
  closed eps es /\ visited (seq 0 (List.length X)) es.
Proof.
  unfold clusters.
  assert (Hfold : forall l acc done,
             invariant eps minPts X acc -> closed eps (fst acc) -> visited done (fst acc) ->
             let acc' := fold_left (visit eps) l acc in
             closed eps (fst acc')
             /\ forall i, In i l \/ In i done -> visited [i] (fst acc')).
  { induction l as [|i l IH]; intros [es c] done Inv Hcl Hv;
      cbn [fold_left].
    - split; [assumption|]. intros i [[]|Hi] j e [<-|[]]. now apply Hv.
    - pose proof (visit_invariant (es, c) i Inv) as Inv'.
      pose proof (visit_closed es c i Inv Hcl) as Hcl'.
      pose proof (visit_visited es c i done Inv Hv) as Hv'.
      destruct (visit eps (es, c) i) as [es' c'] eqn:V.
      destruct (IH (es', c') (i :: done) Inv' Hcl' Hv') as [H1 H2].
      split; [exact H1|]. intros j Hj. apply H2.
      destruct Hj as [[->|Hj]|Hj];
        [right; now left|now left|right; now right]. }
  destruct (Hfold (seq 0 (List.length X)) (start eps minPts X, 0%Z) [])
    as [H1 H2].
  - apply start_invariant.
  - intros e e' Hin _ _ Hl. unfold start in Hin. simpl in Hin.
    apply in_map_iff in Hin as [p [<- _]]. simpl in Hl. lia.
  - intros i e [].
  - split; [exact H1|]. intros i e Hi. apply (H2 i); [now left|now left].
Qed.

End DBSCANFacts.

Section ClusteringFacts.
Import ObjectFeatures DBSCAN Clustering.

Lemma n_clusters_distinct (labels : list Z) :
  (Z.of_nat (List.length (distinct labels))
   - (if existsb (Z.eqb (-1)) labels then 1 else 0))%Z
  = Z.of_nat (List.length
                (distinct (filter (fun l => negb (l =? -1)%Z) labels))).
Proof.
  unfold distinct.
  assert (Hex : forall l, existsb (Z.eqb (-1)) l = true <-> In (-1)%Z l).
  { intros l. rewrite existsb_exists. split.
    - intros [x [Hin E]]. apply Z.eqb_eq in E. now subst.
    - intros Hin. exists (-1)%Z. split; [assumption|reflexivity]. }
  induction labels as [|x labels IH]; [reflexivity|].
  cbn [nodup filter existsb].
  destruct (Z.eqb_spec x (-1)) as [->|Hne]; cbn [negb nodup].
  - change ((-1 =? -1)%Z) with true. cbn [orb].
    destruct (in_dec Z.eq_dec (-1)%Z labels) as [Hin|Hnin].
    + rewrite <- IH. apply Hex in Hin. now rewrite Hin.
    + rewrite <- IH.
      destruct (existsb (Z.eqb (-1)) labels) eqn:E;
        [apply Hex in E; contradiction|].
      cbn [List.length]. lia.
  - replace ((-1 =? x)%Z) with false by (symmetry; apply Z.eqb_neq; lia).
    cbn [orb].
    destruct (in_dec Z.eq_dec x labels) as [Hin|Hnin];
      destruct (in_dec Z.eq_dec x
                       (filter (fun l => negb (l =? -1)%Z) labels))
      as [Hin'|Hnin']; cbn [List.length].
    + exact IH.
    + exfalso. apply Hnin'. apply filter_In. split; [assumption|].
      apply negb_true_iff, Z.eqb_neq. assumption.
    + exfalso. apply Hnin. now apply filter_In in Hin'.
    + rewrite !Nat2Z.inj_succ, <- IH. lia.
Qed.

Lemma distinct_count (labels : list Z) (c : Z) :
  (0 <= c)%Z ->
  (forall l, In l labels -> l = (-1)%Z \/ (0 <= l < c)%Z) ->
  (forall l, (0 <= l < c)%Z -> In l labels) ->
  Z.of_nat (List.length
              (distinct (filter (fun l => negb (l =? -1)%Z) labels))) = c.
Proof.
  intros Hc Hr Hp.
  set (L := distinct (filter (fun l => negb (l =? -1)%Z) labels)).
  assert (P : Permutation L (map Z.of_nat (seq 0 (Z.to_nat c)))).
  { apply NoDup_Permutation.
    - apply NoDup_nodup.
    - apply Injective_map_NoDup; [|apply seq_NoDup].
      intros a b. apply Nat2Z.inj.
    - intros l. unfold L, distinct.
      rewrite nodup_In, filter_In, negb_true_iff, Z.eqb_neq, in_map_iff.
      split.
      + intros [Hin Hne]. destruct (Hr l Hin) as [?|Hl]; [contradiction|].
        exists (Z.to_nat l). rewrite in_seq. lia.
      + intros [k [<- Hk]]. apply in_seq in Hk.
        split; [apply Hp|]; lia. }
  rewrite (Permutation_length P), length_map, length_seq. lia.
Qed.

Lemma is_core_iff (eps : Q) (minPts : Z) (X : list (Q * Q * Q))
      (p : Q * Q * Q) :
  is_core eps minPts X p = true <-> core_point eps minPts X p.
Proof. unfold is_core, core_point. apply Z.leb_le. Qed.

(** C8 (amended).  With the clustering of section 4.2, [cluster_objects]
    returns one label per point and, as the cluster count, the number of
    distinct labels other than -1, the labels being -1 and the cluster
    numbers below that count; an empty input gives no labels and count 0.
    Every cluster label is carried by a core point, which has at least
    [min_samples] input points within [eps], itself included; every point
    that carries a cluster label is a core point or lies within [eps] of a
    core point of that cluster; and a point carries -1 exactly when no core
    point lies within [eps] of it.  The number of members of a cluster is
    not bounded below by [min_samples]. *)
Theorem cluster_objects_labels (points : ndarray point) (eps : Q)
        (min_samples : Z) :
  let X := map xyz (rows points) in
  let labels := fst (cluster_objects fit_labels points eps min_samples) in
  let n_clusters := snd (cluster_objects fit_labels points eps min_samples) in
  (shape0 points = 0%nat -> labels = [] /\ n_clusters = 0%Z)
  /\ List.length labels = shape0 points
  /\ n_clusters
     = Z.of_nat (List.length
                   (distinct (filter (fun l => negb (l =? -1)%Z) labels)))
  /\ (forall l, In l labels -> l = (-1)%Z \/ (0 <= l < n_clusters)%Z)
  /\ (forall l, In l labels -> l <> (-1)%Z ->
                exists k p, nth_error labels k = Some l
                            /\ nth_error X k = Some p
                            /\ core_point eps min_samples X p)
  /\ (forall k l p,
        nth_error labels k = Some l -> nth_error X k = Some p ->
        l <> (-1)%Z ->
        core_point eps min_samples X p
        \/ exists k' q, nth_error labels k' = Some l
                        /\ nth_error X k' = Some q
                        /\ core_point eps min_samples X q
                        /\ dist2 q p <= eps * eps)
  /\ (forall k l p,
        nth_error labels k = Some l -> nth_error X k = Some p ->
        (l = (-1)%Z <->
         forall k' q, nth_error X k' = Some q ->
                      core_point eps min_samples X q ->
                      ~ dist2 q p <= eps * eps)).
Proof.
  cbv zeta. unfold cluster_objects.
  destruct (Nat.eqb_spec (shape0 points) 0) as [Hz|Hnz].
  { simpl. split; [auto|]. split; [now rewrite Hz|]. split; [reflexivity|].
    split; [intros l []|]. split; [intros l []|].
    split; intros [|k] l p H; discriminate H. }
  cbn [fst snd]. rewrite n_clusters_distinct.
  set (X := map xyz (rows points)).
  destruct (clusters_invariant eps min_samples X) as [Hc [Hs [Hr Hp]]].
  destruct (clusters_complete eps min_samples X) as [Hcl Hvis].
  unfold fit_labels.
  destruct (clusters eps min_samples X) as [es c]. cbn [fst snd] in *.
  destruct Hs as [HX [Hcore Hj]].
  assert (Hlab : forall l, In l (map lab es) ->
                           l = (-1)%Z \/ (0 <= l < c)%Z).
  { intros l Hin. apply in_map_iff in Hin as [e [<- Hin]]. now apply Hr. }
  assert (Hwit : forall l, (0 <= l < c)%Z ->
                           exists k e, nth_error es k = Some e /\ lab e = l
                                       /\ core e = true).
  { intros l Hl. destruct (Hp l Hl) as [e [Hin [El Hk]]].
    apply In_nth_error in Hin as [k Hk']. eauto. }
  assert (Hn : Z.of_nat (List.length
                  (distinct (filter (fun l => negb (l =? -1)%Z)
                                    (map lab es)))) = c).
  { apply distinct_count; [assumption|assumption|].
    intros l Hl. destruct (Hp l Hl) as [e [Hin [<- _]]]. now apply in_map. }
  rewrite Hn.
  split; [intros Hz; contradiction|].
  split.
  { unfold shape0. rewrite length_map, <- (length_map xyz (rows points)).
    fold X. rewrite <- HX. now rewrite length_map. }
  split; [reflexivity|]. split; [exact Hlab|].
  assert (Hsound : forall k l p,
             nth_error (map lab es) k = Some l -> nth_error X k = Some p ->
             l <> (-1)%Z ->
             core_point eps min_samples X p
             \/ exists k' q, nth_error (map lab es) k' = Some l
                             /\ nth_error X k' = Some q
                             /\ core_point eps min_samples X q
                             /\ dist2 q p <= eps * eps).
  { intros k l p Hl Hpk Hne.
    rewrite nth_error_map in Hl. rewrite <- HX, nth_error_map in Hpk.
    destruct (nth_error es k) as [e|] eqn:Hk; [|discriminate].
    simpl in Hl, Hpk. injection Hl as <-. injection Hpk as <-.
    pose proof (nth_error_In _ _ Hk) as Hin.
    destruct (Hr e Hin) as [?|Hrange]; [contradiction|].
    destruct (Hj e Hin ltac:(lia)) as [Hcr|Ht].
    + left. apply is_core_iff. now rewrite <- Hcore.
    + right. apply touches_iff in Ht as [e' [Hin' [El [Hcr Hw]]]].
      apply In_nth_error in Hin' as [k' Hk'].
      exists k', (pt e'). split; [|split; [|split]].
      * rewrite nth_error_map, Hk'. simpl. now rewrite El.
      * rewrite <- HX, nth_error_map, Hk'. reflexivity.
      * apply is_core_iff. rewrite <- Hcore; [assumption|].
        now apply nth_error_In in Hk'.
      * now apply Qle_bool_iff. }
  split; [|split; [exact Hsound|]].
  - intros l Hin Hne. destruct (Hlab l Hin) as [?|Hl]; [contradiction|].
    destruct (Hwit l Hl) as [k [e [Hk [El Hcr]]]].
    exists k, (pt e). split; [|split].
    + rewrite nth_error_map, Hk. simpl. now rewrite El.
    + rewrite <- HX, nth_error_map, Hk. reflexivity.
    + apply is_core_iff. rewrite <- Hcore; [assumption|].
      now apply nth_error_In in Hk.
  - intros k l p Hl Hpk. split.
    + intros -> k' q Hq Hcq Hd.
      rewrite nth_error_map in Hl. rewrite <- HX, nth_error_map in Hpk, Hq.
      destruct (nth_error es k) as [e|] eqn:Hk; [|discriminate].
      destruct (nth_error es k') as [e'|] eqn:Hk'; [|discriminate].
      simpl in Hl, Hpk, Hq. injection Hl as Hl. injection Hpk as <-.
      injection Hq as <-.
      pose proof (nth_error_In _ _ Hk) as Hin.
      pose proof (nth_error_In _ _ Hk') as Hin'.
      assert (Hcr : core e' = true).
      { rewrite Hcore by assumption. now apply is_core_iff. }
      assert (Hle : lab e' <> (-1)%Z).
      { apply (Hvis k' e'); [|assumption|assumption].
        apply in_seq.
        assert (Hlt : (k' < List.length es)%nat)
          by (apply nth_error_Some; congruence).
        rewrite <- HX, length_map. lia. }
      destruct (Hr e' Hin') as [?|Hrange]; [contradiction|].
      apply (Hcl e' e Hin' Hin Hcr ltac:(lia)); [|assumption].
      now apply Qle_bool_iff.
    + intros Hnone. destruct (Z.eq_dec l (-1)) as [E|Hne]; [exact E|].
      exfalso.
      destruct (Hsound k l p Hl Hpk Hne) as [Hcp|[k' [q [_ [Hq [Hcq Hd]]]]]].
      * apply (Hnone k p Hpk Hcp).
        destruct p as [[x y] z]. unfold dist2.
        assert (H0 : (x - x) * (x - x) + (y - y) * (y - y)
                     + (z - z) * (z - z) == 0) by ring.
        rewrite H0. nra.
      * exact (Hnone k' q Hq Hcq Hd).
Qed.

End ClusteringFacts.

(** ** The plane fit of section 4.1 *)

Section RANSACFacts.
Import RANSAC.

Lemma fit_in_range (X : list (Q * Q * Q)) (d : Q) (sample : nat * nat * nat)
      (inliers : list nat) :
  fit X d sample = Some inliers ->
  Forall (fun i => (i < List.length X)%nat) inliers.
Proof.
  unfold fit. destruct sample as [[a b] c].
  destruct (nth_error X a); [|discriminate].
  destruct (nth_error X b); [|discriminate].
  destruct (nth_error X c); [|discriminate].
  destruct (Qeq_bool _ 0); [discriminate|].
  intros H. injection H as <-. apply Forall_forall. intros i Hi.
  apply filter_In in Hi as [Hi _]. apply in_seq in Hi. lia.
Qed.

(** The inliers the plane fit returns are positions of the frame, which is
    what [filter_ground_ransac] asks of them. *)
Lemma segment_plane_in_range (g : generator) (X : list (Q * Q * Q)) (d : Q)
      (ransac_n num_iterations : Z) :
  Forall (fun i => (i < List.length X)%nat)
         (fst (segment_plane g X d ransac_n num_iterations)).
Proof.
  unfold segment_plane.
  assert (H : forall k g best,
             Forall (fun i => (i < List.length X)%nat) best ->
             Forall (fun i => (i < List.length X)%nat)
                    (fst (iterations k g X d best))).
  { induction k as [|k IH]; intros g0 best Hb; simpl; [assumption|].
    destruct (fit X d _) as [inliers|] eqn:E; [|now apply IH].
    destruct (List.length best <? List.length inliers)%nat; apply IH;
      [exact (fit_in_range X d _ inliers E)|assumption]. }
  apply H. constructor.
Qed.

End RANSACFacts.

(** ** Two runs of the loop *)

Section Reproducibility.
Import Feature Classifier Tracker GroundFilter ObjectFeatures Clustering Main.

Variable rng1 rng2 : Type.
Variable segment_plane1 :
  rng1 -> list (Q * Q * Q) -> Q -> Z -> Z -> list nat * rng1.
Variable segment_plane2 :
  rng2 -> list (Q * Q * Q) -> Q -> Z -> Z -> list nat * rng2.
Variable DBSCAN_fit : Q -> Z -> list (Q * Q * Q) -> list Z.
Variable related : rng1 -> rng2 -> Prop.

Lemma filter_ground_ransac_agree (g1 : rng1) (g2 : rng2)
      (points : option (ndarray point)) (d : Q) (n k : Z) :
  fits_agree segment_plane1 segment_plane2 related -> related g1 g2 ->
  fst (filter_ground_ransac xyz segment_plane1 g1 points d n k)
  = fst (filter_ground_ransac xyz segment_plane2 g2 points d n k)
  /\ related (snd (filter_ground_ransac xyz segment_plane1 g1 points d n k))
             (snd (filter_ground_ransac xyz segment_plane2 g2 points d n k)).
Proof.
  intros A R. unfold filter_ground_ransac.
  destruct points as [points|]; [|now split].
  destruct (Z.of_nat (shape0 points) <? n)%Z; [now split|].
  destruct (A g1 g2 (map xyz (rows points)) d n k R) as [E R'].
  destruct (segment_plane1 g1 (map xyz (rows points)) d n k) as [i1 g1'].
  destruct (segment_plane2 g2 (map xyz (rows points)) d n k) as [i2 g2'].
  simpl in *. subst i2. now split.
Qed.

Lemma process_frame_agree (t : tracker) (g1 : rng1) (g2 : rng2)
      (frame : option (ndarray point)) :
  fits_agree segment_plane1 segment_plane2 related -> related g1 g2 ->
  same_outcome related
               (process_frame segment_plane1 DBSCAN_fit (t, g1) frame)
               (process_frame segment_plane2 DBSCAN_fit (t, g2) frame).
Proof.
  intros A R. unfold process_frame, same_outcome.
  destruct frame as [points|]; [|now repeat split].
  destruct (filter_ground_ransac_agree
              g1 g2 (Some points) RANSAC_DISTANCE_THRESHOLD default_ransac_n
              default_num_iterations A R) as [E R'].
  destruct (filter_ground_ransac xyz segment_plane1 g1 (Some points) _ _ _)
    as [r1 g1'].
  destruct (filter_ground_ransac xyz segment_plane2 g2 (Some points) _ _ _)
    as [r2 g2'].
  simpl in E, R'. subst r2. destruct r1 as [non_ground|e]; simpl;
    [|reflexivity].
  destruct (Nat.eqb (shape0 non_ground) 0); [now repeat split|].
  destruct (cluster_objects DBSCAN_fit non_ground DBSCAN_EPS
                            DBSCAN_MIN_SAMPLES) as [labels n_clusters].
  destruct (0 <? n_clusters)%Z.
  - destruct (extract_features non_ground labels) as [features|e]; simpl;
      [|reflexivity].
    destruct (classify_features features) as [classified detections].
    destruct (update t detections default_dist_thresh) as [t' tracked].
    destruct (link_features tracked classified) as [linked_features|e];
      simpl; [|reflexivity].
    destruct (output_data linked_features) as [records|e]; simpl;
      [now repeat split|reflexivity].
  - destruct (update t [] default_dist_thresh) as [t' tracked]. simpl.
    now repeat split.
Qed.

(** C6 (amended).  The loop takes no seed.  Its records depend on the
    plane fit only through the inliers it returns: two runs over the same
    frames, from the same tracker, whose plane fits return the same inliers
    frame after frame (as they do when one plane fit starts twice from the
    same generator state) save the same records for the same frames and end
    with the same tracker, or stop with the same exception. *)
Theorem process_frames_reproducible
        (frames : list (option (ndarray point))) (i : nat) (t : tracker)
        (g1 : rng1) (g2 : rng2) :
  fits_agree segment_plane1 segment_plane2 related -> related g1 g2 ->
  same_outcome related
               (process_frames segment_plane1 DBSCAN_fit i (t, g1) frames)
               (process_frames segment_plane2 DBSCAN_fit i (t, g2) frames).
Proof.
  intros A. revert i t g1 g2.
  induction frames as [|frame frames IH]; intros i t g1 g2 R.
  - simpl. now repeat split.
  - cbn [process_frames].
    pose proof (process_frame_agree t g1 g2 frame A R) as H.
    unfold same_outcome in H.
    destruct (process_frame segment_plane1 DBSCAN_fit (t, g1) frame)
      as [[[t1 g1'] saved1]|e1];
      destruct (process_frame segment_plane2 DBSCAN_fit (t, g2) frame)
      as [[[t2 g2'] saved2]|e2]; try contradiction; simpl.
    + destruct H as [<- [<- R']].
      specialize (IH (S i) t1 g1' g2' R'). unfold same_outcome in IH.
      destruct (process_frames segment_plane1 DBSCAN_fit (S i) (t1, g1')
                               frames) as [[[t1' g1''] outs1]|e1];
        destruct (process_frames segment_plane2 DBSCAN_fit (S i) (t1, g2')
                                 frames) as [[[t2' g2''] outs2]|e2];
        try contradiction; simpl; [|exact IH].
      destruct IH as [<- [<- R'']]. now repeat split.
    + exact H.
Qed.

End Reproducibility.

(** ** More on the tracker *)

Section TrackerMore.
Import Tracker TrackerView.

Lemma closest_In (rects : list rect) (pt : Q * Q) (u : list nat) :
  forall best d i,
    fst (closest rects pt u best d) = Some i -> In i u \/ best = Some i.
Proof.
  induction u as [|j u IH]; intros best d i H; simpl in *.
  - now right.
  - destruct (center (nth_rect rects j)) as [cx cy].
    destruct (ltb _ d); apply IH in H as [H|H]; auto.
    injection H as ->. auto.
Qed.

Lemma list_remove_perm (i : nat) (u : list nat) :
  In i u -> Permutation u (i :: list_remove i u).
Proof.
  induction u as [|j u IH]; intros H; [destruct H|]. simpl.
  destruct (Nat.eqb_spec j i) as [->|Hne]; [reflexivity|].
  destruct H as [H|H]; [contradiction|].
  rewrite (IH H) at 1. apply perm_swap.
Qed.

Lemma match_identity_covers (rects : list rect) (thr : Q) (st : frame_state)
      (item : Z * (Q * Q)) :
  covers rects st -> covers rects (match_identity rects thr st item).
Proof.
  destruct item as [obj_id pt]. unfold covers, match_identity. intros C.
  destruct (fst (closest rects pt (unmatched_detections st) None
                         (thresh2 thr))) as [best|] eqn:E; [|exact C].
  apply closest_In in E as [E|E]; [|discriminate].
  destruct (nth_rect rects best) as [[[x y] w] h] eqn:R. simpl.
  eapply Permutation_trans; [|exact C].
  rewrite map_app, <- app_assoc. apply Permutation_app_head.
  apply Permutation_sym.
  eapply Permutation_trans;
    [apply Permutation_map, (list_remove_perm best _ E)|].
  simpl. rewrite R. reflexivity.
Qed.

Lemma map_nth_rect_seq (rects : list rect) :
  map (nth_rect rects) (seq 0 (List.length rects)) = rects.
Proof.
  assert (E : forall (l : list rect) s,
             map (fun i => nth (i - s) l (0, 0, 0, 0)) (seq s (List.length l))
             = l).
  { induction l as [|r l IHl]; intros s; [reflexivity|]. simpl.
    rewrite Nat.sub_diag. f_equal. rewrite <- (IHl (S s)) at 2.
    apply map_ext_in. intros i Hi. apply in_seq in Hi.
    replace (i - s)%nat with (S (i - S s)) by lia. reflexivity. }
  rewrite <- (E rects 0%nat) at 3.
  apply map_ext. intros i. unfold nth_rect. now rewrite Nat.sub_0_r.
Qed.

Lemma match_phase_covers (rects : list rect) (thr : Q) (t : tracker) :
  covers rects (match_phase rects thr t).
Proof.
  rewrite match_phase_fold.
  assert (H : forall items st, covers rects st ->
                covers rects (fold_left (match_identity rects thr) items st)).
  { induction items as [|item items IH]; intros st C; [exact C|].
    simpl. apply IH. now apply match_identity_covers. }
  apply H. unfold covers. simpl. now rewrite map_nth_rect_seq.
Qed.

Lemma spawn_fold_tracked (rects : list rect) (u : list nat) :
  forall (st : frame_state) (idc : Z),
    tracked_objects (fst (fold_left (spawn_identity rects) u (st, idc)))
    = tracked_objects st
      ++ combine (map (nth_rect rects) u) (fresh_ids idc (List.length u)).
Proof.
  induction u as [|i u IH]; intros st idc.
  - simpl. now rewrite app_nil_r.
  - cbn [fold_left List.length map]. unfold spawn_identity at 2.
    destruct (nth_rect rects i) as [[[x y] w] h]. cbn [center].
    rewrite IH, fresh_ids_S. cbn [tracked_objects combine].
    now rewrite <- app_assoc.
Qed.

Lemma map_rect_of_combine (l : list rect) (ids : list Z) :
  List.length l = List.length ids -> map rect_of (combine l ids) = l.
Proof.
  revert ids. induction l as [|a l IH]; intros [|b ids] H;
    try discriminate H; [reflexivity|].
  simpl. f_equal. apply IH. now injection H.
Qed.

Lemma map_tracked_id_combine (l : list rect) (ids : list Z) :
  List.length l = List.length ids -> map tracked_id (combine l ids) = ids.
Proof.
  revert ids. induction l as [|a l IH]; intros [|b ids] H;
    try discriminate H; [reflexivity|].
  simpl. f_equal. apply IH. now injection H.
Qed.

Lemma length_fresh_ids (idc : Z) (n : nat) : List.length (fresh_ids idc n) = n.
Proof. unfold fresh_ids. now rewrite length_map, length_seq. Qed.

Lemma update_covers (t : tracker) (rects : list rect) (thr : Q) :
  Permutation (map rect_of (snd (update t rects thr))) rects.
Proof.
  unfold update, spawn_phase.
  pose proof (match_phase_covers rects thr t) as C.
  set (st := match_phase rects thr t) in *.
  pose proof (spawn_fold_tracked rects (unmatched_detections st) st
                                 (id_count t)) as E.
  destruct (fold_left _ _ _) as [st' idc]. simpl in *.
  rewrite E, map_app.
  rewrite map_rect_of_combine by (now rewrite length_map, length_fresh_ids).
  exact C.
Qed.

(** X1.  Whatever the tracker holds, one call of [update] returns one
    tracked object for every detection it is given: the rectangles of the
    returned list are the given rectangles, each as often as it was given,
    in some order, so the returned list is as long as the detection list. *)
Theorem update_one_object_per_detection (t : tracker) (rects : list rect)
        (thr : Q) :
  Permutation (map rect_of (snd (update t rects thr))) rects
  /\ List.length (snd (update t rects thr)) = List.length rects.
Proof.
  pose proof (update_covers t rects thr) as P.
  split; [exact P|].
  rewrite <- (Permutation_length P). now rewrite length_map.
Qed.

(** *** The nearest detection *)

Lemma closest_cons (rects : list rect) (pt : Q * Q) (i : nat) (u : list nat)
      (best : option nat) (d : Q) :
  closest rects pt (i :: u) best d =
  if ltb (sq_dist pt (nth_rect rects i)) d
  then closest rects pt u (Some i) (sq_dist pt (nth_rect rects i))
  else closest rects pt u best d.
Proof. simpl. unfold sq_dist. now destruct (center (nth_rect rects i)). Qed.

Lemma closest_spec (rects : list rect) (pt : Q * Q) (u : list nat) :
  forall best d,
    let r := closest rects pt u best d in
    (fst r = best /\ snd r = d
     /\ forall j, In j u -> d <= sq_dist pt (nth_rect rects j))
    \/ (exists before i after,
          u = before ++ i :: after
          /\ fst r = Some i /\ snd r = sq_dist pt (nth_rect rects i)
          /\ sq_dist pt (nth_rect rects i) < d
          /\ (forall j, In j before ->
                        sq_dist pt (nth_rect rects i)
                        < sq_dist pt (nth_rect rects j))
          /\ (forall j, In j after ->
                        sq_dist pt (nth_rect rects i)
                        <= sq_dist pt (nth_rect rects j))).
Proof.
  induction u as [|i0 u IH]; intros best d; cbn zeta.
  - left. simpl. split; [reflexivity|]. split; [reflexivity|]. intros j [].
  - rewrite closest_cons.
    destruct (ltb_spec (sq_dist pt (nth_rect rects i0)) d) as [Hlt|Hge].
    + right.
      destruct (IH (Some i0) (sq_dist pt (nth_rect rects i0)))
        as [[E1 [E2 Hall]]|[before [i [after [Eu [E1 [E2 [Hd [Hb Ha]]]]]]]]].
      * exists [], i0, u. simpl.
        split; [reflexivity|]. split; [exact E1|]. split; [exact E2|].
        split; [exact Hlt|]. split; [intros j []|exact Hall].
      * exists (i0 :: before), i, after.
        split; [now rewrite Eu|]. split; [exact E1|]. split; [exact E2|].
        split; [eapply Qlt_trans; eassumption|]. split; [|exact Ha].
        intros j [<-|Hj]; auto.
    + apply Qnot_lt_le in Hge.
      destruct (IH best d)
        as [[E1 [E2 Hall]]|[before [i [after [Eu [E1 [E2 [Hd [Hb Ha]]]]]]]]].
      * left. split; [exact E1|]. split; [exact E2|].
        intros j [<-|Hj]; auto.
      * right. exists (i0 :: before), i, after.
        split; [now rewrite Eu|]. split; [exact E1|]. split; [exact E2|].
        split; [exact Hd|]. split; [|exact Ha].
        intros j [<-|Hj]; auto. eapply Qlt_le_trans; eassumption.
Qed.

Lemma list_remove_middle (i : nat) (before after : list nat) :
  ~ In i before -> list_remove i (before ++ i :: after) = before ++ after.
Proof.
  induction before as [|j before IH]; intros H; simpl.
  - now rewrite Nat.eqb_refl.
  - destruct (Nat.eqb_spec j i) as [->|Hne]; [exfalso; apply H; now left|].
    f_equal. apply IH. intros Hin. apply H. now right.
Qed.

Lemma match_identity_step (rects : list rect) (thr : Q) (st : frame_state)
      (obj_id : Z) (pt : Q * Q) :
  let st' := match_identity rects thr st (obj_id, pt) in
  (exists i,
      sq_dist pt (nth_rect rects i) < thresh2 thr
      /\ tracked_objects st'
         = tracked_objects st ++ [(nth_rect rects i, obj_id)]
      /\ centers st'
         = dict_set obj_id (center (nth_rect rects i)) (centers st))
  \/ st' = st.
Proof.
  cbv zeta. unfold match_identity.
  destruct (closest_spec rects pt (unmatched_detections st) None
                         (thresh2 thr))
    as [[E1 _]|[before [i [after [Eu [E1 [E2 [Hd _]]]]]]]].
  - right. now rewrite E1.
  - left. exists i. rewrite E1. revert Hd.
    destruct (nth_rect rects i) as [[[x y] w] h]. intros Hd.
    split; [exact Hd|]. split; reflexivity.
Qed.

(** X2.  One round of the loop over the stored identities, for the
    identity [obj_id] stored at [pt].  Either some unmatched detection lies
    strictly nearer to [pt] than [dist_thresh] (distances compared on their
    squares): then the round takes a nearest one, of several equally near
    ones the first in the list of unmatched detections, returns it under
    [obj_id], stores its centre under [obj_id] and removes it from the
    unmatched detections.  Or no unmatched detection lies strictly nearer
    than [dist_thresh], and the round changes nothing. *)
Theorem match_identity_nearest (rects : list rect) (dist_thresh : Q)
        (st : frame_state) (obj_id : Z) (pt : Q * Q) :
  let st' := match_identity rects dist_thresh st (obj_id, pt) in
  let dist2 := fun j => sq_dist pt (nth_rect rects j) in
  (exists before i after,
      unmatched_detections st = before ++ i :: after
      /\ dist2 i < thresh2 dist_thresh
      /\ (forall j, In j before -> dist2 i < dist2 j)
      /\ (forall j, In j after -> dist2 i <= dist2 j)
      /\ tracked_objects st'
         = tracked_objects st ++ [(nth_rect rects i, obj_id)]
      /\ centers st'
         = dict_set obj_id (center (nth_rect rects i)) (centers st)
      /\ unmatched_detections st' = before ++ after)
  \/ ((forall j, In j (unmatched_detections st) ->
                 thresh2 dist_thresh <= dist2 j)
      /\ st' = st).
Proof.
  cbv zeta. unfold match_identity.
  destruct (closest_spec rects pt (unmatched_detections st) None
                         (thresh2 dist_thresh))
    as [[E1 [E2 Hall]]|[before [i [after [Eu [E1 [E2 [Hd [Hb Ha]]]]]]]]].
  - right. rewrite E1. split; [exact Hall|reflexivity].
  - left. exists before, i, after. rewrite E1.
    destruct (nth_rect rects i) as [[[x y] w] h] eqn:R.
    cbn [center tracked_objects centers unmatched_detections].
    repeat split; auto.
    rewrite Eu. apply list_remove_middle. intros Hin.
    apply Hb in Hin. rewrite R in Hin. lra.
Qed.

(** *** No match at all *)

Lemma hypot2_nonneg (dx dy : Q) : 0 <= hypot2 dx dy.
Proof. unfold hypot2. nra. Qed.

Lemma sq_dist_nonneg (pt : Q * Q) (r : rect) : 0 <= sq_dist pt r.
Proof.
  unfold sq_dist. destruct (center r) as [cx cy]. apply hypot2_nonneg.
Qed.

Lemma thresh2_nonpositive (thr : Q) : thr <= 0 -> thresh2 thr = 0.
Proof.
  intros H. unfold thresh2. destruct (ltb_spec 0 thr) as [H0|H0]; [lra|].
  reflexivity.
Qed.

Lemma match_identity_nonpositive (rects : list rect) (thr : Q)
      (st : frame_state) (item : Z * (Q * Q)) :
  thr <= 0 -> match_identity rects thr st item = st.
Proof.
  intros H. destruct item as [obj_id pt].
  destruct (match_identity_step rects thr st obj_id pt)
    as [[i [Hd _]]|E]; [|exact E].
  rewrite thresh2_nonpositive in Hd by exact H.
  pose proof (sq_dist_nonneg pt (nth_rect rects i)). lra.
Qed.

Lemma match_phase_idle (t : tracker) (rects : list rect) (thr : Q) :
  center_points t = [] \/ thr <= 0 ->
  match_phase rects thr t =
  mk_frame_state (center_points t) [] (seq 0 (List.length rects)).
Proof.
  intros [E|H]; rewrite match_phase_fold; [now rewrite E|].
  generalize (mk_frame_state (center_points t) []
                             (seq 0 (List.length rects))).
  induction (center_points t) as [|item items IH]; intros st; [reflexivity|].
  simpl. rewrite match_identity_nonpositive by exact H. apply IH.
Qed.

Lemma update_unfold (t : tracker) (rects : list rect) (thr : Q) :
  let st := match_phase rects thr t in
  snd (update t rects thr)
  = tracked_objects st
    ++ combine (map (nth_rect rects) (unmatched_detections st))
               (fresh_ids (id_count t)
                          (List.length (unmatched_detections st)))
  /\ id_count (fst (update t rects thr))
     = (id_count t + Z.of_nat (List.length (unmatched_detections st)))%Z.
Proof.
  cbv zeta. unfold update, spawn_phase.
  set (st := match_phase rects thr t).
  pose proof (spawn_fold_tracked rects (unmatched_detections st) st
                                 (id_count t)) as E.
  destruct (spawn_fold_spec rects (unmatched_detections st) st (id_count t))
    as [Hc _].
  destruct (fold_left _ _ _) as [st' idc]. simpl in *. now subst idc.
Qed.

(** X3.  When the tracker holds no identity, or when [dist_thresh] is not
    positive, nothing is matched: every detection becomes a new identity;
    the returned list is the detections in input order with the next values
    of the counter, and the counter advances by their number. *)
Theorem update_all_new (t : tracker) (rects : list rect) (dist_thresh : Q) :
  center_points t = [] \/ dist_thresh <= 0 ->
  snd (update t rects dist_thresh) = all_new (id_count t) rects
  /\ id_count (fst (update t rects dist_thresh))
     = (id_count t + Z.of_nat (List.length rects))%Z.
Proof.
  intros H. destruct (update_unfold t rects dist_thresh) as [E C].
  rewrite E, C, (match_phase_idle t rects dist_thresh H). simpl.
  rewrite map_nth_rect_seq, length_seq. split; reflexivity.
Qed.

(** *** Ids and stored centres *)

Lemma dict_get_set_eq (k : Z) (v : Q * Q) (d : dict) :
  dict_get k (dict_set k v d) = Some v.
Proof.
  induction d as [|[k0 v0] d IH]; simpl; [now rewrite Z.eqb_refl|].
  destruct (Z.eqb_spec k0 k) as [->|Hne]; simpl.
  - now rewrite Z.eqb_refl.
  - destruct (Z.eqb_spec k0 k); [contradiction|exact IH].
Qed.

Lemma dict_get_set_ne (k k' : Z) (v : Q * Q) (d : dict) :
  k <> k' -> dict_get k' (dict_set k v d) = dict_get k' d.
Proof.
  intros Hne. induction d as [|[k0 v0] d IH]; simpl.
  - destruct (Z.eqb_spec k k'); [contradiction|reflexivity].
  - destruct (Z.eqb_spec k0 k) as [->|Hne0]; simpl.
    + destruct (Z.eqb_spec k k'); [contradiction|reflexivity].
    + now rewrite IH.
Qed.

Lemma dict_get_filter (p : Z -> bool) (k : Z) (d : dict) :
  p k = true ->
  dict_get k (filter (fun item => p (fst item)) d) = dict_get k d.
Proof.
  intros Hp. induction d as [|[k0 v0] d IH]; simpl; [reflexivity|].
  destruct (Z.eqb_spec k0 k) as [->|Hne].
  - rewrite Hp. simpl. now rewrite Z.eqb_refl.
  - destruct (p k0); simpl; [|exact IH].
    destruct (Z.eqb_spec k0 k); [contradiction|exact IH].
Qed.

Lemma match_identity_ids (rects : list rect) (thr : Q) (st : frame_state)
      (k : Z) (pt : Q * Q) :
  ~ In k (map tracked_id (tracked_objects st)) ->
  NoDup (map tracked_id (tracked_objects st)) ->
  stored st ->
  let st' := match_identity rects thr st (k, pt) in
  NoDup (map tracked_id (tracked_objects st'))
  /\ stored st'
  /\ forall k', In k' (map tracked_id (tracked_objects st')) ->
                k' = k \/ In k' (map tracked_id (tracked_objects st)).
Proof.
  intros Hk N S. cbv zeta.
  destruct (match_identity_step rects thr st k pt)
    as [[i [_ [ET EC]]]|E];
    [|rewrite E; split; [exact N|split; [exact S|auto]]].
  rewrite ET. split; [|split].
  - rewrite map_app. simpl. apply NoDup_app; [exact N|repeat constructor; auto|].
    intros a Ha [<-|[]]. contradiction.
  - intros o Ho. rewrite ET in Ho. rewrite EC.
    apply in_app_or in Ho as [Ho|[<-|[]]].
    + rewrite dict_get_set_ne; [now apply S|].
      intros ->. apply Hk. now apply in_map.
    + apply dict_get_set_eq.
  - intros k' Hk'. rewrite map_app in Hk'.
    apply in_app_or in Hk' as [Hk'|[<-|[]]]; auto.
Qed.

Lemma match_fold_ids (rects : list rect) (thr : Q) (items : dict) :
  forall st : frame_state,
    NoDup (dict_keys items) ->
    (forall k, In k (dict_keys items) ->
               ~ In k (map tracked_id (tracked_objects st))) ->
    NoDup (map tracked_id (tracked_objects st)) ->
    stored st ->
    let st' := fold_left (match_identity rects thr) items st in
    NoDup (map tracked_id (tracked_objects st')) /\ stored st'.
Proof.
  induction items as [|[k pt] items IH]; intros st NK D N S; [now split|].
  simpl in NK. inversion NK as [|? ? Hk NK']; subst.
  destruct (match_identity_ids rects thr st k pt) as [N' [S' I']]; auto.
  { apply D. now left. }
  cbn [fold_left]. apply IH; auto.
  intros k' Hk' Hin. apply I' in Hin as [->|Hin]; [contradiction|].
  apply (D k'); [now right|exact Hin].
Qed.

Lemma spawn_fold_stored (rects : list rect) (u : list nat) :
  forall (st : frame_state) (idc : Z),
    (forall o, In o (tracked_objects st) -> (tracked_id o <= idc)%Z) ->
    stored st ->
    stored (fst (fold_left (spawn_identity rects) u (st, idc))).
Proof.
  induction u as [|i u IH]; intros st idc B S; [exact S|].
  cbn [fold_left]. unfold spawn_identity at 2.
  destruct (nth_rect rects i) as [[[x y] w] h]. cbn [center].
  apply IH; cbn [tracked_objects centers].
  - intros o Ho. apply in_app_or in Ho as [Ho|[<-|[]]].
    + apply B in Ho. lia.
    + unfold tracked_id. simpl. lia.
  - intros o Ho. cbn [tracked_objects centers] in *.
    apply in_app_or in Ho as [Ho|[<-|[]]].
    + rewrite dict_get_set_ne; [now apply S|].
      apply B in Ho. lia.
    + apply dict_get_set_eq.
Qed.

Lemma positive_bounded (t : tracker) : positive t -> bounded t.
Proof. intros [_ H] k Hk. apply H in Hk. lia. Qed.

Lemma positive_init : positive init.
Proof. split; [simpl; lia|intros k []]. Qed.

Lemma update_positive (t : tracker) (rects : list rect) (thr : Q) :
  positive t ->
  positive (fst (update t rects thr))
  /\ Forall (fun o => (1 <= tracked_id o)%Z) (snd (update t rects thr)).
Proof.
  intros [H0 HK].
  destruct (update_spec t rects thr) as [M [E [HM [HS [Hc HI]]]]].
  assert (F : forall o, In o (snd (update t rects thr)) ->
                        (1 <= tracked_id o
                         <= id_count (fst (update t rects thr)))%Z).
  { intros o Ho. rewrite E in Ho. rewrite Hc.
    apply in_app_or in Ho as [Ho|Ho].
    - apply HM, HK in Ho. lia.
    - apply (in_map tracked_id) in Ho. rewrite HS in Ho.
      apply fresh_ids_bounds in Ho. lia. }
  split; [split|].
  - rewrite Hc. lia.
  - intros k Hk. apply HI, in_map_iff in Hk as [o [<- Ho]]. now apply F.
  - apply Forall_forall. intros o Ho. apply F in Ho. lia.
Qed.

Lemma run_positive (calls : list (list rect * Q)) :
  forall t : tracker, positive t -> positive (fst (run t calls)).
Proof.
  induction calls as [|[rects thr] calls IH]; intros t P; [exact P|].
  rewrite run_cons. simpl. apply IH. now apply update_positive.
Qed.

Lemma update_ids_stored (t : tracker) (rects : list rect) (thr : Q) :
  positive t -> NoDup (dict_keys (center_points t)) ->
  NoDup (map tracked_id (snd (update t rects thr)))
  /\ Forall (fun o =>
               dict_get (tracked_id o)
                        (center_points (fst (update t rects thr)))
               = Some (center (rect_of o)))
            (snd (update t rects thr)).
Proof.
  intros P NK.
  pose proof (positive_bounded t P) as B.
  destruct (update_unfold t rects thr) as [E _]. cbv zeta in E.
  assert (HM : NoDup (map tracked_id
                          (tracked_objects (match_phase rects thr t)))
               /\ stored (match_phase rects thr t)).
  { rewrite match_phase_fold. apply match_fold_ids; simpl; auto.
    - constructor.
    - intros o []. }
  destruct HM as [NM SM].
  assert (IM : forall o, In o (tracked_objects (match_phase rects thr t)) ->
                         (tracked_id o <= id_count t)%Z).
  { rewrite match_phase_fold.
    destruct (match_fold_spec rects thr (center_points t)
                (mk_frame_state (center_points t) []
                                (seq 0 (List.length rects))))
      as [_ [T [ET HT]]]; [tauto|].
    rewrite ET. simpl. intros o Ho. apply HT, B in Ho. exact Ho. }
  split.
  - rewrite E, map_app. apply NoDup_app; [exact NM| |].
    + set (u := unmatched_detections (match_phase rects thr t)).
      assert (EI : map tracked_id
                     (combine (map (nth_rect rects) u)
                              (fresh_ids (id_count t) (List.length u)))
                   = fresh_ids (id_count t) (List.length u)).
      { apply map_tracked_id_combine.
        now rewrite length_map, length_fresh_ids. }
      rewrite EI. unfold fresh_ids.
      apply Injective_map_NoDup; [|apply seq_NoDup].
      intros a b Hab. lia.
    + intros k Hk Hf. apply in_map_iff in Hk as [o [<- Ho]]. apply IM in Ho.
      apply in_map_iff in Hf as [o' [Eo Ho']].
      destruct o' as [r' id']. apply in_combine_r, fresh_ids_bounds in Ho'.
      unfold tracked_id in *. simpl in *. lia.
  - apply Forall_forall. intros o Ho.
    unfold update, spawn_phase in *.
    set (st := match_phase rects thr t) in *.
    pose proof (spawn_fold_stored rects (unmatched_detections st) st
                                  (id_count t) IM SM) as S2.
    destruct (fold_left _ _ _) as [st2 idc]. cbn [fst snd center_points] in *.
    rewrite (dict_get_filter
               (fun k => existsb (Z.eqb k)
                                 (map tracked_id (tracked_objects st2)))).
    + now apply S2.
    + apply existsb_eqb. now apply in_map.
Qed.

(** X4.  After any sequence of calls on a fresh tracker, the ids in the
    list a call returns are pairwise different and at least 1; the -1 that
    the processing loop gives a feature without id is never a tracker id. *)
Theorem update_ids_distinct_positive (calls : list (list rect * Q))
        (rects : list rect) (thr : Q) :
  let out := snd (update (fst (run init calls)) rects thr) in
  NoDup (map tracked_id out)
  /\ Forall (fun o => (1 <= tracked_id o)%Z) out.
Proof.
  cbv zeta.
  pose proof (run_positive calls init positive_init) as P.
  split.
  - apply update_ids_stored; [exact P|].
    apply run_NoDup; [apply bounded_init|constructor].
  - now apply update_positive.
Qed.

(** X5.  After any sequence of calls on a fresh tracker, when a call
    returns, the centre stored under the id of every returned object is the
    centre [(x + w/2, y + h/2)] of that object's rectangle. *)
Theorem update_stores_centres (calls : list (list rect * Q))
        (rects : list rect) (thr : Q) :
  let t := fst (run init calls) in
  Forall (fun o =>
            dict_get (tracked_id o) (center_points (fst (update t rects thr)))
            = Some (center (rect_of o)))
         (snd (update t rects thr)).
Proof.
  cbv zeta. apply update_ids_stored.
  - apply run_positive, positive_init.
  - apply run_NoDup; [apply bounded_init|constructor].
Qed.

End TrackerMore.

(** ** A scene that does not move *)

Section StationaryFacts.
Import Tracker TrackerView Stationary.

Lemma sq_dist_own (r : rect) : sq_dist (center r) r == 0.
Proof.
  unfold sq_dist. destruct (center r) as [cx cy]. unfold hypot2. simpl. ring.
Qed.

Lemma distinct_centres_nth (rects : list rect) (i j : nat) :
  distinct_centres rects ->
  (i < List.length rects)%nat -> (j < List.length rects)%nat -> i <> j ->
  0 < sq_dist (center (nth_rect rects i)) (nth_rect rects j).
Proof.
  unfold nth_rect. intros D. revert i j.
  induction D as [|r rects F D IH]; intros i j Hi Hj Hne; simpl in *; [lia|].
  rewrite Forall_forall in F.
  destruct i as [|i], j as [|j]; [congruence| | |].
  - apply F. apply nth_In. lia.
  - apply F. apply nth_In. lia.
  - apply IH; lia.
Qed.

Lemma dict_get_In (k : Z) (v : Q * Q) (d : dict) :
  NoDup (dict_keys d) -> In (k, v) d -> dict_get k d = Some v.
Proof.
  induction d as [|[k0 v0] d IH]; simpl; intros N; [tauto|].
  inversion N as [|? ? Hk N']; subst.
  intros [[= -> ->]|Hin].
  - now rewrite Z.eqb_refl.
  - destruct (Z.eqb_spec k0 k) as [->|_]; [|auto].
    exfalso. apply Hk. now apply (in_map fst) in Hin.
Qed.

Lemma dict_set_same (k : Z) (v : Q * Q) (d : dict) :
  dict_get k d = Some v -> dict_set k v d = d.
Proof.
  induction d as [|[k0 v0] d IH]; simpl; [discriminate|].
  destruct (Z.eqb_spec k0 k) as [->|Hne].
  - now intros [= ->].
  - intros H. now rewrite IH.
Qed.

Lemma thresh2_positive (thr : Q) : 0 < thr -> 0 < thresh2 thr.
Proof.
  intros H. unfold thresh2. destruct (ltb_spec 0 thr) as [H1|H0].
  - nra.
  - contradiction.
Qed.

Lemma list_remove_In (i j : nat) (u : list nat) :
  NoDup u -> (In j (list_remove i u) <-> In j u /\ j <> i).
Proof.
  induction u as [|x u IH]; simpl; intros N; [tauto|].
  inversion N as [|? ? Hx N']; subst.
  destruct (Nat.eqb_spec x i) as [->|Hne].
  - split; [|intros [[->|H] Hne]; [congruence|exact H]].
    intros H. split; [now right|]. intros ->. contradiction.
  - simpl. rewrite (IH N'). split.
    + intros [->|[H1 H2]]; auto.
    + intros [[->|H1] H2]; auto.
Qed.

Lemma list_remove_NoDup (i : nat) (u : list nat) :
  NoDup u -> NoDup (list_remove i u).
Proof.
  induction u as [|x u IH]; simpl; intros N; [constructor|].
  inversion N as [|? ? Hx N']; subst.
  destruct (Nat.eqb x i); [exact N'|].
  constructor; [|auto]. intros H. apply list_remove_In in H; tauto.
Qed.

(** One round for an identity whose own detection is still unmatched: its
    centre is the stored centre, and every other unmatched detection has
    another centre. *)
Lemma match_identity_own (rects : list rect) (thr : Q) (st : frame_state)
      (k : Z) (i : nat) :
  0 < thr -> distinct_centres rects ->
  (forall j, In j (unmatched_detections st) -> (j < List.length rects)%nat) ->
  In i (unmatched_detections st) ->
  match_identity rects thr st (k, center (nth_rect rects i))
  = mk_frame_state
      (dict_set k (center (nth_rect rects i)) (centers st))
      (tracked_objects st ++ [(nth_rect rects i, k)])
      (list_remove i (unmatched_detections st)).
Proof.
  intros Hthr D R Hi.
  pose proof (thresh2_positive thr Hthr) as Ht.
  pose proof (sq_dist_own (nth_rect rects i)) as Own.
  unfold match_identity.
  destruct (closest_spec rects (center (nth_rect rects i))
                         (unmatched_detections st) None (thresh2 thr))
    as [[_ [_ Hall]]|[before [i' [after [Eu [E1 [_ [Hd [Hb Ha]]]]]]]]].
  { exfalso. specialize (Hall i Hi). rewrite Own in Hall. lra. }
  rewrite E1.
  assert (Ei : i' = i).
  { destruct (Nat.eq_dec i' i) as [E|Hne]; [exact E|exfalso].
    assert (Hi' : In i' (unmatched_detections st)).
    { rewrite Eu. apply in_or_app. right. now left. }
    pose proof (distinct_centres_nth rects i i' D (R i Hi) (R i' Hi')
                                     (not_eq_sym Hne)) as Hpos.
    rewrite Eu in Hi. apply in_app_or in Hi as [Hi|[Hi|Hi]].
    - apply Hb in Hi. rewrite Own in Hi. lra.
    - congruence.
    - apply Ha in Hi. rewrite Own in Hi. lra. }
  subst i'. destruct (nth_rect rects i) as [[[x y] w] h]. reflexivity.
Qed.

Lemma match_fold_own (rects : list rect) (thr : Q) (d : dict)
      (items : dict) :
  0 < thr -> distinct_centres rects ->
  forall (idx : list nat) (st : frame_state),
    Forall2 (placed rects d) items idx ->
    NoDup idx ->
    centers st = d ->
    NoDup (unmatched_detections st) ->
    (forall j, In j (unmatched_detections st) ->
               (j < List.length rects)%nat) ->
    (forall i, In i idx -> In i (unmatched_detections st)) ->
    let st' := fold_left (match_identity rects thr) items st in
    centers st' = d
    /\ tracked_objects st'
       = tracked_objects st
         ++ map (fun p => (nth_rect rects (snd p), fst (fst p)))
                (combine items idx)
    /\ (forall j, In j (unmatched_detections st')
                  <-> In j (unmatched_detections st) /\ ~ In j idx).
Proof.
  intros Hthr D. induction items as [|[k pt] items IH];
    intros idx st F N C NU R Hin; inversion F as [|? i ? idx' P F']; subst.
  - simpl. rewrite app_nil_r. split; [reflexivity|]. split; [reflexivity|].
    intros j. tauto.
  - inversion N as [|? ? Hi N']; subst.
    destruct P as [Hlt [Ept Hget]]. simpl in Ept, Hget. subst pt.
    cbn [fold_left].
    rewrite match_identity_own; auto; [|apply Hin; now left].
    rewrite (dict_set_same _ _ _ Hget).
    destruct (IH idx' (mk_frame_state
                         (centers st)
                         (tracked_objects st ++ [(nth_rect rects i, k)])
                         (list_remove i (unmatched_detections st))))
      as [C' [T' U']]; auto.
    + now apply list_remove_NoDup.
    + intros j Hj. apply list_remove_In in Hj; [|exact NU]. apply R. tauto.
    + intros j Hj. apply list_remove_In; [exact NU|].
      split; [apply Hin; now right|]. intros ->. contradiction.
    + split; [exact C'|]. split.
      * rewrite T'. cbn [tracked_objects combine map fst snd].
        now rewrite <- app_assoc.
      * intros j. rewrite U'. cbn [unmatched_detections].
        rewrite list_remove_In by exact NU. simpl.
        split; [intros [[H1 H2] H3]|intros [H1 H2]].
        -- split; [exact H1|]. intros [->|H]; tauto.
        -- split; [split; [exact H1|]|]; intros H; apply H2; auto.
Qed.

Lemma apart_irrefl (r : rect) : ~ apart r r.
Proof. intros [H _]. rewrite sq_dist_own in H. lra. Qed.

Lemma distinct_centres_NoDup (rects : list rect) :
  distinct_centres rects -> NoDup rects.
Proof.
  induction 1 as [|r rects F D IH]; constructor; [|exact IH].
  intros Hin. rewrite Forall_forall in F. exact (apart_irrefl r (F r Hin)).
Qed.

Lemma NoDup_map_inj {A B : Type} (f : A -> B) (l : list A) (a b : A) :
  NoDup (map f l) -> In a l -> In b l -> f a = f b -> a = b.
Proof.
  induction l as [|x l IH]; simpl; intros N; [tauto|].
  inversion N as [|? ? Hx N']; subst.
  intros [->|Ha] [->|Hb] E; auto.
  - exfalso. apply Hx. rewrite E. now apply in_map.
  - exfalso. apply Hx. rewrite <- E. now apply in_map.
Qed.

Lemma Forall2_choice {A B : Type} (R : A -> B -> Prop) (l : list A) :
  (forall a, In a l -> exists b, R a b) -> exists l', Forall2 R l l'.
Proof.
  induction l as [|a l IH]; intros H.
  - exists []. constructor.
  - destruct (H a (or_introl eq_refl)) as [b Hb].
    destruct IH as [l' Hl']; [intros x Hx; apply H; now right|].
    exists (b :: l'). now constructor.
Qed.

Lemma Forall2_NoDup {A B : Type} (R : A -> B -> Prop) (f : A -> Z)
      (l : list A) (l' : list B) :
  Forall2 R l l' -> NoDup (map f l) ->
  (forall a a' b, In a l -> In a' l -> R a b -> R a' b -> f a = f a') ->
  NoDup l'.
Proof.
  induction 1 as [|a b l l' Hab F IH]; intros N Inj; [constructor|].
  simpl in N. inversion N as [|? ? Ha N']; subst.
  constructor.
  - intros Hb. destruct (Forall2_In_r _ _ _ b F Hb) as [a' [Ha' Ra']].
    apply Ha. rewrite (Inj a a' b); [now apply in_map|now left|now right| |];
      assumption.
  - apply IH; [exact N'|].
    intros x x' y Hx Hx'. apply Inj; now right.
Qed.

Lemma Forall2_combine_In {A B : Type} (R : A -> B -> Prop)
      (l : list A) (l' : list B) :
  Forall2 R l l' -> forall a b, In (a, b) (combine l l') -> R a b.
Proof.
  induction 1 as [|x y l l' Hxy F IH]; intros a b Hin; [destruct Hin|].
  destruct Hin as [[= <- <-]|Hin]; [exact Hxy|]. now apply IH.
Qed.

Lemma filter_all {A : Type} (p : A -> bool) (l : list A) :
  (forall x, In x l -> p x = true) -> filter p l = l.
Proof.
  induction l as [|x l IH]; intros H; [reflexivity|]. simpl.
  rewrite (H x (or_introl eq_refl)). f_equal. apply IH.
  intros y Hy. apply H. now right.
Qed.

Lemma map_id_combine (items : dict) (idx : list nat) (rects : list rect) :
  List.length items = List.length idx ->
  map tracked_id
      (map (fun p : Z * (Q * Q) * nat =>
              (nth_rect rects (snd p), fst (fst p)))
           (combine items idx))
  = dict_keys items.
Proof.
  revert idx. induction items as [|item items IH]; intros [|i idx] H;
    try discriminate H; [reflexivity|].
  simpl. f_equal. apply IH. now injection H.
Qed.

(** A second call with the same detections, after a first call on a
    tracker reached from a fresh one. *)
Lemma update_again (t : tracker) (rects : list rect) (thr : Q) :
  positive t -> NoDup (dict_keys (center_points t)) ->
  0 < thr -> distinct_centres rects ->
  let r1 := update t rects thr in
  let r2 := update (fst r1) rects thr in
  fst r2 = fst r1 /\ Permutation (snd r2) (snd r1).
Proof.
  intros P NK Hthr D. cbv zeta.
  pose proof (positive_bounded t P) as B.
  destruct (update_ids_stored t rects thr P NK) as [NI St].
  destruct (update_spec t rects thr) as [_ [_ [_ [_ [_ HI]]]]].
  pose proof (update_NoDup t rects thr B NK) as NK1.
  pose proof (update_covers t rects thr) as Cov.
  set (t1 := fst (update t rects thr)) in *.
  set (out1 := snd (update t rects thr)) in *.
  set (d1 := center_points t1) in *.
  rewrite Forall_forall in St.
  assert (Len1 : List.length out1 = List.length rects).
  { rewrite <- (Permutation_length Cov). now rewrite length_map. }
  assert (Lend : List.length d1 = List.length rects).
  { rewrite <- Len1, <- (length_map fst d1), <- (length_map tracked_id out1).
    apply Permutation_length, NoDup_Permutation; auto. }
  (* the position of every stored identity *)
  destruct (Forall2_choice
              (fun item i => placed rects d1 item i
                             /\ In (nth_rect rects i, fst item) out1) d1)
    as [idx F].
  { intros [k pt] Hin.
    assert (Hk : In k (dict_keys d1)) by (now apply (in_map fst) in Hin).
    apply HI, in_map_iff in Hk as [o [Eo Ho]].
    pose proof (St o Ho) as Hget. rewrite Eo in Hget.
    rewrite (dict_get_In k pt d1 NK1 Hin) in Hget. injection Hget as Ept.
    assert (Hr : In (rect_of o) rects).
    { apply (Permutation_in _ Cov). now apply in_map. }
    destruct (In_nth _ _ (0, 0, 0, 0) Hr) as [i [Hi Ei]].
    change (nth_rect rects i = rect_of o) in Ei.
    exists i. unfold placed. cbn [fst snd]. rewrite Ei.
    split; [split; [exact Hi|split; [exact Ept|]]|].
    - now apply dict_get_In.
    - destruct o as [r id]. simpl in *. now subst. }
  assert (Fp : Forall2 (placed rects d1) d1 idx).
  { eapply Forall2_impl; [|exact F]. simpl. tauto. }
  assert (Lidx : List.length idx = List.length rects).
  { rewrite <- Lend. symmetry. exact (Forall2_length F). }
  assert (Nrects : NoDup (map rect_of out1)).
  { apply (Permutation_NoDup (Permutation_sym Cov)).
    now apply distinct_centres_NoDup. }
  assert (Nidx : NoDup idx).
  { apply (Forall2_NoDup _ fst _ _ F NK1).
    intros [k pt] [k' pt'] i _ _ [_ Ho] [_ Ho']. simpl in *.
    pose proof (NoDup_map_inj rect_of out1 _ _ Nrects Ho Ho' eq_refl) as E.
    now injection E. }
  assert (Hlt : forall i, In i idx -> In i (seq 0 (List.length rects))).
  { intros i Hi. destruct (Forall2_In_r _ _ _ i Fp Hi) as [item [_ [H _]]].
    apply in_seq. lia. }
  assert (Hall : forall j, In j (seq 0 (List.length rects)) -> In j idx).
  { apply NoDup_length_incl; [exact Nidx| |exact Hlt].
    rewrite length_seq. lia. }
  (* the second call *)
  destruct (match_fold_own rects thr d1 d1 Hthr D idx
              (mk_frame_state d1 [] (seq 0 (List.length rects))))
    as [C2 [T2 U2]]; auto.
  { apply seq_NoDup. }
  { intros j Hj. apply in_seq in Hj. simpl in Hj. lia. }
  cbn [tracked_objects unmatched_detections app] in T2, U2.
  unfold update, spawn_phase. rewrite match_phase_fold. fold d1.
  set (st2 := fold_left (match_identity rects thr) d1 _) in *.
  assert (EU : unmatched_detections st2 = []).
  { destruct (unmatched_detections st2) as [|j u]; [reflexivity|].
    exfalso. destruct (proj1 (U2 j) (or_introl eq_refl)) as [H1 H2].
    apply H2, Hall, H1. }
  rewrite EU. cbn [fold_left fst snd].
  assert (Ids : map tracked_id (tracked_objects st2) = dict_keys d1).
  { rewrite T2. apply map_id_combine. now rewrite Lend, Lidx. }
  split.
  - rewrite C2, Ids.
    rewrite (filter_all (fun item : Z * (Q * Q) =>
                           existsb (Z.eqb (fst item)) (dict_keys d1))).
    + unfold d1. now destruct t1.
    + intros [k pt] Hin. apply existsb_eqb. now apply (in_map fst) in Hin.
  - apply NoDup_Permutation_bis.
    + apply (NoDup_map_inv tracked_id). rewrite Ids. exact NK1.
    + rewrite <- (length_map tracked_id (tracked_objects st2)), Ids.
      unfold dict_keys. rewrite length_map. lia.
    + rewrite T2. intros o Ho. apply in_map_iff in Ho as [[item i] [<- Hp]].
      simpl. pose proof (in_combine_l _ _ _ _ Hp) as Hitem.
      exact (proj2 (Forall2_combine_In _ _ _ F item i Hp)).
Qed.

(** X22.  A scene that does not move keeps its ids.  When the detections
    of a frame have pairwise different centres and [dist_thresh] is positive,
    a second call of [update] with the same detections returns the objects of
    the first call, every rectangle under the id it had, and leaves the
    stored centres and the counter as the first call left them: no new id is
    given. *)
Theorem update_stationary (calls : list (list rect * Q))
        (rects : list rect) (thr : Q) :
  0 < thr -> distinct_centres rects ->
  let t := fst (run init calls) in
  let r1 := update t rects thr in
  let r2 := update (fst r1) rects thr in
  fst r2 = fst r1 /\ Permutation (snd r2) (snd r1).
Proof.
  intros Hthr D. apply update_again; [| |exact Hthr|exact D].
  - apply run_positive, positive_init.
  - apply run_NoDup; [apply bounded_init|constructor].
Qed.

End StationaryFacts.

(** ** More on feature extraction *)

Section FeatureMore.
Import Feature ObjectFeatures FeatureView.

(** *** Labels and points of different length *)

Lemma features_loop_mismatch (points : list point) (labels : list Z)
      (unique_labels : list Z) :
  List.length labels <> List.length points ->
  Exists (fun l => l <> (-1)%Z) unique_labels ->
  features_loop points labels unique_labels = Raise IndexError.
Proof.
  intros Hne. induction 1 as [l rest Hl|l rest Hex IH]; simpl.
  - destruct (Z.eqb_spec l (-1)) as [E|_]; [contradiction|].
    unfold mask_rows. rewrite length_map.
    destruct (Nat.eqb_spec (List.length labels) (List.length points));
      [contradiction|reflexivity].
  - destruct (l =? -1)%Z; [exact IH|].
    unfold mask_rows. rewrite length_map.
    destruct (Nat.eqb_spec (List.length labels) (List.length points));
      [contradiction|reflexivity].
Qed.

Lemma features_loop_noise (points : list point) (labels : list Z)
      (unique_labels : list Z) :
  Forall (fun l => l = (-1)%Z) unique_labels ->
  features_loop points labels unique_labels = Ok [].
Proof.
  induction 1 as [|l rest Hl _ IH]; [reflexivity|].
  simpl. subst l. exact IH.
Qed.

(** X6.  When [labels] and [points] differ in length, [extract_features]
    raises [IndexError] as soon as some label is not -1 (the boolean mask
    does not fit the array); when every label is -1, whatever the lengths,
    it returns the empty list. *)
Theorem extract_features_length_mismatch (points : ndarray point)
        (labels : list Z) :
  (List.length labels <> shape0 points ->
   Exists (fun l => l <> (-1)%Z) labels ->
   extract_features points labels = Raise IndexError)
  /\ (Forall (fun l => l = (-1)%Z) labels ->
      extract_features points labels = Ok []).
Proof.
  unfold extract_features. split.
  - intros Hne Hex. apply features_loop_mismatch; [exact Hne|].
    apply Exists_exists in Hex as [l [Hin Hl]].
    apply Exists_exists. exists l. split; [|exact Hl].
    now apply np_unique_In.
  - intros Hall. apply features_loop_noise.
    apply Forall_forall. intros l Hl.
    apply (proj1 (np_unique_In _ _)) in Hl.
    rewrite Forall_forall in Hall. auto.
Qed.

(** *** Rounded boxes *)

Lemma rounded2_bounds (q r : Q) :
  rounded2 q r ->
  exists k : Z,
    r == inject_Z k / 100
    /\ q * 100 - (1 # 2) <= inject_Z k /\ inject_Z k <= q * 100 + (1 # 2)
    /\ (inject_Z k == q * 100 - (1 # 2) \/ inject_Z k == q * 100 + (1 # 2) ->
        Z.even k = true).
Proof.
  intros [k [E [B T]]]. exists k. split; [exact E|].
  apply Qabs_Qle_condition in B. split; [lra|]. split; [lra|].
  intros H. apply T.
  destruct (Qabs_cases (q * 100 - inject_Z k)) as [[? A]|[? A]];
    rewrite A; destruct H; lra.
Qed.

Lemma inject_Z_le (a b : Z) : inject_Z a <= inject_Z b -> (a <= b)%Z.
Proof. unfold Qle. simpl. lia. Qed.

Lemma inject_Z_le_half (a b : Z) :
  inject_Z a <= inject_Z b + (1 # 2) -> (a <= b)%Z.
Proof.
  unfold Qle, Qplus. simpl. lia.
Qed.

Lemma rounded2_nonneg (q r : Q) : 0 <= q -> rounded2 q r -> 0 <= r.
Proof.
  intros Hq H. apply rounded2_bounds in H as [k [E [Lo _]]].
  assert (Hk : (0 <= k)%Z).
  { apply inject_Z_le_half. change (inject_Z 0) with 0. lra. }
  rewrite E. rewrite Zle_Qle in Hk. change (inject_Z 0) with 0 in Hk.
  apply Qle_shift_div_l; [reflexivity|]. lra.
Qed.

Lemma rounded2_mono (q1 q2 r1 r2 : Q) :
  q1 <= q2 -> rounded2 q1 r1 -> rounded2 q2 r2 -> r1 <= r2.
Proof.
  intros Hq H1 H2.
  apply rounded2_bounds in H1 as [k1 [E1 [Lo1 [Hi1 T1]]]].
  apply rounded2_bounds in H2 as [k2 [E2 [Lo2 [Hi2 T2]]]].
  assert (Hk : (k1 <= k2)%Z).
  { destruct (Z_le_gt_dec k1 k2) as [H|H]; [exact H|exfalso].
    assert (H' : (k2 + 1 <= k1)%Z) by lia.
    rewrite Zle_Qle, inject_Z_plus in H'. change (inject_Z 1) with 1 in H'.
    assert (X : inject_Z k1 == q1 * 100 + (1 # 2)
                /\ inject_Z k2 == q2 * 100 - (1 # 2)
                /\ inject_Z k1 <= inject_Z k2 + 1).
    { revert Hq Hi1 Lo2 H'. generalize (inject_Z k1), (inject_Z k2).
      intros a b Hq Hi1 Lo2 H'. split; [|split]; try apply Qle_antisym; lra. }
    destruct X as [X1 [X2 X3]].
    assert (A1 : Z.even k1 = true) by (apply T1; now right).
    assert (A2 : Z.even k2 = true) by (apply T2; now left).
    assert (Ek : k1 = (k2 + 1)%Z).
    { apply Z.le_antisymm; [|lia]. apply inject_Z_le.
      rewrite inject_Z_plus. exact X3. }
    rewrite Ek, Z.even_add, A2 in A1. discriminate A1. }
  rewrite Zle_Qle in Hk. rewrite E1, E2. unfold Qdiv.
  apply Qmult_le_compat_r; [exact Hk|]. unfold Qle. simpl. lia.
Qed.

Lemma inject_Z_small (z : Z) :
  - (3 # 2) <= inject_Z z -> inject_Z z <= 3 # 2 -> (-1 <= z <= 1)%Z.
Proof. unfold Qle. simpl. lia. Qed.

Lemma rounded2_difference (least greatest extent lo hi : Q) :
  rounded2 (greatest - least) extent -> rounded2 least lo ->
  rounded2 greatest hi ->
  Qabs (extent - (hi - lo)) <= 1 # 100.
Proof.
  intros He Hl Hh.
  apply rounded2_bounds in He as [ke [Ee [Loe [Hie _]]]].
  apply rounded2_bounds in Hl as [kl [El [Lol [Hil _]]]].
  apply rounded2_bounds in Hh as [kh [Eh [Loh [Hih _]]]].
  assert (Ez : inject_Z (ke + - kh + kl)
               == inject_Z ke - inject_Z kh + inject_Z kl).
  { rewrite !inject_Z_plus, inject_Z_opp. lra. }
  destruct (inject_Z_small (ke + - kh + kl)) as [Z1 Z2];
    [rewrite Ez; lra|rewrite Ez; lra|].
  rewrite Zle_Qle in Z1, Z2. rewrite Ez in Z1, Z2.
  change (inject_Z (-1)) with (- (1)) in Z1. change (inject_Z 1) with 1 in Z2.
  rewrite Ee, El, Eh. unfold Qdiv. change (/ 100) with (1 # 100).
  revert Z1 Z2. generalize (inject_Z ke), (inject_Z kh), (inject_Z kl).
  intros a h l Z1 Z2. apply Qabs_Qle_condition. split; lra.
Qed.

Lemma axis_described_sane (column : list Q) (extent lo hi : Q) :
  axis_described column extent lo hi -> axis_sane extent lo hi.
Proof.
  intros [least [greatest [[Hin Hmin] [[_ Hmax] [He [Hl Hh]]]]]].
  assert (Hle : least <= greatest) by (now apply Hmax).
  split; [|split].
  - apply (rounded2_nonneg (greatest - least)); [lra|exact He].
  - now apply (rounded2_mono least greatest).
  - now apply (rounded2_difference least greatest).
Qed.

Lemma describes_sane (M : list point) (feat : feature) :
  M <> [] -> describes M feat -> sane feat.
Proof.
  intros HM [Hn [Hx [Hy [Hz _]]]].
  split; [|split; [|split]].
  - rewrite Hn. destruct M; [congruence|]. simpl List.length. lia.
  - exact (axis_described_sane _ _ _ _ Hx).
  - exact (axis_described_sane _ _ _ _ Hy).
  - exact (axis_described_sane _ _ _ _ Hz).
Qed.

(** X7.  For labels and points of the same length, every feature that
    [extract_features] returns counts at least one point, has a width,
    length and height that are not negative, has [bbox_min] not above
    [bbox_max] in any coordinate, and each of its extents differs from the
    difference of the two rounded box corners by at most 0.01. *)
Theorem extract_features_sane (points : ndarray point) (labels : list Z) :
  List.length labels = shape0 points ->
  exists features,
    extract_features points labels = Ok features /\ Forall sane features.
Proof.
  intros H. unfold extract_features. rewrite features_loop_spec by exact H.
  eexists. split; [reflexivity|].
  apply Forall_forall. intros feat Hin.
  apply in_map_iff in Hin as [l [<- Hl]].
  apply filter_In in Hl as [Hl _].
  apply (proj1 (np_unique_In _ _)) in Hl.
  assert (HM : members (rows points) labels l <> [])
    by (now apply members_nonempty).
  apply (describes_sane _ _ HM). now apply feature_of_describes.
Qed.

(** *** Every clustered point is counted once *)

Lemma length_members (label : Z) (labels : list Z) :
  forall points : list point,
    List.length labels = List.length points ->
    List.length (members points labels label)
    = count_occ Z.eq_dec labels label.
Proof.
  unfold members.
  induction labels as [|l labels IH]; intros [|p points] H;
    try discriminate H; [reflexivity|].
  injection H as H. simpl.
  destruct (Z.eqb_spec l label) as [->|Hne]; simpl.
  - destruct (Z.eq_dec label label); [|contradiction]. now rewrite (IH points).
  - destruct (Z.eq_dec l label); [contradiction|]. now apply IH.
Qed.

Lemma sum_count_occ (labels : list Z) (L : list Z) :
  NoDup L ->
  fold_right Nat.add 0%nat (map (count_occ Z.eq_dec labels) L)
  = List.length (filter (fun x => existsb (Z.eqb x) L) labels).
Proof.
  induction 1 as [|a L Ha N IH]; simpl.
  - induction labels; auto.
  - rewrite IH. clear IH.
    induction labels as [|x labels IHl]; [reflexivity|]. simpl.
    destruct (Z.eq_dec x a) as [->|Hne].
    + rewrite Z.eqb_refl. simpl.
      destruct (existsb (Z.eqb a) L) eqn:E.
      * apply existsb_eqb in E. contradiction.
      * simpl. rewrite <- IHl. lia.
    + destruct (Z.eqb_spec x a); [contradiction|]. simpl.
      destruct (existsb (Z.eqb x) L); simpl; rewrite <- IHl; lia.
Qed.

Lemma sorted_NoDup (l : list Z) : StronglySorted Z.lt l -> NoDup l.
Proof.
  induction 1 as [|x l S IH F]; constructor; [|exact IH].
  intros Hin. rewrite Forall_forall in F. apply F in Hin. lia.
Qed.

Lemma total_points_map (points : list point) (labels : list Z) (L : list Z) :
  List.length labels = List.length points ->
  total_points (map (fun l => feature_of l (members points labels l)) L)
  = Z.of_nat (fold_right Nat.add 0%nat
                         (map (count_occ Z.eq_dec labels) L)).
Proof.
  intros H. unfold total_points.
  induction L as [|l L IH]; [reflexivity|].
  cbn [map fold_right]. rewrite IH, Nat2Z.inj_add.
  f_equal. unfold feature_of. simpl. now rewrite length_members.
Qed.

(** X8.  For labels and points of the same length, the [num_points] of
    the returned features add up to the number of points whose label is
    not -1: every clustered point is counted by one feature. *)
Theorem extract_features_counts_points (points : ndarray point)
        (labels : list Z) :
  List.length labels = shape0 points ->
  exists features,
    extract_features points labels = Ok features
    /\ total_points features = Z.of_nat (List.length (clustered labels)).
Proof.
  intros H. unfold extract_features. rewrite features_loop_spec by exact H.
  eexists. split; [reflexivity|].
  rewrite total_points_map by exact H.
  rewrite sum_count_occ.
  - f_equal. f_equal. unfold clustered. apply filter_ext_in.
    intros x Hx.
    destruct (Z.eqb_spec x (-1)) as [->|Hne]; simpl.
    + apply not_true_is_false. intros E. apply existsb_eqb in E.
      apply filter_In in E as [_ E]. discriminate E.
    + apply existsb_eqb, filter_In. split; [now apply np_unique_In|].
      apply negb_true_iff. now apply Z.eqb_neq.
  - apply sorted_NoDup, filter_sorted, np_unique_sorted.
Qed.

End FeatureMore.

(** ** Clusters and features *)

Section ClusterCount.
Import Feature ObjectFeatures Clustering FeatureView.

Variable DBSCAN_fit : Q -> Z -> list (Q * Q * Q) -> list Z.

Lemma length_distinct_le (l : list Z) :
  (List.length (distinct l) <= List.length l)%nat.
Proof.
  unfold distinct. induction l as [|x l IH]; simpl; [lia|].
  destruct (in_dec Z.eq_dec x l); simpl; lia.
Qed.

Lemma distinct_nil (l : list Z) : distinct l = [] -> l = [].
Proof.
  unfold distinct. destruct l as [|x l]; [reflexivity|]. intros H. exfalso.
  assert (Hin : In x (nodup Z.eq_dec (x :: l))) by (apply nodup_In; now left).
  rewrite H in Hin. destruct Hin.
Qed.

Lemma clustered_nil (labels : list Z) :
  filter (fun l => negb (l =? -1)%Z) labels = []
  <-> Forall (fun l => l = (-1)%Z) labels.
Proof.
  induction labels as [|x labels IH]; simpl.
  - split; [constructor|reflexivity].
  - destruct (Z.eqb_spec x (-1)) as [->|Hne]; simpl.
    + rewrite IH. split; [now constructor|]. now inversion 1.
    + split; [discriminate|]. inversion 1. contradiction.
Qed.

(** X9.  Whatever labels the clustering library returns,
    [cluster_objects] returns a cluster count between 0 and the number of
    points whose label is not -1, and the count is 0 exactly when every
    label is -1 (or there is no point). *)
Theorem cluster_objects_count (points : ndarray point) (eps : Q)
        (min_samples : Z) :
  let labels := fst (cluster_objects DBSCAN_fit points eps min_samples) in
  let n_clusters := snd (cluster_objects DBSCAN_fit points eps min_samples) in
  (0 <= n_clusters
   <= Z.of_nat (List.length (filter (fun l => negb (l =? -1)%Z) labels)))%Z
  /\ (n_clusters = 0%Z <-> Forall (fun l => l = (-1)%Z) labels).
Proof.
  cbv zeta. unfold cluster_objects.
  destruct (Nat.eqb (shape0 points) 0).
  - simpl. split; [lia|]. split; [constructor|reflexivity].
  - cbn [fst snd]. rewrite n_clusters_distinct.
    set (labels := DBSCAN_fit eps min_samples (map xyz (rows points))).
    set (kept := filter (fun l => negb (l =? -1)%Z) labels).
    pose proof (length_distinct_le kept) as Hle.
    split; [lia|]. rewrite <- clustered_nil. fold kept. split.
    + intros H. apply distinct_nil.
      destruct (distinct kept); [reflexivity|simpl in H; lia].
    + intros ->. reflexivity.
Qed.

Lemma length_filter_unique (p : Z -> bool) (labels : list Z) :
  List.length (filter p (np_unique labels))
  = List.length (distinct (filter p labels)).
Proof.
  apply Permutation_length, NoDup_Permutation.
  - apply NoDup_filter, sorted_NoDup, np_unique_sorted.
  - apply NoDup_nodup.
  - intros x. unfold distinct.
    rewrite nodup_In, !filter_In, np_unique_In. tauto.
Qed.

(** X10.  When the clustering library returns one label per point,
    [extract_features] applied to the labels of [cluster_objects] returns
    as many features as [cluster_objects] counted clusters. *)
Theorem extract_features_one_per_cluster (points : ndarray point) (eps : Q)
        (min_samples : Z) :
  List.length (DBSCAN_fit eps min_samples (map xyz (rows points)))
  = shape0 points ->
  let labels := fst (cluster_objects DBSCAN_fit points eps min_samples) in
  let n_clusters := snd (cluster_objects DBSCAN_fit points eps min_samples) in
  exists features,
    extract_features points labels = Ok features
    /\ Z.of_nat (List.length features) = n_clusters.
Proof.
  intros H. cbv zeta. unfold cluster_objects.
  destruct (Nat.eqb_spec (shape0 points) 0) as [Hz|Hnz].
  - exists []. split; reflexivity.
  - cbn [fst snd]. unfold extract_features.
    rewrite features_loop_spec by exact H.
    eexists. split; [reflexivity|].
    rewrite n_clusters_distinct, length_map. f_equal.
    apply length_filter_unique.
Qed.

End ClusterCount.

(** ** Rows of the ground filter *)

Section GroundCount.
Import GroundFilter.

Variable row : Type.
Variable xyz : row -> Q * Q * Q.
Variable rng : Type.
Variable segment_plane :
  rng -> list (Q * Q * Q) -> Q -> Z -> Z -> list nat * rng.

Lemma length_filter_split {A : Type} (p : A -> bool) (l : list A) :
  (List.length (filter p l) + List.length (filter (fun x => negb (p x)) l)
   = List.length l)%nat.
Proof.
  induction l as [|x l IH]; [reflexivity|]. simpl.
  destruct (p x); simpl; lia.
Qed.

Lemma map_fst_filter_combine {A B : Type} (f : A -> bool) (s : list A) :
  forall l : list B,
    List.length s = List.length l ->
    map fst (filter (fun q => f (fst q)) (combine s l)) = filter f s.
Proof.
  induction s as [|a s IH]; intros [|b l] H; try discriminate H;
    [reflexivity|].
  injection H as H. simpl. destruct (f a); simpl; now rewrite IH.
Qed.

Lemma existsb_nat_eqb (i : nat) (l : list nat) :
  existsb (Nat.eqb i) l = true <-> In i l.
Proof.
  rewrite existsb_exists. split.
  - intros [x [H E]]. apply Nat.eqb_eq in E. now subst.
  - intros H. exists i. split; [assumption|apply Nat.eqb_refl].
Qed.

Lemma length_non_inlier_rows (l : list row) (inliers : list nat) :
  Forall (fun i => (i < List.length l)%nat) inliers ->
  (List.length (non_inlier_rows l inliers)
   + List.length (nodup Nat.eq_dec inliers) = List.length l)%nat.
Proof.
  intros H. unfold non_inlier_rows. rewrite length_map.
  pose proof (length_filter_split
                (fun q : nat * row => existsb (Nat.eqb (fst q)) inliers)
                (combine (seq 0 (List.length l)) l)) as S.
  cbv beta in S. rewrite length_combine, length_seq, Nat.min_id in S.
  rewrite <- (length_map fst) in S at 1.
  rewrite (map_fst_filter_combine (fun i => existsb (Nat.eqb i) inliers))
    in S by (now rewrite length_seq).
  assert (E : List.length (filter (fun i => existsb (Nat.eqb i) inliers)
                                  (seq 0 (List.length l)))
              = List.length (nodup Nat.eq_dec inliers)).
  { apply Permutation_length, NoDup_Permutation.
    - apply NoDup_filter, seq_NoDup.
    - apply NoDup_nodup.
    - intros i. rewrite nodup_In, filter_In, in_seq, existsb_nat_eqb.
      rewrite Forall_forall in H. split; [tauto|].
      intros Hi. split; [|exact Hi]. apply H in Hi. lia. }
  rewrite E in S. lia.
Qed.

(** X11.  On an array with at least [ransac_n] rows whose plane fit
    returns inlier indices inside the array, [filter_ground_ransac] returns
    an array with the input's column count whose number of rows is the
    input's less the number of distinct inlier indices: an index that is
    returned twice removes one row. *)
Theorem filter_ground_ransac_row_count (g : rng) (points : ndarray row)
        (distance_threshold : Q) (ransac_n num_iterations : Z) :
  let inliers :=
    fst (segment_plane g (map xyz (rows points)) distance_threshold
                       ransac_n num_iterations) in
  (ransac_n <= Z.of_nat (shape0 points))%Z ->
  Forall (fun i => (i < shape0 points)%nat) inliers ->
  exists non_ground_points,
    fst (filter_ground_ransac xyz segment_plane g (Some points)
                              distance_threshold ransac_n num_iterations)
    = Ok non_ground_points
    /\ (shape0 non_ground_points + List.length (nodup Nat.eq_dec inliers)
        = shape0 points)%nat
    /\ shape1 non_ground_points = shape1 points.
Proof.
  cbv zeta. intros Hn H. unfold filter_ground_ransac.
  replace (Z.of_nat (shape0 points) <? ransac_n)%Z with false
    by (symmetry; apply Z.ltb_ge; exact Hn).
  destruct (segment_plane g (map xyz (rows points)) distance_threshold
                          ransac_n num_iterations) as [inliers g'].
  simpl in *. rewrite np_delete_spec by exact H.
  eexists. split; [reflexivity|]. split; [|reflexivity].
  unfold shape0. simpl. now apply length_non_inlier_rows.
Qed.

End GroundCount.

(** ** The records of a run *)

Section LoopFacts.
Import Feature Classifier Tracker GroundFilter ObjectFeatures Clustering Main.
Import TrackerView FeatureView Records.

Variable rng : Type.
Variable segment_plane :
  rng -> list (Q * Q * Q) -> Q -> Z -> Z -> list nat * rng.
Variable DBSCAN_fit : Q -> Z -> list (Q * Q * Q) -> list Z.

(** *** The pieces of one round *)

Lemma classify_features_spec (features : list feature) :
  fst (classify_features features)
  = map (fun feat => set_class feat (classify_object_advanced feat)) features
  /\ snd (classify_features features)
     = map detection_of
           (filter (fun feat =>
                      negb (String.eqb (classify_object_advanced feat)
                                       "noise"))
                   features).
Proof.
  induction features as [|feat rest [IH1 IH2]]; [split; reflexivity|].
  simpl. destruct (classify_features rest) as [rest' dets]. simpl in *.
  subst. split; [reflexivity|].
  destruct (String.eqb (classify_object_advanced feat) "noise"); reflexivity.
Qed.

Lemma link_features_linked (tracked_objects : list tracked_object)
      (features : list feature) :
  Forall (fun feat => class feat <> None) features ->
  exists features',
    link_features tracked_objects features = Ok features'
    /\ Forall2 (linked tracked_objects) features features'.
Proof.
  induction 1 as [|feat rest Hc _ [rest' [E IH]]].
  - exists []. split; [reflexivity|constructor].
  - simpl. pose proof (link_feature_linked tracked_objects feat) as H.
    destruct (link_feature tracked_objects feat) as [feat'|e]; simpl in H.
    + rewrite E. simpl. exists (feat' :: rest'). split; [reflexivity|].
      now constructor.
    + destruct H as [_ H]. contradiction.
Qed.

Lemma linked_fields (tracked_objects : list tracked_object)
      (feat feat' : feature) :
  linked tracked_objects feat feat' ->
  exists i, feat' = set_object_id feat i.
Proof. destruct 1; eexists; reflexivity. Qed.

Lemma output_data_records (features : list feature) :
  Forall (fun feat => class feat <> None) features ->
  output_data features = Ok (records_of features).
Proof.
  induction 1 as [|feat rest Hc _ IH]; [reflexivity|].
  simpl. unfold get_class. destruct (class feat) as [c|]; [|contradiction].
  simpl. rewrite IH. simpl.
  destruct (negb (String.eqb c "noise")); reflexivity.
Qed.

Lemma output_data_ok (features : list feature)
      (records : list output_record) :
  output_data features = Ok records -> records = records_of features.
Proof.
  revert records. induction features as [|feat rest IH]; intros records.
  - simpl. now intros [= <-].
  - simpl. unfold get_class. destruct (class feat) as [c|]; simpl;
      [|discriminate].
    destruct (output_data rest) as [rs|e]; simpl; [|discriminate].
    intros [= <-]. rewrite <- (IH rs eq_refl).
    destruct (negb (String.eqb c "noise")); reflexivity.
Qed.

Lemma link_features_ok (tracked_objects : list tracked_object)
      (features features' : list feature) :
  link_features tracked_objects features = Ok features' ->
  Forall2 (linked tracked_objects) features features'.
Proof.
  revert features'. induction features as [|feat rest IH]; intros features'.
  - simpl. intros [= <-]. constructor.
  - simpl. pose proof (link_feature_linked tracked_objects feat) as H.
    destruct (link_feature tracked_objects feat) as [feat'|e]; simpl in *;
      [|discriminate].
    destruct (link_features tracked_objects rest) as [rest'|e]; simpl;
      [|discriminate].
    intros [= <-]. constructor; [exact H|]. now apply IH.
Qed.

(** What [extract_features] returns when it returns. *)
Lemma extract_features_ok (points : ndarray point) (labels : list Z)
      (features : list feature) :
  extract_features points labels = Ok features ->
  Forall sane features /\ StronglySorted Z.lt (map label features).
Proof.
  intros E.
  destruct (Nat.eq_dec (List.length labels) (shape0 points)) as [H|H].
  - unfold extract_features in E.
    rewrite features_loop_spec in E by exact H. injection E as <-. split.
    + apply Forall_forall. intros feat Hin.
      apply in_map_iff in Hin as [l [<- Hl]].
      apply filter_In in Hl as [Hl _].
      apply (proj1 (np_unique_In _ _)) in Hl.
      assert (HM : members (rows points) labels l <> [])
        by (now apply members_nonempty).
      apply (describes_sane _ _ HM). now apply feature_of_describes.
    + rewrite map_map. simpl. rewrite map_id.
      apply filter_sorted, np_unique_sorted.
  - destruct (Forall_Exists_dec (fun l => l = (-1)%Z)
                                (fun l => Z.eq_dec l (-1)) labels) as [F|X].
    + unfold extract_features in E.
      rewrite features_loop_noise in E.
      * injection E as <-. split; constructor.
      * apply Forall_forall. intros l Hl.
        apply (proj1 (np_unique_In _ _)) in Hl.
        rewrite Forall_forall in F. auto.
    + unfold extract_features in E.
      rewrite features_loop_mismatch in E; [discriminate|exact H|].
      apply Exists_exists in X as [l [Hin Hl]].
      apply Exists_exists. exists l. split; [|exact Hl].
      now apply np_unique_In.
Qed.

(** *** A rule for one round *)

(** Whatever holds of the three ways a round can end holds of the round:
    it saves nothing and leaves the tracker alone; it finds no cluster,
    empties the tracker and saves no record; or it extracts features,
    classifies them, updates the tracker, links and saves. *)
Lemma process_frame_rule
      (P : tracker -> tracker -> option (list output_record) -> Prop)
      (t : tracker) (g : rng) (frame : option (ndarray point)) :
  P t t None ->
  P t (mk_tracker [] (id_count t)) (Some []) ->
  (forall non_ground_points labels features features',
      extract_features non_ground_points labels = Ok features ->
      let classified := fst (classify_features features) in
      let detections := snd (classify_features features) in
      let t' := fst (update t detections default_dist_thresh) in
      let tracked := snd (update t detections default_dist_thresh) in
      link_features tracked classified = Ok features' ->
      P t t' (Some (records_of features'))) ->
  match process_frame segment_plane DBSCAN_fit (t, g) frame with
  | Ok (st', saved) => P t (fst st') saved
  | Raise _ => True
  end.
Proof.
  intros Hskip Hnone Hsome. unfold process_frame.
  destruct frame as [points|]; [|exact Hskip].
  destruct (filter_ground_ransac xyz segment_plane g (Some points) _ _ _)
    as [r g'].
  destruct r as [non_ground|e]; simpl; [|exact I].
  destruct (Nat.eqb (shape0 non_ground) 0); [exact Hskip|].
  destruct (cluster_objects DBSCAN_fit non_ground DBSCAN_EPS
                            DBSCAN_MIN_SAMPLES) as [labels n_clusters].
  destruct (0 <? n_clusters)%Z.
  - destruct (extract_features non_ground labels) as [features|e] eqn:E;
      simpl; [|exact I].
    specialize (Hsome non_ground labels features).
    cbv zeta in Hsome. revert Hsome.
    destruct (classify_features features) as [classified detections].
    cbn [fst snd].
    destruct (update t detections default_dist_thresh) as [t' tracked].
    cbn [fst snd]. intros Hsome.
    destruct (link_features tracked classified) as [linked_features|e]
      eqn:L; simpl; [|exact I].
    destruct (output_data linked_features) as [records|e] eqn:O; simpl;
      [|exact I].
    apply output_data_ok in O. subst records.
    exact (Hsome linked_features E eq_refl).
  - rewrite update_no_detections. simpl. exact Hnone.
Qed.

(** The rule for the whole loop: an invariant [Inv] of the tracker and a
    property [R] of every saved record list. *)
Lemma process_frames_rule (Inv : tracker -> Prop)
      (R : list output_record -> Prop) :
  (forall t g frame,
      Inv t ->
      match process_frame segment_plane DBSCAN_fit (t, g) frame with
      | Ok (st', saved) =>
          Inv (fst st')
          /\ match saved with Some records => R records | None => True end
      | Raise _ => True
      end) ->
  forall frames i t g,
    Inv t ->
    match process_frames segment_plane DBSCAN_fit i (t, g) frames with
    | Ok (st', outs) => Inv (fst st') /\ Forall (fun out => R (snd out)) outs
    | Raise _ => True
    end.
Proof.
  intros Step. induction frames as [|frame frames IH]; intros i t g HI.
  - simpl. split; [exact HI|constructor].
  - cbn [process_frames]. specialize (Step t g frame HI).
    destruct (process_frame segment_plane DBSCAN_fit (t, g) frame)
      as [[[t' g'] saved]|e]; simpl; [|exact I].
    destruct Step as [HI' HR]. specialize (IH (S i) t' g' HI').
    destruct (process_frames segment_plane DBSCAN_fit (S i) (t', g') frames)
      as [[st'' outs]|e]; simpl; [|exact I].
    destruct IH as [HI'' HF]. split; [exact HI''|].
    destruct saved as [records|]; [constructor; assumption|exact HF].
Qed.

(** *** The records a round saves *)

Lemma records_of_In (features : list feature) (r : output_record) :
  In r (records_of features) ->
  exists feat c,
    In feat features /\ class feat = Some c /\ c <> "noise"%string
    /\ r = record_of feat c.
Proof.
  unfold records_of. rewrite in_flat_map. intros [feat [Hin Hr]].
  destruct (class feat) as [c|] eqn:C; [|destruct Hr].
  destruct (String.eqb_spec c "noise") as [->|Hne]; simpl in Hr;
    [destruct Hr|].
  destruct Hr as [<-|[]]. exists feat, c. auto.
Qed.

(** A linked feature that is saved comes from an extracted feature whose
    class is not noise. *)
Lemma saved_feature_origin (features features' : list feature)
      (tracked : list tracked_object) (r : output_record) :
  Forall2 (linked tracked) (fst (classify_features features)) features' ->
  In r (records_of features') ->
  exists feat feat',
    In feat features
    /\ classify_object_advanced feat <> "noise"%string
    /\ linked tracked (set_class feat (classify_object_advanced feat)) feat'
    /\ r = record_of feat' (classify_object_advanced feat).
Proof.
  intros L Hr. apply records_of_In in Hr as [feat' [c [Hin [C [Hne ->]]]]].
  destruct (Forall2_In_r _ _ _ feat' L Hin) as [feat0 [Hin0 L0]].
  rewrite (proj1 (classify_features_spec features)) in Hin0.
  apply in_map_iff in Hin0 as [feat [<- Hf]].
  destruct (linked_fields _ _ _ L0) as [i E]. subst feat'.
  simpl in C. injection C as <-.
  exists feat, (set_object_id (set_class feat (classify_object_advanced feat))
                              i).
  auto.
Qed.

Lemma classify_not_noise (feat : feature) :
  classify_object_advanced feat <> "noise"%string ->
  In (classify_object_advanced feat) saved_classes
  /\ (20 <= num_points feat)%Z.
Proof.
  intros Hne. pose proof (verdict_classify feat) as V.
  remember (classify_object_advanced feat) as c eqn:Ec. clear Ec.
  unfold saved_classes.
  destruct V as [N|N _ _|N _ _|N _ _|N _ _]; [congruence| | | |];
    (split; [simpl; tauto|]);
    (destruct (Z_lt_le_dec (num_points feat) 20) as [Hlt|Hge];
     [exfalso; apply N; now left|exact Hge]).
Qed.

(** X12.  Whatever the libraries return and from whatever state the loop
    starts, every record it saves has one of the classes pedestrian,
    cyclist, car and unknown, at least 20 points, and a width, length and
    height that are not negative. *)
Theorem process_frames_records_well_formed
        (frames : list (option (ndarray point))) (i : nat) (t : tracker)
        (g : rng) :
  match process_frames segment_plane DBSCAN_fit i (t, g) frames with
  | Ok (_, outs) => Forall (fun out => Forall well_formed (snd out)) outs
  | Raise _ => True
  end.
Proof.
  pose proof (process_frames_rule (fun _ => True) (Forall well_formed)) as H.
  assert (Step : forall t g frame,
             True ->
             match process_frame segment_plane DBSCAN_fit (t, g) frame with
             | Ok (st', saved) =>
                 True /\ match saved with
                         | Some records => Forall well_formed records
                         | None => True
                         end
             | Raise _ => True
             end).
  { clear. intros t g frame _.
    apply (process_frame_rule
             (fun _ _ saved =>
                True /\ match saved with
                        | Some records => Forall well_formed records
                        | None => True
                        end)); [now split|split; [exact I|constructor]|].
    intros ng labels features features' E. cbv zeta. intros L.
    split; [exact I|]. apply link_features_ok in L.
    apply extract_features_ok in E as [S _].
    apply Forall_forall. intros r Hr.
    destruct (saved_feature_origin _ _ _ _ L Hr)
      as [feat [feat' [Hin [Hne [L0 ->]]]]].
    destruct (linked_fields _ _ _ L0) as [k ->].
    destruct (classify_not_noise feat Hne) as [Hc Hn].
    rewrite Forall_forall in S.
    destruct (S feat Hin) as [_ [[Hw _] [[Hl _] [Hh _]]]].
    unfold well_formed. simpl. auto. }
  specialize (H Step frames i t g I).
  destruct (process_frames segment_plane DBSCAN_fit i (t, g) frames)
    as [[st' outs]|e]; [|exact I].
  apply H.
Qed.

Lemma records_cluster_ids_sorted (tracked : list tracked_object)
      (features : list feature) :
  forall features' : list feature,
    StronglySorted Z.lt (map label features) ->
    Forall2 (linked tracked)
            (map (fun feat => set_class feat (classify_object_advanced feat))
                 features)
            features' ->
    StronglySorted Z.lt (map out_cluster_id (records_of features')).
Proof.
  induction features as [|feat rest IH]; intros features' S L.
  - inversion L; subst. constructor.
  - inversion L as [|? feat' ? rest' L0 Lrest]; subst.
    simpl in S. inversion S as [|? ? Srest F]; subst.
    specialize (IH rest' Srest Lrest).
    destruct (linked_fields _ _ _ L0) as [k ->].
    unfold records_of. cbn [flat_map class set_object_id set_class].
    fold (records_of rest').
    destruct (negb (String.eqb (classify_object_advanced feat) "noise"));
      [|exact IH].
    cbn [app map out_cluster_id record_of label].
    constructor; [exact IH|].
    apply Forall_forall. intros l Hl. apply in_map_iff in Hl as [r [<- Hr]].
    apply records_of_In in Hr as [f' [c [Hin [_ [_ ->]]]]].
    destruct (Forall2_In_r _ _ _ f' Lrest Hin) as [f0 [Hin0 L1]].
    destruct (linked_fields _ _ _ L1) as [k' ->].
    apply in_map_iff in Hin0 as [f [<- Hf]]. simpl.
    rewrite Forall_forall in F. apply F. now apply in_map.
Qed.

(** X13.  Within the records saved for one frame the [cluster_id]s are
    strictly increasing, so no two records of a frame share a cluster. *)
Theorem process_frames_cluster_ids_increase
        (frames : list (option (ndarray point))) (i : nat) (t : tracker)
        (g : rng) :
  match process_frames segment_plane DBSCAN_fit i (t, g) frames with
  | Ok (_, outs) =>
      Forall (fun out => StronglySorted Z.lt (map out_cluster_id (snd out)))
             outs
  | Raise _ => True
  end.
Proof.
  pose proof (process_frames_rule
                (fun _ => True)
                (fun records =>
                   StronglySorted Z.lt (map out_cluster_id records))) as H.
  assert (Step : forall t g frame,
             True ->
             match process_frame segment_plane DBSCAN_fit (t, g) frame with
             | Ok (st', saved) =>
                 True /\ match saved with
                         | Some records =>
                             StronglySorted Z.lt (map out_cluster_id records)
                         | None => True
                         end
             | Raise _ => True
             end).
  { clear. intros t g frame _.
    apply (process_frame_rule
             (fun _ _ saved =>
                True /\ match saved with
                        | Some records =>
                            StronglySorted Z.lt (map out_cluster_id records)
                        | None => True
                        end)); [now split|split; [exact I|constructor]|].
    intros ng labels features features' E. cbv zeta. intros L.
    split; [exact I|]. apply link_features_ok in L.
    apply extract_features_ok in E as [_ S].
    rewrite (proj1 (classify_features_spec features)) in L.
    exact (records_cluster_ids_sorted _ _ _ S L). }
  specialize (H Step frames i t g I).
  destruct (process_frames segment_plane DBSCAN_fit i (t, g) frames)
    as [[st' outs]|e]; [|exact I].
  apply H.
Qed.

(** *** Every saved record has an identity *)

Lemma detection_within_tolerance (feat : feature) (c : string)
      (o : tracked_object) :
  rect_of o = detection_of feat -> within_tolerance (set_class feat c) o.
Proof.
  unfold within_tolerance, detection_of, rect_of.
  change (bbox_min (set_class feat c)) with (bbox_min feat).
  destruct (bbox_min feat) as [[min_x min_y] min_z].
  destruct o as [[[[tx ty] w] h] id]. cbn [fst]. intros [= -> -> _ _].
  split; apply Qabs_Qlt_condition; split; lra.
Qed.

Lemma identified_step (t : tracker) (g : rng)
      (frame : option (ndarray point)) :
  positive t ->
  match process_frame segment_plane DBSCAN_fit (t, g) frame with
  | Ok (st', saved) =>
      positive (fst st')
      /\ match saved with
         | Some records => Forall (fun r => (1 <= out_object_id r)%Z) records
         | None => True
         end
  | Raise _ => True
  end.
Proof.
  intros P.
  assert (R : match process_frame segment_plane DBSCAN_fit (t, g) frame with
              | Ok (st', saved) =>
                  positive t ->
                  positive (fst st')
                  /\ match saved with
                     | Some records =>
                         Forall (fun r => (1 <= out_object_id r)%Z) records
                     | None => True
                     end
              | Raise _ => True
              end).
  { apply (process_frame_rule
             (fun t t' saved =>
                positive t ->
                positive t'
                /\ match saved with
                   | Some records =>
                       Forall (fun r => (1 <= out_object_id r)%Z) records
                   | None => True
                   end)); [now split| |intros ng labels features features' E].
    - intros [H0 _]. split; [|constructor]. split; [exact H0|intros k []].
    - cbv zeta. intros L Pt.
      destruct (update_positive
                  t (snd (classify_features features)) default_dist_thresh Pt)
        as [Pt' Ids].
      split; [exact Pt'|]. apply link_features_ok in L.
      apply Forall_forall. intros r Hr.
      destruct (saved_feature_origin _ _ _ _ L Hr)
        as [feat [feat' [Hin [Hne [L0 ->]]]]].
      rewrite Forall_forall in Ids.
      inversion L0 as [Hc|before after tobj Hc Et Hb Ht|Hc Hall]; subst.
      + simpl in Hc. congruence.
      + simpl. apply Ids. rewrite Et. apply in_or_app. right. now left.
      + exfalso.
        pose proof (update_covers
                      t (snd (classify_features features))
                      default_dist_thresh) as C.
        assert (Hd : In (detection_of feat)
                        (snd (classify_features features))).
        { rewrite (proj2 (classify_features_spec features)).
          apply in_map, filter_In. split; [exact Hin|].
          apply negb_true_iff.
          destruct (String.eqb_spec (classify_object_advanced feat) "noise");
            [contradiction|reflexivity]. }
        apply (Permutation_in _ (Permutation_sym C)) in Hd.
        apply in_map_iff in Hd as [o [Eo Ho]].
        apply (Hall o Ho). now apply detection_within_tolerance. }
  destruct (process_frame segment_plane DBSCAN_fit (t, g) frame)
    as [[st' saved]|e]; [exact (R P)|exact I].
Qed.

(** X14.  In a run of the loop from a fresh tracker every saved record
    has an [object_id] of at least 1: the tracker returns the rectangle of
    every feature that is not noise, the feature is within tolerance of it,
    and so the default -1 never reaches a saved record. *)
Theorem process_frames_records_identified
        (frames : list (option (ndarray point))) (g : rng) :
  match process_frames segment_plane DBSCAN_fit 0 (init, g) frames with
  | Ok (_, outs) =>
      Forall (fun out => Forall (fun r => (1 <= out_object_id r)%Z) (snd out))
             outs
  | Raise _ => True
  end.
Proof.
  pose proof (process_frames_rule
                positive
                (Forall (fun r => (1 <= out_object_id r)%Z))
                identified_step frames 0%nat init g positive_init) as H.
  destruct (process_frames segment_plane DBSCAN_fit 0 (init, g) frames)
    as [[st' outs]|e]; [|exact I].
  apply H.
Qed.

(** *** The numbers of the saved frames *)

(** X15.  The numbers under which a run saves its frames are strictly
    increasing and are positions of the run: a frame that is skipped leaves
    a gap, and no number is used twice. *)
Theorem process_frames_numbers
        (frames : list (option (ndarray point))) (i : nat)
        (st : tracker * rng) :
  match process_frames segment_plane DBSCAN_fit i st frames with
  | Ok (_, outs) =>
      StronglySorted lt (map fst outs)
      /\ Forall (fun n => (i < n <= i + List.length frames)%nat)
                (map fst outs)
  | Raise _ => True
  end.
Proof.
  revert i st. induction frames as [|frame frames IH]; intros i st.
  - simpl. split; constructor.
  - cbn [process_frames].
    destruct (process_frame segment_plane DBSCAN_fit st frame)
      as [[st' saved]|e]; simpl; [|exact I].
    specialize (IH (S i) st').
    destruct (process_frames segment_plane DBSCAN_fit (S i) st' frames)
      as [[st'' outs]|e]; simpl; [|exact I].
    destruct IH as [Hs F].
    assert (F' : Forall (fun n => (i < n <= i + S (List.length frames))%nat)
                        (map fst outs)).
    { eapply Forall_impl; [|exact F]. simpl. intros n Hn. lia. }
    destruct saved as [records|]; [|now split].
    simpl. split.
    + constructor; [exact Hs|].
      eapply Forall_impl; [|exact F]. simpl. intros n Hn. lia.
    + constructor; [lia|exact F'].
Qed.

(** *** No exception when the libraries keep their word *)

Lemma classified_have_class (features : list feature) :
  Forall (fun feat => class feat <> None) (fst (classify_features features)).
Proof.
  rewrite (proj1 (classify_features_spec features)).
  apply Forall_forall. intros feat Hin.
  apply in_map_iff in Hin as [f [<- _]]. discriminate.
Qed.

Lemma linked_have_class (tracked : list tracked_object)
      (features features' : list feature) :
  Forall (fun feat => class feat <> None) features ->
  Forall2 (linked tracked) features features' ->
  Forall (fun feat => class feat <> None) features'.
Proof.
  intros F L. apply Forall_forall. intros feat' Hin.
  destruct (Forall2_In_r _ _ _ feat' L Hin) as [feat [Hin0 L0]].
  destruct (linked_fields _ _ _ L0) as [k ->]. simpl.
  rewrite Forall_forall in F. now apply F.
Qed.

Lemma process_frame_returns (st : tracker * rng)
      (frame : option (ndarray point)) :
  (forall g X d n k,
      Forall (fun i => (i < List.length X)%nat)
             (fst (segment_plane g X d n k))) ->
  (forall eps min_samples X,
      List.length (DBSCAN_fit eps min_samples X) = List.length X) ->
  exists r, process_frame segment_plane DBSCAN_fit st frame = Ok r.
Proof.
  intros A B. destruct st as [t g]. unfold process_frame.
  destruct frame as [points|]; [|eexists; reflexivity].
  unfold filter_ground_ransac.
  destruct (Z.of_nat (shape0 points) <? default_ransac_n)%Z.
  { simpl. eexists; reflexivity. }
  pose proof (A g (map xyz (rows points)) RANSAC_DISTANCE_THRESHOLD
                default_ransac_n default_num_iterations) as Hin.
  destruct (segment_plane g (map xyz (rows points)) RANSAC_DISTANCE_THRESHOLD
                          default_ransac_n default_num_iterations)
    as [inliers g'].
  simpl in Hin. rewrite length_map in Hin.
  rewrite np_delete_spec by exact Hin. simpl.
  set (ng := mk_ndarray (shape1 points)
                        (non_inlier_rows (rows points) inliers)).
  unfold cluster_objects.
  destruct (Nat.eqb (shape0 ng) 0); [eexists; reflexivity|].
  set (labels := DBSCAN_fit DBSCAN_EPS DBSCAN_MIN_SAMPLES
                            (map xyz (rows ng))).
  assert (HL : List.length labels = shape0 ng).
  { unfold labels. now rewrite B, length_map. }
  destruct (0 <? _)%Z.
  - unfold extract_features. rewrite features_loop_spec by exact HL. simpl.
    set (features := map _ _).
    pose proof (classified_have_class features) as C.
    destruct (classify_features features) as [classified detections].
    destruct (update t detections default_dist_thresh) as [t' tracked].
    simpl in C.
    destruct (link_features_linked tracked classified C) as [linked_ [E L]].
    rewrite E. simpl.
    rewrite output_data_records by (exact (linked_have_class _ _ _ C L)).
    simpl. eexists; reflexivity.
  - destruct (update t [] default_dist_thresh) as [t' tracked]. simpl.
    eexists; reflexivity.
Qed.

(** X16.  When the plane fit returns only indices inside the frame and
    the clustering returns one label per point, the loop over any frames,
    unreadable ones included, from any state, ends without an exception. *)
Theorem process_frames_returns (frames : list (option (ndarray point)))
        (i : nat) (st : tracker * rng) :
  (forall g X d n k,
      Forall (fun i => (i < List.length X)%nat)
             (fst (segment_plane g X d n k))) ->
  (forall eps min_samples X,
      List.length (DBSCAN_fit eps min_samples X) = List.length X) ->
  exists st' outs,
    process_frames segment_plane DBSCAN_fit i st frames = Ok (st', outs).
Proof.
  intros A B. revert i st.
  induction frames as [|frame frames IH]; intros i st.
  - simpl. eexists; eexists; reflexivity.
  - cbn [process_frames].
    destruct (process_frame_returns st frame A B) as [[st' saved] E].
    rewrite E. simpl.
    destruct (IH (S i) st') as [st'' [outs E']]. rewrite E'. simpl.
    eexists; eexists; reflexivity.
Qed.

End LoopFacts.

Section DBSCANLength.
Import DBSCAN.

Lemma length_fit_labels (eps : Q) (min_samples : Z) (X : list (Q * Q * Q)) :
  List.length (fit_labels eps min_samples X) = List.length X.
Proof.
  unfold fit_labels.
  destruct (clusters_invariant eps min_samples X) as [_ [[E _] _]].
  rewrite length_map. rewrite <- E at 2. now rewrite length_map.
Qed.

End DBSCANLength.

(** ** The analysis of the saved records *)

Section CounterFacts.
Import AnalyzeResults.

Variable A : Type.
Variable eqb : A -> A -> bool.
Hypothesis eqb_spec : forall x y, reflect (x = y) (eqb x y).

Lemma counter_get_add (x y : A) (c : counter A) :
  counter_get eqb y (counter_add eqb x c)
  = (counter_get eqb y c + if eqb x y then 1 else 0)%nat.
Proof.
  induction c as [|[z n] c IH]; simpl.
  - destruct (eqb x y); reflexivity.
  - destruct (eqb_spec z x) as [->|Hzx]; simpl.
    + destruct (eqb_spec x y); lia.
    + destruct (eqb_spec z y) as [->|Hzy].
      * destruct (eqb_spec x y); [congruence|lia].
      * exact IH.
Qed.

Lemma counter_keys_add (x : A) (c : counter A) (y : A) :
  In y (map fst (counter_add eqb x c)) <-> y = x \/ In y (map fst c).
Proof.
  induction c as [|[z n] c IH]; simpl.
  - intuition congruence.
  - destruct (eqb_spec z x) as [->|Hzx]; simpl.
    + intuition congruence.
    + rewrite IH. intuition congruence.
Qed.

Lemma counter_add_NoDup (x : A) (c : counter A) :
  NoDup (map fst c) -> NoDup (map fst (counter_add eqb x c)).
Proof.
  induction c as [|[z n] c IH]; simpl; intros N.
  - repeat constructor. intros [].
  - inversion N as [|? ? Hz N']; subst.
    destruct (eqb_spec z x) as [->|Hzx]; simpl; [now constructor|].
    constructor; [|auto]. rewrite counter_keys_add. intuition congruence.
Qed.

Lemma counter_add_total (x : A) (c : counter A) :
  total (map snd (counter_add eqb x c)) = S (total (map snd c)).
Proof.
  induction c as [|[z n] c IH]; simpl; [reflexivity|].
  destruct (eqb z x); simpl; [reflexivity|]. rewrite IH. lia.
Qed.

Lemma counter_add_positive (x : A) (c : counter A) :
  Forall (fun n => (1 <= n)%nat) (map snd c) ->
  Forall (fun n => (1 <= n)%nat) (map snd (counter_add eqb x c)).
Proof.
  induction c as [|[z n] c IH]; simpl; intros F.
  - repeat constructor.
  - inversion F; subst. destruct (eqb z x); simpl; constructor; auto; lia.
Qed.

Lemma counter_get_absent (x : A) (c : counter A) :
  ~ In x (map fst c) -> counter_get eqb x c = 0%nat.
Proof.
  induction c as [|[z n] c IH]; simpl; [reflexivity|]. intros H.
  destruct (eqb_spec z x); [tauto|]. apply IH. tauto.
Qed.

Lemma counter_get_In (x : A) (n : nat) (c : counter A) :
  NoDup (map fst c) -> In (x, n) c -> counter_get eqb x c = n.
Proof.
  induction c as [|[z m] c IH]; simpl; intros N; [tauto|].
  inversion N as [|? ? Hz N']; subst.
  intros [[= -> ->]|Hin].
  - destruct (eqb_spec x x); [reflexivity|congruence].
  - destruct (eqb_spec z x) as [->|_]; [|auto].
    exfalso. apply Hz. now apply (in_map fst) in Hin.
Qed.

(** The counter of a list, from any counter to start with. *)
Lemma counter_fold (l : list A) :
  forall c : counter A,
    let c' := fold_left (fun c x => counter_add eqb x c) l c in
    (NoDup (map fst c) -> NoDup (map fst c'))
    /\ (forall y, In y (map fst c') <-> In y l \/ In y (map fst c))
    /\ (forall y, counter_get eqb y c'
                  = (counter_get eqb y c
                     + List.length (filter (fun x => eqb x y) l))%nat)
    /\ total (map snd c') = (total (map snd c) + List.length l)%nat
    /\ (Forall (fun n => (1 <= n)%nat) (map snd c) ->
        Forall (fun n => (1 <= n)%nat) (map snd c')).
Proof.
  induction l as [|x l IH]; intros c; cbn zeta.
  - simpl. repeat split; auto; try tauto; lia.
  - cbn [fold_left]. destruct (IH (counter_add eqb x c)) as [N [K [G [T P]]]].
    split; [|split; [|split; [|split]]].
    + intros H. now apply N, counter_add_NoDup.
    + intros y. rewrite K, counter_keys_add. simpl. intuition congruence.
    + intros y. rewrite G, counter_get_add. simpl.
      destruct (eqb x y); simpl; lia.
    + rewrite T, counter_add_total. simpl. lia.
    + intros H. now apply P, counter_add_positive.
Qed.

Lemma Counter_spec (l : list A) :
  NoDup (map fst (Counter eqb l))
  /\ (forall y, In y (map fst (Counter eqb l)) <-> In y l)
  /\ (forall y, counter_get eqb y (Counter eqb l)
                = List.length (filter (fun x => eqb x y) l))
  /\ total (map snd (Counter eqb l)) = List.length l
  /\ Forall (fun n => (1 <= n)%nat) (map snd (Counter eqb l)).
Proof.
  unfold Counter. destruct (counter_fold l []) as [N [K [G [T P]]]].
  split; [apply N; constructor|]. split; [|split; [|split]].
  - intros y. rewrite K. simpl. tauto.
  - intros y. rewrite G. reflexivity.
  - rewrite T. reflexivity.
  - apply P. constructor.
Qed.

(** [max] by count: a greatest item, and the first of the greatest. *)
Lemma first_max_spec (items : counter A) :
  forall best : A * nat,
    exists before after,
      best :: items = before ++ first_max best items :: after
      /\ (forall it, In it before ->
                     (snd it < snd (first_max best items))%nat)
      /\ (forall it, In it after ->
                     (snd it <= snd (first_max best items))%nat).
Proof.
  induction items as [|item rest IH]; intros best.
  - exists [], []. simpl. split; [reflexivity|]. split; intros it [].
  - cbn [first_max].
    destruct (Nat.ltb_spec (snd best) (snd item)) as [Hlt|Hge].
    + destruct (IH item) as [before [after [E [Hb Ha]]]].
      exists (best :: before), after.
      split; [simpl; rewrite <- E; reflexivity|]. split; [|exact Ha].
      intros it [<-|Hin]; [|auto].
      destruct before as [|b before]; simpl in E; injection E as E1 E2.
      * rewrite <- E1. exact Hlt.
      * specialize (Hb b (or_introl eq_refl)). rewrite <- E1 in Hb. lia.
    + destruct (IH best) as [before [after [E [Hb Ha]]]].
      destruct before as [|b before]; simpl in E; injection E as E1 E2.
      * exists [], (item :: after).
        split; [simpl; rewrite <- E1, <- E2; reflexivity|].
        split; [intros it []|].
        intros it [<-|Hin]; [rewrite <- E1; exact Hge|]. now apply Ha.
      * exists (best :: item :: before), after.
        split; [simpl; rewrite <- E2; reflexivity|]. split; [|exact Ha].
        assert (Hbest : (snd best < snd (first_max best rest))%nat).
        { apply Hb. left. now symmetry. }
        intros it [<-|[<-|Hin]]; [exact Hbest|lia|].
        apply Hb. now right.
Qed.

Lemma counter_add_keys (x : A) (c : counter A) :
  map fst (counter_add eqb x c)
  = if existsb (eqb x) (map fst c) then map fst c else map fst c ++ [x].
Proof.
  induction c as [|[z n] c IH]; simpl; [reflexivity|].
  destruct (eqb_spec z x) as [->|Hzx]; simpl.
  - destruct (eqb_spec x x); [reflexivity|congruence].
  - destruct (eqb_spec x z); [congruence|]. simpl. rewrite IH.
    now destruct (existsb (eqb x) (map fst c)).
Qed.

Lemma Counter_keys (l : list A) :
  map fst (Counter eqb l) = first_seen eqb l.
Proof.
  unfold Counter, first_seen.
  assert (H : forall c,
             map fst (fold_left (fun c x => counter_add eqb x c) l c)
             = fold_left (fun seen x => if existsb (eqb x) seen then seen
                                        else seen ++ [x])
                         l (map fst c)).
  { induction l as [|x l IH]; intros c; [reflexivity|].
    cbn [fold_left]. now rewrite IH, counter_add_keys. }
  apply (H []).
Qed.

End CounterFacts.

Section AnalyzeResultsFacts.
Import AnalyzeResults.

(** *** The dictionary of class lists *)

Lemma classes_get_append (k k' : Z) (c : string) (d : classes_dict) :
  classes_get k' (append_class k c d)
  = classes_get k' d ++ (if (k =? k')%Z then [c] else []).
Proof.
  induction d as [|[k0 l] d IH]; simpl.
  - destruct (k =? k')%Z; reflexivity.
  - destruct (Z.eqb_spec k0 k) as [->|Hne]; simpl.
    + destruct (Z.eqb_spec k k'); [reflexivity|now rewrite app_nil_r].
    + destruct (Z.eqb_spec k0 k') as [->|Hne'].
      * destruct (Z.eqb_spec k k'); [congruence|now rewrite app_nil_r].
      * exact IH.
Qed.

Lemma append_class_counts (k : Z) (c : string) (d : classes_dict) :
  map (fun item => (fst item, List.length (snd item))) (append_class k c d)
  = counter_add Z.eqb k
                (map (fun item => (fst item, List.length (snd item))) d).
Proof.
  induction d as [|[k0 l] d IH]; simpl; [reflexivity|].
  destruct (k0 =? k)%Z; simpl; [|now rewrite IH].
  rewrite length_app. simpl. now rewrite Nat.add_1_r.
Qed.

Lemma classes_get_In (d : classes_dict) (item : Z * list string) :
  NoDup (map fst d) -> In item d -> snd item = classes_get (fst item) d.
Proof.
  induction d as [|[k0 l] d IH]; simpl; intros N; [tauto|].
  inversion N as [|? ? Hk N']; subst.
  intros [<-|Hin]; simpl.
  - now rewrite Z.eqb_refl.
  - destruct (Z.eqb_spec k0 (fst item)) as [->|_]; [|auto].
    exfalso. apply Hk. now apply in_map.
Qed.

(** The first loop, from any dictionary to start with. *)
Lemma collect_classes_spec (all_detections : list detection) :
  forall d : classes_dict,
    match collect_classes d all_detections with
    | Ok d' =>
        Forall readable all_detections
        /\ map (fun item => (fst item, List.length (snd item))) d'
           = fold_left (fun c x => counter_add Z.eqb x c)
                       (valid_ids all_detections)
                       (map (fun item => (fst item, List.length (snd item)))
                            d)
        /\ forall k, k <> (-1)%Z ->
                     classes_get k d'
                     = classes_get k d ++ classes_of k all_detections
    | Raise e =>
        e = KeyError /\ Exists (fun det => ~ readable det) all_detections
    end.
Proof.
  induction all_detections as [|det rest IH]; intros d.
  - simpl. split; [constructor|]. split; [reflexivity|].
    intros k _. now rewrite app_nil_r.
  - cbn [collect_classes]. unfold valid_ids, classes_of.
    cbn [filter flat_map].
    destruct (Z.eqb_spec (get_object_id det) (-1)) as [E|Hne]; cbn [negb].
    + specialize (IH d).
      destruct (collect_classes d rest) as [d'|e].
      * destruct IH as [F [C G]]. split; [constructor; [now left|exact F]|].
        split; [exact C|]. intros k Hk. rewrite (G k Hk).
        destruct (Z.eqb_spec (get_object_id det) k) as [Ek|_]; [|reflexivity].
        congruence.
      * destruct IH as [-> X]. split; [reflexivity|]. now apply Exists_cons_tl.
    + destruct (det_class det) as [c|] eqn:Ec.
      * specialize (IH (append_class (get_object_id det) c d)).
        destruct (collect_classes _ rest) as [d'|e].
        -- destruct IH as [F [C G]].
           split; [constructor; [right; congruence|exact F]|].
           split.
           ++ cbn [map fold_left]. rewrite C, append_class_counts.
              reflexivity.
           ++ intros k Hk. rewrite (G k Hk), classes_get_append, <- app_assoc.
              reflexivity.
        -- destruct IH as [-> X]. split; [reflexivity|].
           now apply Exists_cons_tl.
      * split; [reflexivity|]. apply Exists_cons_hd.
        intros [H|H]; congruence.
Qed.

Lemma object_id_to_classes_counts (all_detections : list detection)
      (d : classes_dict) :
  object_id_to_classes all_detections = Ok d ->
  map (fun item => (fst item, List.length (snd item))) d
  = Counter Z.eqb (valid_ids all_detections)
  /\ NoDup (map fst d)
  /\ (forall k, In k (map fst d) <-> In k (valid_ids all_detections))
  /\ Forall (fun item => snd item = classes_of (fst item) all_detections) d.
Proof.
  unfold object_id_to_classes. intros E.
  pose proof (collect_classes_spec all_detections []) as H.
  rewrite E in H. destruct H as [_ [C G]]. simpl in C, G.
  destruct (Counter_spec Z Z.eqb Z.eqb_spec (valid_ids all_detections))
    as [N [K _]].
  fold (Counter Z.eqb (valid_ids all_detections)) in C.
  assert (EK : map fst d = map fst (Counter Z.eqb (valid_ids all_detections))).
  { rewrite <- C, map_map. reflexivity. }
  split; [exact C|]. split; [now rewrite EK|]. split.
  - intros k. rewrite EK. apply K.
  - apply Forall_forall. intros item Hin.
    rewrite (classes_get_In d item) by (rewrite ?EK; auto). apply G.
    intros Hm. apply (in_map fst) in Hin. rewrite EK in Hin.
    apply K in Hin. unfold valid_ids in Hin.
    apply in_map_iff in Hin as [det [Ed Hd]]. apply filter_In in Hd as [_ Hd].
    rewrite Ed, Hm in Hd. discriminate Hd.
Qed.

Lemma durations_positive (all_detections : list detection)
      (d : classes_dict) :
  object_id_to_classes all_detections = Ok d ->
  Forall (fun item => (1 <= List.length (snd item))%nat) d.
Proof.
  intros E. destruct (object_id_to_classes_counts all_detections d E)
    as [EC _].
  destruct (Counter_spec Z Z.eqb Z.eqb_spec (valid_ids all_detections))
    as [_ [_ [_ [_ P]]]].
  rewrite <- EC, map_map in P. simpl in P.
  apply Forall_forall. intros item Hin. rewrite Forall_forall in P.
  apply P. now apply (in_map (fun item : Z * list string =>
                                List.length (snd item))).
Qed.

(** X17.  The first loop of the analysis fails with [KeyError] when some
    detection with an object id other than -1 has no class, and only then.
    Otherwise its dictionary holds the object ids other than -1 in the order
    in which they first occur, each with the classes of its detections in
    the order of the detections. *)
Theorem object_id_to_classes_groups (all_detections : list detection) :
  match object_id_to_classes all_detections with
  | Ok d =>
      Forall readable all_detections
      /\ map fst d = first_seen Z.eqb (valid_ids all_detections)
      /\ Forall (fun item => snd item = classes_of (fst item) all_detections)
                d
  | Raise e =>
      e = KeyError /\ Exists (fun det => ~ readable det) all_detections
  end.
Proof.
  pose proof (collect_classes_spec all_detections []) as H.
  pose proof (object_id_to_classes_counts all_detections) as C.
  unfold object_id_to_classes in *.
  destruct (collect_classes [] all_detections) as [d|e]; [|exact H].
  destruct H as [F _]. destruct (C d eq_refl) as [EC [_ [_ G]]].
  split; [exact F|]. split; [|exact G].
  rewrite <- (Counter_keys Z Z.eqb Z.eqb_spec), <- EC, map_map. reflexivity.
Qed.

(** *** Durations *)

(** X18.  The durations of the histogram are the lengths of the class
    lists of the first loop, object by object; they add up to the number of
    detections with an object id other than -1, none of them is 0, and the
    histogram is drawn when that dictionary is not empty. *)
Theorem durations_count_class_entries (all_detections : list detection) :
  match object_id_to_classes all_detections with
  | Ok d =>
      durations all_detections
      = match d with
        | [] => None
        | _ => Some (map (fun item => List.length (snd item)) d)
        end
      /\ total (map (fun item => List.length (snd item)) d)
         = List.length (valid_ids all_detections)
      /\ Forall (fun item => (1 <= List.length (snd item))%nat) d
  | Raise _ => True
  end.
Proof.
  pose proof (object_id_to_classes_counts all_detections) as C.
  pose proof (durations_positive all_detections) as DP.
  destruct (object_id_to_classes all_detections) as [d|e]; [|exact I].
  destruct (C d eq_refl) as [EC [_ [K _]]]. specialize (DP d eq_refl).
  destruct (Counter_spec Z Z.eqb Z.eqb_spec (valid_ids all_detections))
    as [_ [_ [_ [T P]]]].
  assert (ES : map (fun item : Z * list string => List.length (snd item)) d
               = map snd (Counter Z.eqb (valid_ids all_detections))).
  { rewrite <- EC, map_map. reflexivity. }
  split; [|split].
  - unfold durations.
    destruct (valid_ids all_detections) as [|i ids] eqn:V.
    + destruct d as [|item d]; [reflexivity|].
      exfalso. apply (K (fst item)). now left.
    + rewrite <- ES. destruct d as [|item d]; [|reflexivity].
      exfalso. apply (K i). now left.
  - now rewrite ES.
  - exact DP.
Qed.

(** *** The class of an object *)

Lemma most_common_1_spec (l : list string) :
  l <> [] ->
  exists c, most_common_1 (Counter String.eqb l) = Ok c /\ most_common_in l c.
Proof.
  intros Hl.
  destruct (Counter_spec string String.eqb String.eqb_spec l)
    as [N [K [G _]]].
  pose proof (Counter_keys string String.eqb String.eqb_spec l) as EK.
  destruct (Counter String.eqb l) as [|item rest] eqn:EC.
  { exfalso. destruct l as [|x l]; [congruence|].
    apply (K x). now left. }
  destruct (first_max_spec string rest item) as [before [after [E [Hb Ha]]]].
  set (m := first_max item rest) in *.
  assert (T : forall x n, In (x, n) (item :: rest) -> n = times x l).
  { intros x n Hin. unfold times. rewrite <- G.
    symmetry. now apply (counter_get_In string String.eqb String.eqb_spec). }
  assert (Hm : In m (item :: rest))
    by (rewrite E; apply in_or_app; right; now left).
  assert (Em : snd m = times (fst m) l)
    by (apply T; now destruct m).
  exists (fst m). split; [reflexivity|]. split; [|split].
  - apply K. now apply (in_map fst).
  - intros c'.
    destruct (in_dec string_dec c' (map fst (item :: rest))) as [Hin|Hnin].
    + apply in_map_iff in Hin as [[x n] [Ex Hin]]. simpl in Ex. subst x.
      rewrite <- Em, <- (T c' n Hin). rewrite E in Hin.
      apply in_app_or in Hin as [Hin|[Hm'|Hin]].
      * apply Hb in Hin. simpl in Hin. lia.
      * rewrite Hm'. simpl. lia.
      * apply Ha in Hin. exact Hin.
    + unfold times. rewrite <- G.
      rewrite (counter_get_absent string String.eqb String.eqb_spec)
        by exact Hnin.
      lia.
  - exists (map fst before), (map fst after). split.
    + rewrite <- EK, E, map_app. reflexivity.
    + intros c' Hin. apply in_map_iff in Hin as [[x n] [Ex Hin]].
      simpl in Ex. subst x. rewrite <- Em.
      rewrite <- (T c' n) by (rewrite E; apply in_or_app; now left).
      apply Hb in Hin. exact Hin.
Qed.

Lemma final_set_absent (k : Z) (v : string) (acc : list (Z * string)) :
  ~ In k (map fst acc) -> final_set k v acc = acc ++ [(k, v)].
Proof.
  induction acc as [|[k0 v0] acc IH]; simpl; [reflexivity|]. intros H.
  destruct (Z.eqb_spec k0 k) as [->|Hne]; [tauto|].
  f_equal. apply IH. tauto.
Qed.

Lemma final_classes_spec (d : classes_dict) :
  forall acc : list (Z * string),
    NoDup (map fst acc ++ map fst d) ->
    Forall (fun item => snd item <> []) d ->
    exists final,
      final_classes acc d = Ok (acc ++ final)
      /\ Forall2 (fun item f =>
                    fst f = fst item /\ most_common_in (snd item) (snd f))
                 d final.
Proof.
  induction d as [|[k l] d IH]; intros acc N F.
  - exists []. rewrite app_nil_r. split; [reflexivity|constructor].
  - inversion F as [|? ? Hl F']; subst. simpl in Hl.
    destruct (most_common_1_spec l Hl) as [c [E M]].
    cbn [final_classes]. rewrite E. simpl.
    rewrite final_set_absent.
    + destruct (IH (acc ++ [(k, c)])) as [final [E' F2]]; [|exact F'|].
      * rewrite map_app, <- app_assoc. exact N.
      * exists ((k, c) :: final). rewrite E', <- app_assoc.
        split; [reflexivity|]. constructor; [now split|exact F2].
    + simpl in N. apply NoDup_remove_2 in N. intros Hin. apply N.
      apply in_or_app. now left.
Qed.

(** X19.  The class chosen for an object is one of the classes it was
    detected with; no class was detected more often for it; and of several
    classes detected equally often the one seen first is chosen. *)
Theorem unique_objects_final_class_most_common
        (all_detections : list detection) :
  match object_id_to_classes all_detections with
  | Ok d =>
      exists final,
        unique_objects_final_class d = Ok final
        /\ Forall2 (fun item f =>
                      fst f = fst item
                      /\ most_common_in (classes_of (fst item) all_detections)
                                        (snd f))
                   d final
  | Raise _ => True
  end.
Proof.
  pose proof (object_id_to_classes_counts all_detections) as C.
  pose proof (durations_positive all_detections) as P.
  destruct (object_id_to_classes all_detections) as [d|e]; [|exact I].
  destruct (C d eq_refl) as [_ [N [_ G]]]. specialize (P d eq_refl).
  destruct (final_classes_spec d []) as [final [E F]]; [exact N| |].
  - eapply Forall_impl; [|exact P]. simpl. intros [k l] H. simpl in *.
    destruct l; [simpl in H; lia|discriminate].
  - exists final. split; [exact E|].
    clear - F G. induction F as [|item f d final [Ef M] F IH];
      [constructor|].
    inversion G as [|? ? Hi G']; subst.
    constructor; [|auto]. split; [exact Ef|]. now rewrite <- Hi.
Qed.

(** *** The bar chart *)

(** X20.  The bars of the bar chart have pairwise different labels and
    heights of at least 1 that add up to the number of distinct object ids
    other than -1; the chart is left out only when there is no such id. *)
Theorem bar_chart_counts_objects (all_detections : list detection) :
  match object_id_to_classes all_detections with
  | Ok d =>
      forall final,
        unique_objects_final_class d = Ok final ->
        match bar_chart final with
        | Some (labels, counts) =>
            total counts
            = List.length (first_seen Z.eqb (valid_ids all_detections))
            /\ NoDup labels
            /\ List.length labels = List.length counts
            /\ Forall (fun n => (1 <= n)%nat) counts
        | None => valid_ids all_detections = []
        end
  | Raise _ => True
  end.
Proof.
  pose proof (object_id_to_classes_counts all_detections) as C.
  pose proof (durations_positive all_detections) as P.
  destruct (object_id_to_classes all_detections) as [d|e]; [|exact I].
  destruct (C d eq_refl) as [EC [N [K _]]]. specialize (P d eq_refl).
  intros final E.
  destruct (final_classes_spec d []) as [final' [E' F]]; [exact N| |].
  { eapply Forall_impl; [|exact P]. simpl. intros [k l] H. simpl in *.
    destruct l; [simpl in H; lia|discriminate]. }
  unfold unique_objects_final_class in E. rewrite E' in E.
  injection E as <-. simpl in *.
  assert (EL : List.length final' = List.length d)
    by (symmetry; exact (Forall2_length F)).
  assert (ED : List.length d
               = List.length (first_seen Z.eqb (valid_ids all_detections))).
  { rewrite <- (Counter_keys Z Z.eqb Z.eqb_spec), <- EC.
    now rewrite !length_map. }
  unfold bar_chart.
  destruct final' as [|f final'].
  - destruct (valid_ids all_detections) as [|i ids]; [reflexivity|].
    exfalso. destruct d; [|discriminate EL]. apply (K i). now left.
  - set (values := map snd (f :: final')).
    destruct (Counter_spec string String.eqb String.eqb_spec values)
      as [N' [_ [_ [T P']]]].
    split; [|split; [exact N'|split; [now rewrite !length_map|exact P']]].
    rewrite T. unfold values. now rewrite length_map, EL.
Qed.

End AnalyzeResultsFacts.

(** ** The ground painted by visualize_points *)

Section VisualizationFacts.
Import GroundFilter ObjectFeatures Visualization.

Variable rng : Type.
Variable segment_plane :
  rng -> list (Q * Q * Q) -> Q -> Z -> Z -> list nat * rng.

Lemma row_eqb_refl (p : Q * Q * Q) : row_eqb p p = true.
Proof.
  destruct p as [[x y] z]. unfold row_eqb.
  rewrite !(proj2 (Qeq_bool_iff _ _)) by reflexivity. reflexivity.
Qed.

Lemma in_combine_seq {A : Type} (l : list A) (j : nat) (a : A) :
  forall s, In (j, a) (combine (seq s (List.length l)) l)
            <-> (s <= j)%nat /\ nth_error l (j - s) = Some a.
Proof.
  induction l as [|x l IH]; intros s; simpl.
  - split; [tauto|]. intros [_ H]. destruct (j - s)%nat; discriminate.
  - rewrite IH. split.
    + intros [[= <- <-]|[Hs Hn]].
      * rewrite Nat.sub_diag. split; [lia|reflexivity].
      * split; [lia|]. replace (j - s)%nat with (S (j - S s)) by lia.
        exact Hn.
    + intros [Hs Hn]. destruct (Nat.eq_dec s j) as [->|Hne].
      * rewrite Nat.sub_diag in Hn. simpl in Hn. left. congruence.
      * right. split; [lia|].
        replace (j - s)%nat with (S (j - S s)) in Hn by lia. exact Hn.
Qed.

Lemma non_inlier_rows_In {A : Type} (l : list A) (inliers : list nat)
      (a : A) :
  In a (non_inlier_rows l inliers)
  <-> exists j, nth_error l j = Some a /\ ~ In j inliers.
Proof.
  unfold non_inlier_rows. rewrite in_map_iff. split.
  - intros [[j a'] [<- H]]. apply filter_In in H as [Hin Hf]. simpl in *.
    apply in_combine_seq in Hin as [_ Hn]. rewrite Nat.sub_0_r in Hn.
    exists j. split; [exact Hn|]. intros Hj.
    apply existsb_nat_eqb in Hj. rewrite Hj in Hf. discriminate.
  - intros [j [Hn Hj]]. exists (j, a). split; [reflexivity|].
    apply filter_In. split.
    + apply in_combine_seq. rewrite Nat.sub_0_r. split; [lia|exact Hn].
    + simpl. apply negb_true_iff, not_true_is_false. intros H.
      apply Hj. now apply existsb_nat_eqb.
Qed.

Lemma ground_mask_nth (original_xyz non_ground_xyz : list (Q * Q * Q))
      (i : nat) (r : Q * Q * Q) :
  nth_error original_xyz i = Some r ->
  nth i (ground_mask original_xyz non_ground_xyz) false
  = negb (existsb (row_eqb (round_row r)) (map round_row non_ground_xyz)).
Proof.
  unfold ground_mask. revert i.
  induction original_xyz as [|x l IH]; intros [|i] H; simpl in *;
    try discriminate.
  - now injection H as ->.
  - now apply IH.
Qed.

Lemma np_delete_ok {row : Type} (arr r : ndarray row) (obj : list nat) :
  np_delete arr obj = Ok r ->
  r = mk_ndarray (shape1 arr) (non_inlier_rows (rows arr) obj).
Proof.
  intros E.
  destruct (Forall_dec (fun i => (i < shape0 arr)%nat)
                       (fun i => lt_dec i (shape0 arr)) obj) as [F|F].
  - rewrite np_delete_spec in E by exact F. now injection E as <-.
  - unfold np_delete in E.
    rewrite clear_mask_out_of_range in E by (now rewrite repeat_length).
    discriminate E.
Qed.

Lemma ground_xyz_ok (original non_ground : ndarray point) :
  ground_xyz original non_ground
  = Ok (select (ground_mask (map xyz (rows original))
                            (map xyz (rows non_ground)))
               (map xyz (rows original))).
Proof.
  unfold ground_xyz, mask_rows, ground_mask.
  now rewrite !length_map, Nat.eqb_refl.
Qed.

(** X21.  [visualize_points] on a frame and the result of
    [filter_ground_ransac] for it.  Indexing with the mask never raises.
    On a frame with fewer than [ransac_n] rows every point is painted as
    ground.  Otherwise a point is painted as ground exactly when it is an
    inlier of the plane fit and no point that is not an inlier rounds to the
    same position at five decimal places; a point that is not an inlier is
    never painted as ground. *)
Theorem visualize_points_ground (g : rng) (points : ndarray point)
        (distance_threshold : Q) (ransac_n num_iterations : Z) :
  let inliers :=
    fst (segment_plane g (map xyz (rows points)) distance_threshold
                       ransac_n num_iterations) in
  match fst (filter_ground_ransac xyz segment_plane g (Some points)
                                  distance_threshold ransac_n
                                  num_iterations) with
  | Ok non_ground_points =>
      let mask := ground_mask (map xyz (rows points))
                              (map xyz (rows non_ground_points)) in
      ground_xyz points non_ground_points
      = Ok (select mask (map xyz (rows points)))
      /\ ((Z.of_nat (shape0 points) < ransac_n)%Z ->
          mask = repeat true (shape0 points))
      /\ ((ransac_n <= Z.of_nat (shape0 points))%Z ->
          forall i p,
            nth_error (rows points) i = Some p ->
            (nth i mask false = true
             <-> In i inliers
                 /\ forall j q, nth_error (rows points) j = Some q ->
                                ~ In j inliers -> ~ same_position p q))
  | Raise _ => True
  end.
Proof.
  cbv zeta. unfold filter_ground_ransac.
  destruct (Z.ltb_spec (Z.of_nat (shape0 points)) ransac_n) as [Hlt|Hge].
  { cbn [fst]. split; [apply ground_xyz_ok|].
    split; [intros _|intros H; lia].
    unfold ground_mask, shape0. simpl.
    induction (rows points) as [|p l IH]; simpl; [reflexivity|].
    now rewrite IH. }
  destruct (segment_plane g (map xyz (rows points)) distance_threshold
                          ransac_n num_iterations) as [inliers g'].
  cbn [fst].
  destruct (np_delete points inliers) as [non_ground|e] eqn:E; [|exact I].
  apply np_delete_ok in E. subst non_ground.
  split; [apply ground_xyz_ok|]. cbn [rows].
  split; [intros H; lia|]. intros _ i p Hp.
  rewrite (ground_mask_nth _ _ i (xyz p)) by (now apply map_nth_error).
  rewrite negb_true_iff. split.
  - intros Hf.
    assert (Hall : forall q, In q (non_inlier_rows (rows points) inliers) ->
                             ~ same_position p q).
    { intros q Hq S. unfold same_position in S.
      assert (X : existsb (row_eqb (round_row (xyz p)))
                          (map round_row
                               (map xyz (non_inlier_rows (rows points)
                                                         inliers))) = true).
      { apply existsb_exists. exists (round_row (xyz q)).
        split; [|exact S]. now apply in_map, in_map. }
      congruence. }
    split.
    + destruct (in_dec Nat.eq_dec i inliers) as [Hin|Hnin]; [exact Hin|].
      exfalso. apply (Hall p).
      * apply non_inlier_rows_In. eauto.
      * apply row_eqb_refl.
    + intros j q Hq Hj. apply Hall. apply non_inlier_rows_In. eauto.
  - intros [_ Hall]. apply not_true_is_false. intros X.
    apply existsb_exists in X as [r [Hr S]].
    apply in_map_iff in Hr as [x [<- Hx]].
    apply in_map_iff in Hx as [q [<- Hq]].
    apply non_inlier_rows_In in Hq as [j [Hq Hj]].
    exact (Hall j q Hq Hj S).
Qed.

End VisualizationFacts.

(** ** The loop on concrete frames *)

Section PipelineExamples.
Import Feature Classifier Tracker GroundFilter ObjectFeatures Clustering Main.
Import Examples.

(** C7 on a frame of four floor points and one point above them: the
    plane fit of section 4.1 finds the floor, and the point above it is
    returned with its intensity. *)
Lemma filter_ground_ransac_non_ground_witness :
  Forall (fun i => (i < shape0 small_frame)%nat)
         (fst (RANSAC.segment_plane
                 floor_only (map xyz (rows small_frame))
                 RANSAC_DISTANCE_THRESHOLD default_ransac_n
                 default_num_iterations))
  /\ fst (filter_ground_ransac xyz RANSAC.segment_plane floor_only
                               (Some small_frame)
                               RANSAC_DISTANCE_THRESHOLD default_ransac_n
                               default_num_iterations)
     = Ok (mk_ndarray 4 [mk_point 0.5 0.5 2 40]).
Proof.
  assert (H : Forall (fun i => (i < shape0 small_frame)%nat)
                     (fst (RANSAC.segment_plane
                             floor_only (map xyz (rows small_frame))
                             RANSAC_DISTANCE_THRESHOLD default_ransac_n
                             default_num_iterations))).
  { vm_compute. repeat constructor. }
  split; [exact H|].
  rewrite (filter_ground_ransac_non_ground
             point xyz RANSAC.generator RANSAC.segment_plane floor_only
             small_frame RANSAC_DISTANCE_THRESHOLD default_ransac_n
             default_num_iterations H).
  vm_compute. reflexivity.
Defined.

(** C9 on four points in two clusters and one noise point. *)
Lemma extract_features_describes_witness :
  let points := mk_ndarray 4 [mk_point 0.123 0 0 10; mk_point 1.128 2 1.5 13;
                              mk_point 5 5 5 5; mk_point 7 7 7.5 8] in
  let labels := [0; 0; -1; 3]%Z in
  List.length labels = shape0 points
  /\ exists features,
       extract_features points labels = Ok features
       /\ StronglySorted Z.lt (map Feature.label features)
       /\ (forall l, In l (map Feature.label features) <->
                     In l labels /\ l <> (-1)%Z)
       /\ Forall (fun feat =>
                    describes (members (rows points) labels
                                       (Feature.label feat)) feat)
                 features.
Proof.
  cbv zeta. split; [reflexivity|].
  exact (extract_features_describes
           (mk_ndarray 4 [mk_point 0.123 0 0 10; mk_point 1.128 2 1.5 13;
                          mk_point 5 5 5 5; mk_point 7 7 7.5 8])
           [0; 0; -1; 3]%Z eq_refl).
Defined.

(** C9 as stated fails.  A cluster of one point at x = 0.123: the least x
    of its members is 0.123, but [bbox_min] holds 0.12, and [bbox_max]
    likewise. *)
Lemma extract_features_rounds_bbox :
  let points := mk_ndarray 4 [mk_point 0.123 0.456 0.789 10] in
  exists feat,
    extract_features points [0%Z] = Ok [feat]
    /\ is_minimum (map px (rows points)) 0.123
    /\ is_maximum (map px (rows points)) 0.123
    /\ fst (fst (Feature.bbox_min feat)) == 0.12
    /\ fst (fst (Feature.bbox_max feat)) == 0.12
    /\ ltb (fst (fst (Feature.bbox_min feat))) 0.123 = true.
Proof.
  cbv zeta. eexists. split; [reflexivity|].
  split; [split; [now left|intros v [<-|[]]; apply Qle_refl]|].
  split; [split; [now left|intros v [<-|[]]; apply Qle_refl]|].
  repeat split.
Qed.

(** C8 as stated fails.  Seven points on a line, [eps] 1 and
    [min_samples] 4.  The points at 0 and at 2 are the core points, with
    four points within reach each; the point at 1 is reached by both and goes
    to the cluster found first.  The second cluster is left with three
    members, fewer than [min_samples]. *)
Lemma cluster_objects_small_cluster :
  let points := mk_ndarray 4 [mk_point (-1) 0 0 1; mk_point (-0.5) 0 0 1;
                              mk_point 0 0 0 1; mk_point 1 0 0 1;
                              mk_point 2 0 0 1; mk_point 2.5 0 0 1;
                              mk_point 3 0 0 1] in
  cluster_objects DBSCAN.fit_labels points 1 4
  = ([0; 0; 0; 0; 1; 1; 1]%Z, 2%Z)
  /\ count_occ Z.eq_dec [0; 0; 0; 0; 1; 1; 1]%Z 1%Z = 3%nat
  /\ (3 < 4)%Z.
Proof. cbv zeta. split; [vm_compute; reflexivity|]. split; [reflexivity|lia]. Qed.

(** C6 on three frames and a generator state: two runs that start from the
    same state go the same way. *)
Lemma process_frames_reproducible_witness :
  fits_agree RANSAC.segment_plane RANSAC.segment_plane eq
  /\ floor_first = floor_first
  /\ same_outcome eq
       (process_frames RANSAC.segment_plane DBSCAN.fit_labels 0
                       (init, floor_first)
                       [Some two_planes_frame; Some sparse_frame;
                        Some two_planes_frame])
       (process_frames RANSAC.segment_plane DBSCAN.fit_labels 0
                       (init, floor_first)
                       [Some two_planes_frame; Some sparse_frame;
                        Some two_planes_frame]).
Proof.
  assert (A : fits_agree RANSAC.segment_plane RANSAC.segment_plane eq).
  { intros g1 g2 X d n k ->. split; reflexivity. }
  split; [exact A|]. split; [reflexivity|].
  exact (process_frames_reproducible
           RANSAC.generator RANSAC.generator
           RANSAC.segment_plane RANSAC.segment_plane DBSCAN.fit_labels eq
           [Some two_planes_frame; Some sparse_frame; Some two_planes_frame]
           0%nat init floor_first floor_first A eq_refl).
Defined.

(** C6 as stated fails.  The loop and the ground filter have no input for a
    seed: what the plane fit draws is decided by the state its generator
    happens to be in.  The frame holds a floor patch and a wall patch of
    twenty points each, so both planes have twenty inliers and the plane
    sampled first wins.  From a state that deals floor points first the wall
    is left and recorded; from a state that deals wall points first the
    floor is. *)
Lemma process_frames_depend_on_generator :
  exists st0 st1 records0 records1,
    process_frames RANSAC.segment_plane DBSCAN.fit_labels 0
                   (init, floor_first) [Some two_planes_frame]
    = Ok (st0, [(1%nat, records0)])
    /\ process_frames RANSAC.segment_plane DBSCAN.fit_labels 0
                      (init, wall_first) [Some two_planes_frame]
       = Ok (st1, [(1%nat, records1)])
    /\ map out_num_points records0 = [20%Z]
    /\ map out_num_points records1 = [20%Z]
    /\ map out_avg_intensity records0 = [30%Z]
    /\ map out_avg_intensity records1 = [10%Z]
    /\ map out_dimensions_m records0 = [(0.00, 0.40, 0.30)]
    /\ map out_dimensions_m records1 = [(0.40, 0.30, 0.00)].
Proof.
  do 4 eexists. split; [vm_compute; reflexivity|].
  split; [vm_compute; reflexivity|]. repeat split.
Qed.

(** C5.  The skip after ground filtering leaves out the tracker update.
    The tracker holds identity 1; a frame of two points, fewer than the
    three a plane fit needs, is processed.  The round ends at the skip of
    lines 78 to 80: it saves nothing and returns the tracker as it was,
    identity 1 included, where a call of [update] with no detection would
    have emptied it.  The branch for a frame without cluster makes that
    call: from the same tracker, a frame whose one point above the floor
    forms no cluster leaves the tracker empty.  Over the frames wall, two
    points, wall the loop saves records for the first and the third frame
    only, and the wall of the third frame is identity 1 again. *)
Lemma process_frame_keeps_identities :
  let t1 := fst (update init [(0, 0, 2, 2)] default_dist_thresh) in
  fst (filter_ground_ransac xyz RANSAC.segment_plane floor_first
                            (Some sparse_frame)
                            RANSAC_DISTANCE_THRESHOLD default_ransac_n
                            default_num_iterations)
  = Ok (mk_ndarray 4 [])
  /\ process_frame RANSAC.segment_plane DBSCAN.fit_labels (t1, floor_first)
                   (Some sparse_frame)
     = Ok ((t1, floor_first), None)
  /\ dict_keys (center_points t1) = [1%Z]
  /\ center_points (fst (update t1 [] default_dist_thresh)) = []
  /\ (exists g,
        process_frame RANSAC.segment_plane DBSCAN.fit_labels (t1, floor_only)
                      (Some small_frame)
        = Ok ((mk_tracker [] 1, g), Some []))
  /\ exists st outs,
       process_frames RANSAC.segment_plane DBSCAN.fit_labels 0
                      (init, floor_first)
                      [Some two_planes_frame; Some sparse_frame;
                       Some two_planes_frame]
       = Ok (st, outs)
       /\ map (fun saved => (fst saved, map out_object_id (snd saved))) outs
          = [(1%nat, [1%Z]); (3%nat, [1%Z])].
Proof.
  cbv zeta. split; [reflexivity|]. split; [reflexivity|].
  split; [reflexivity|]. split; [reflexivity|].
  split; [eexists; vm_compute; reflexivity|].
  eexists. eexists. split; [vm_compute; reflexivity|reflexivity].
Qed.

End PipelineExamples.

(** ** More concrete runs *)

Section FurtherExamples.
Import Feature Classifier Tracker GroundFilter ObjectFeatures Clustering Main.
Import TrackerView Stationary FeatureView Records.
Import Examples.

Lemma update_all_new_witness :
  let t := fst (update init [(0, 0, 2, 2)] default_dist_thresh) in
  (center_points t = [] \/ 0 <= 0)
  /\ snd (update t [(0, 0, 2, 2)] 0) = [(0, 0, 2, 2, 2%Z)]
  /\ id_count (fst (update t [(0, 0, 2, 2)] 0)) = 2%Z.
Proof.
  cbv zeta. split; [right; apply Qle_refl|].
  apply (update_all_new (fst (update init [(0, 0, 2, 2)] default_dist_thresh))
                        [(0, 0, 2, 2)] 0).
  right. apply Qle_refl.
Defined.

Lemma extract_features_sane_witness :
  List.length [0; 0; -1; 1; 1]%Z = shape0 small_frame
  /\ exists features,
       extract_features small_frame [0; 0; -1; 1; 1]%Z = Ok features
       /\ Forall sane features.
Proof.
  split; [reflexivity|].
  apply (extract_features_sane small_frame [0; 0; -1; 1; 1]%Z). reflexivity.
Defined.

Lemma extract_features_counts_points_witness :
  List.length [0; -1; -1; 1; 1]%Z = shape0 small_frame
  /\ exists features,
       extract_features small_frame [0; -1; -1; 1; 1]%Z = Ok features
       /\ total_points features = 3%Z.
Proof.
  split; [reflexivity|].
  apply (extract_features_counts_points small_frame [0; -1; -1; 1; 1]%Z).
  reflexivity.
Defined.

Lemma extract_features_one_per_cluster_witness :
  List.length (DBSCAN.fit_labels 1.5 2 (map xyz (rows small_frame)))
  = shape0 small_frame
  /\ exists features,
       extract_features
         small_frame
         (fst (cluster_objects DBSCAN.fit_labels small_frame 1.5 2))
       = Ok features
       /\ Z.of_nat (List.length features)
          = snd (cluster_objects DBSCAN.fit_labels small_frame 1.5 2).
Proof.
  split; [vm_compute; reflexivity|].
  apply (extract_features_one_per_cluster DBSCAN.fit_labels small_frame 1.5 2).
  vm_compute. reflexivity.
Defined.

Lemma filter_ground_ransac_row_count_witness :
  let inliers :=
    fst (RANSAC.segment_plane floor_only (map xyz (rows small_frame))
                              RANSAC_DISTANCE_THRESHOLD default_ransac_n
                              default_num_iterations) in
  (default_ransac_n <= Z.of_nat (shape0 small_frame))%Z
  /\ Forall (fun i => (i < shape0 small_frame)%nat) inliers
  /\ exists non_ground_points,
       fst (filter_ground_ransac xyz RANSAC.segment_plane floor_only
                                 (Some small_frame) RANSAC_DISTANCE_THRESHOLD
                                 default_ransac_n default_num_iterations)
       = Ok non_ground_points
       /\ (shape0 non_ground_points + List.length (nodup Nat.eq_dec inliers)
           = shape0 small_frame)%nat
       /\ shape1 non_ground_points = shape1 small_frame.
Proof.
  cbv zeta.
  assert (H : Forall (fun i => (i < shape0 small_frame)%nat)
                     (fst (RANSAC.segment_plane
                             floor_only (map xyz (rows small_frame))
                             RANSAC_DISTANCE_THRESHOLD default_ransac_n
                             default_num_iterations))).
  { vm_compute. repeat constructor. }
  split; [vm_compute; discriminate|]. split; [exact H|].
  apply (filter_ground_ransac_row_count
           point xyz RANSAC.generator RANSAC.segment_plane floor_only
           small_frame RANSAC_DISTANCE_THRESHOLD default_ransac_n
           default_num_iterations); [vm_compute; discriminate|exact H].
Defined.

Lemma process_frames_returns_witness :
  (forall g X d n k,
      Forall (fun i => (i < List.length X)%nat)
             (fst (RANSAC.segment_plane g X d n k)))
  /\ (forall eps min_samples X,
        List.length (DBSCAN.fit_labels eps min_samples X) = List.length X)
  /\ exists st' outs,
       process_frames RANSAC.segment_plane DBSCAN.fit_labels 0
                      (init, floor_first)
                      [Some two_planes_frame; None; Some sparse_frame]
       = Ok (st', outs).
Proof.
  split; [exact segment_plane_in_range|].
  split; [exact length_fit_labels|].
  apply (process_frames_returns
           RANSAC.generator RANSAC.segment_plane DBSCAN.fit_labels
           [Some two_planes_frame; None; Some sparse_frame] 0
           (init, floor_first) segment_plane_in_range length_fit_labels).
Defined.

Lemma update_stationary_witness :
  0 < default_dist_thresh
  /\ distinct_centres [(0, 0, 2, 2); (10, 0, 2, 2)]
  /\ let t := fst (run init [([(1, 1, 2, 2)], default_dist_thresh)]) in
     let r1 := update t [(0, 0, 2, 2); (10, 0, 2, 2)] default_dist_thresh in
     let r2 :=
       update (fst r1) [(0, 0, 2, 2); (10, 0, 2, 2)] default_dist_thresh in
     fst r2 = fst r1 /\ Permutation (snd r2) (snd r1).
Proof.
  assert (H : 0 < default_dist_thresh) by reflexivity.
  assert (D : distinct_centres [(0, 0, 2, 2); (10, 0, 2, 2)]).
  { repeat constructor. }
  split; [exact H|]. split; [exact D|].
  exact (update_stationary [([(1, 1, 2, 2)], default_dist_thresh)]
                           [(0, 0, 2, 2); (10, 0, 2, 2)]
                           default_dist_thresh H D).
Defined.

End FurtherExamples.
